(** * Recipe costing and integrity model of the restaurant_operations module

    A shallow embedding of [restaurant_operations/models/recipe.py]: the three
    Odoo models [restaurant.recipe], [restaurant.recipe.ingredient] and
    [restaurant.recipe.instruction], their compute and constraint methods, and
    the part of the ORM their declarations rely on (create / write / unlink,
    the recomputation triggered by [@api.depends] and [related=], the check
    triggered by [@api.constrains], [ondelete='cascade'] and [_order]).

    Float fields are IEEE binary64 values, as Python floats are; they are
    declared without [digits], so a value assigned to one is stored as it
    is.  Integer fields and ids are integers.  The unit of measure of a line
    is an id into a table of Odoo's uom module, which is not modelled. *)

From Stdlib Require Import ZArith List Bool String Lia.
From Stdlib Require Import Floats.PrimFloat Floats.SpecFloat Floats.FloatOps.
From Stdlib Require Import Sorting.Sorted Sorting.Permutation.
Import ListNotations.

Local Open Scope Z_scope.

(** ** Python values *)

(** [float(n)] for a Python int: the nearest binary64, ties to even.  The
    conversion is exact up to [2^53] in absolute value, so on every value an
    Integer field holds (a 32-bit column, see [int4] below).  Far beyond
    that range, past the largest binary64, Python raises [OverflowError]
    where this function gives an infinity; no property below is stated for
    an operation that carries such a value. *)
Definition float_of_int (n : Z) : float :=
  SF2Prim (binary_normalize prec emax n 0 false).

(** [sum(iterable)]: the builtin starts from [0] and adds from the left
    (CPython from 3.12 on also carries a compensation term for floats; the
    properties below use [sum] as a whole and [sum [] = 0]). *)
Definition sum (xs : list float) : float :=
  fold_left PrimFloat.add xs 0%float.

Inductive exn : Type :=
| ValidationError (msg : string)
| IntegrityError
| MissingError.

Inductive result (A : Type) : Type :=
| Ok (a : A)
| Raise (e : exn).
Arguments Ok {A} a.
Arguments Raise {A} e.

(** ** Tables

    One module per model, named after its [_name]; a row holds the stored
    fields of the model. *)

(** [product.product] belongs to Odoo's product module; only the field the
    costing reads is kept. *)
Module product_product.
Record row : Type := mk {
  id : Z;
  standard_price : float
}.

Definition set_standard_price (v : float) (r : row) : row :=
  mk (id r) v.
End product_product.

(** [class RecipeIngredient], [_name = 'restaurant.recipe.ingredient'].
    [recipe_id], [product_id], [quantity] and [uom_id] are [required=True];
    [unit_cost] and [total_cost] are computed and stored. *)
Module restaurant_recipe_ingredient.
Record row : Type := mk {
  id : Z;
  recipe_id : Z;
  product_id : Z;
  quantity : float;
  uom_id : Z;
  unit_cost : float;
  total_cost : float
}.

(** [quantity = fields.Float('Quantity', required=True, default=1.0)] *)
Definition default_quantity : float := 1%float.

Definition set_recipe_id (v : Z) (r : row) : row :=
  mk (id r) v (product_id r) (quantity r) (uom_id r) (unit_cost r) (total_cost r).
Definition set_product_id (v : Z) (r : row) : row :=
  mk (id r) (recipe_id r) v (quantity r) (uom_id r) (unit_cost r) (total_cost r).
Definition set_quantity (v : float) (r : row) : row :=
  mk (id r) (recipe_id r) (product_id r) v (uom_id r) (unit_cost r) (total_cost r).
Definition set_uom_id (v : Z) (r : row) : row :=
  mk (id r) (recipe_id r) (product_id r) (quantity r) v (unit_cost r) (total_cost r).
Definition set_unit_cost (v : float) (r : row) : row :=
  mk (id r) (recipe_id r) (product_id r) (quantity r) (uom_id r) v (total_cost r).
Definition set_total_cost (v : float) (r : row) : row :=
  mk (id r) (recipe_id r) (product_id r) (quantity r) (uom_id r) (unit_cost r) v.
End restaurant_recipe_ingredient.

(** [class RecipeInstruction], [_name = 'restaurant.recipe.instruction'].
    [recipe_id] and [instruction] are [required=True]. *)
Module restaurant_recipe_instruction.
Record row : Type := mk {
  id : Z;
  recipe_id : Z;
  sequence : Z;
  instruction : string
}.

(** [sequence = fields.Integer('Sequence', default=10)] *)
Definition default_sequence : Z := 10.

Definition set_recipe_id (v : Z) (r : row) : row :=
  mk (id r) v (sequence r) (instruction r).
Definition set_sequence (v : Z) (r : row) : row :=
  mk (id r) (recipe_id r) v (instruction r).
Definition set_instruction (v : string) (r : row) : row :=
  mk (id r) (recipe_id r) (sequence r) v.
End restaurant_recipe_instruction.

(** [class Recipe], [_name = 'restaurant.recipe'].  [name] and [category]
    are [required=True]; [total_cost] and [cost_per_serving] are computed
    and stored; [notes] may be left empty. *)
Module restaurant_recipe.
Inductive selection : Type :=
| appetizer | sushi | sashimi | roll | dessert | beverage | other.

Record row : Type := mk {
  id : Z;
  name : string;
  category : selection;
  prep_time : Z;
  serving_size : Z;
  total_cost : float;
  cost_per_serving : float;
  notes : option string;
  active : bool
}.

(** [category = fields.Selection(..., required=True, default='other')],
    [prep_time = fields.Integer(..., default=0)],
    [serving_size = fields.Integer('Serving Size', default=1)],
    [active = fields.Boolean('Active', default=True)] *)
Definition default_category : selection := other.
Definition default_prep_time : Z := 0.
Definition default_serving_size : Z := 1.
Definition default_active : bool := true.

Definition set_name (v : string) (r : row) : row :=
  mk (id r) v (category r) (prep_time r) (serving_size r) (total_cost r)
     (cost_per_serving r) (notes r) (active r).
Definition set_category (v : selection) (r : row) : row :=
  mk (id r) (name r) v (prep_time r) (serving_size r) (total_cost r)
     (cost_per_serving r) (notes r) (active r).
Definition set_prep_time (v : Z) (r : row) : row :=
  mk (id r) (name r) (category r) v (serving_size r) (total_cost r)
     (cost_per_serving r) (notes r) (active r).
Definition set_serving_size (v : Z) (r : row) : row :=
  mk (id r) (name r) (category r) (prep_time r) v (total_cost r)
     (cost_per_serving r) (notes r) (active r).
Definition set_total_cost (v : float) (r : row) : row :=
  mk (id r) (name r) (category r) (prep_time r) (serving_size r) v
     (cost_per_serving r) (notes r) (active r).
Definition set_cost_per_serving (v : float) (r : row) : row :=
  mk (id r) (name r) (category r) (prep_time r) (serving_size r) (total_cost r)
     v (notes r) (active r).
Definition set_notes (v : option string) (r : row) : row :=
  mk (id r) (name r) (category r) (prep_time r) (serving_size r) (total_cost r)
     (cost_per_serving r) v (active r).
Definition set_active (v : bool) (r : row) : row :=
  mk (id r) (name r) (category r) (prep_time r) (serving_size r) (total_cost r)
     (cost_per_serving r) (notes r) v.
End restaurant_recipe.

(** ** The environment

    The database as the methods see it through [self.env]: the four tables
    (rows in insertion order, which is id order) and the id sequence of each
    table this module owns. *)
Record Env : Type := mkEnv {
  products : list product_product.row;
  recipes : list restaurant_recipe.row;
  ingredients : list restaurant_recipe_ingredient.row;
  instructions : list restaurant_recipe_instruction.row;
  recipe_seq : Z;
  ingredient_seq : Z;
  instruction_seq : Z
}.

Definition empty_env : Env := mkEnv [] [] [] [] 1 1 1.

Definition with_products (f : list product_product.row -> list product_product.row)
    (env : Env) : Env :=
  mkEnv (f (products env)) (recipes env) (ingredients env) (instructions env)
        (recipe_seq env) (ingredient_seq env) (instruction_seq env).
Definition with_recipes (f : list restaurant_recipe.row -> list restaurant_recipe.row)
    (env : Env) : Env :=
  mkEnv (products env) (f (recipes env)) (ingredients env) (instructions env)
        (recipe_seq env) (ingredient_seq env) (instruction_seq env).
Definition with_ingredients
    (f : list restaurant_recipe_ingredient.row -> list restaurant_recipe_ingredient.row)
    (env : Env) : Env :=
  mkEnv (products env) (recipes env) (f (ingredients env)) (instructions env)
        (recipe_seq env) (ingredient_seq env) (instruction_seq env).
Definition with_instructions
    (f : list restaurant_recipe_instruction.row -> list restaurant_recipe_instruction.row)
    (env : Env) : Env :=
  mkEnv (products env) (recipes env) (ingredients env) (f (instructions env))
        (recipe_seq env) (ingredient_seq env) (instruction_seq env).

(** [x in ids] on ids. *)
Definition mem (x : Z) (ids : list Z) : bool := existsb (Z.eqb x) ids.

(** Assignment to fields of the record [id]: the rows with that id are
    replaced in place. *)
Definition assign {A : Type} (key : A -> Z) (id : Z) (f : A -> A) (table : list A)
    : list A :=
  map (fun r => if key r =? id then f r else r) table.

(** ** The methods of [RecipeIngredient] *)
Module RecipeIngredient.
Import restaurant_recipe_ingredient.

(** [ingredient.product_id.standard_price]; a field read on an empty
    recordset gives the null value of its type. *)
Definition product_id_standard_price (env : Env) (ingredient : row) : float :=
  match find (fun p => product_product.id p =? product_id ingredient) (products env) with
  | Some p => product_product.standard_price p
  | None => 0%float
  end.

(** [unit_cost = fields.Float(related='product_id.standard_price', store=True)]:
    a related field is a computed field whose compute method copies the
    value found at the end of the path. *)
Definition _compute_unit_cost (self : list Z) (env : Env) : Env :=
  fold_left
    (fun env ingredient =>
       with_ingredients
         (assign id ingredient
            (fun r => set_unit_cost (product_id_standard_price env r) r))
         env)
    self env.

(** [for ingredient in self:
       ingredient.total_cost = ingredient.quantity * ingredient.unit_cost] *)
Definition _compute_total_cost (self : list Z) (env : Env) : Env :=
  fold_left
    (fun env ingredient =>
       with_ingredients
         (assign id ingredient
            (fun r => set_total_cost (quantity r * unit_cost r)%float r))
         env)
    self env.
End RecipeIngredient.

(** ** The form of a line

    [_onchange_product_id] runs in the form, on the line being edited and
    before it is saved: its many2one fields may still be empty.  The unit of
    measure of a product is a field of Odoo's product module, taken here as
    a function of the product's id. *)
Module RecipeIngredientForm.
Record record : Type := mk {
  product_id : option Z;
  quantity : float;
  uom_id : option Z
}.

(** [if self.product_id:
        self.uom_id = self.product_id.uom_id] *)
Definition _onchange_product_id (product_uom_id : Z -> option Z) (self : record) : record :=
  match product_id self with
  | Some product => mk (product_id self) (quantity self) (product_uom_id product)
  | None => self
  end.
End RecipeIngredientForm.

(** ** [RecipeInstruction] *)
Module RecipeInstruction.
Import restaurant_recipe_instruction.

Fixpoint insert (step : row) (sorted : list row) : list row :=
  match sorted with
  | [] => [step]
  | x :: rest =>
      if sequence step <=? sequence x
      then step :: x :: rest
      else x :: insert step rest
  end.

(** The sort by [sequence], ascending, of the rows in the order they are
    given: rows with the same [sequence] stay in that order. *)
Definition _order (rows : list row) : list row :=
  fold_right insert [] rows.

(** [_order = 'sequence'] names one key and no second one: the order among
    rows of equal [sequence] is the database's.  A [tie_break] is the
    arrangement the database takes the rows in, any one; what a search of
    the model returns is the rows in that arrangement, sorted by
    [sequence]. *)
Record tie_break : Type := mkTieBreak {
  arrange : list row -> list row;
  arrange_perm : forall rows, Permutation (arrange rows) rows
}.

Definition _order_by (db : tie_break) (rows : list row) : list row :=
  _order (arrange db rows).
End RecipeInstruction.

(** ** The methods of [Recipe] *)
Module Recipe.
Import restaurant_recipe.

(** [recipe.instruction_ids], the One2many over [recipe_id]: the steps of
    the recipe, in the order of their model; here with the rows of equal
    [sequence] in table order, one of the orders the database may give. *)
Definition instruction_ids (env : Env) (recipe : Z)
    : list restaurant_recipe_instruction.row :=
  RecipeInstruction._order
    (filter (fun s => restaurant_recipe_instruction.recipe_id s =? recipe)
            (instructions env)).

(** [recipe.instruction_ids] under the tie-break [db] of the database. *)
Definition instruction_ids_by (db : RecipeInstruction.tie_break) (env : Env) (recipe : Z)
    : list restaurant_recipe_instruction.row :=
  RecipeInstruction._order_by db
    (filter (fun s => restaurant_recipe_instruction.recipe_id s =? recipe)
            (instructions env)).

(** [recipe.ingredient_ids], the One2many over [recipe_id]: the lines of
    the recipe, in the order of their model (by id). *)
Definition ingredient_ids (env : Env) (recipe : Z)
    : list restaurant_recipe_ingredient.row :=
  filter (fun i => restaurant_recipe_ingredient.recipe_id i =? recipe)
         (ingredients env).

(** [for recipe in self:
       recipe.total_cost = sum(ingredient.total_cost
                               for ingredient in recipe.ingredient_ids)] *)
Definition _compute_total_cost (self : list Z) (env : Env) : Env :=
  fold_left
    (fun env recipe =>
       with_recipes
         (assign id recipe
            (set_total_cost
               (sum (map restaurant_recipe_ingredient.total_cost
                         (ingredient_ids env recipe)))))
         env)
    self env.

(** [for recipe in self:
       if recipe.serving_size > 0:
           recipe.cost_per_serving = recipe.total_cost / recipe.serving_size
       else:
           recipe.cost_per_serving = 0.0] *)
Definition _compute_cost_per_serving (self : list Z) (env : Env) : Env :=
  fold_left
    (fun env recipe =>
       with_recipes
         (assign id recipe
            (fun r =>
               if serving_size r >? 0
               then set_cost_per_serving
                      (total_cost r / float_of_int (serving_size r))%float r
               else set_cost_per_serving 0%float r))
         env)
    self env.

(** [for recipe in self:
       if recipe.serving_size <= 0:
           raise ValidationError("Serving size must be greater than 0")] *)
Fixpoint _check_serving_size_rows (rows : list row) : result unit :=
  match rows with
  | [] => Ok tt
  | recipe :: rest =>
      if serving_size recipe <=? 0
      then Raise (ValidationError "Serving size must be greater than 0")
      else _check_serving_size_rows rest
  end.

Definition _check_serving_size (self : list Z) (env : Env) : result unit :=
  _check_serving_size_rows (filter (fun r => mem (id r) self) (recipes env)).
End Recipe.

(** ** The ORM operations

    [create], [write] and [unlink] are inherited from [models.Model]; each
    model's declarations decide what they do beyond storing the values:
    defaults and required fields at [create], the foreign keys of the
    Many2one fields, the constraint methods run on the fields written, and
    the recomputation of the stored computed fields whose dependencies were
    modified.  Computed fields are not written directly. *)

Definition bind {A B : Type} (m : result A) (k : A -> result B) : result B :=
  match m with
  | Ok a => k a
  | Raise e => Raise e
  end.

Notation "x <- m ;; k" := (bind m (fun x => k))
  (at level 61, m at next level, right associativity).
Notation "m ;;; k" := (bind m (fun _ => k))
  (at level 61, right associativity).

Definition default {A : Type} (d : A) (o : option A) : A :=
  match o with
  | Some a => a
  | None => d
  end.

Definition given {A : Type} (o : option A) : bool :=
  match o with
  | Some _ => true
  | None => false
  end.

(** [v] stored by [set] when the field is among the values written. *)
Definition store {A R : Type} (set : A -> R -> R) (o : option A) (r : R) : R :=
  match o with
  | Some v => set v r
  | None => r
  end.

Definition require {A : Type} (o : option A) : result A :=
  match o with
  | Some a => Ok a
  | None => Raise IntegrityError
  end.

Definition check (b : bool) (e : exn) : result unit :=
  if b then Ok tt else Raise e.

Definition has_id {A : Type} (key : A -> Z) (id : Z) (table : list A) : bool :=
  existsb (fun r => key r =? id) table.

Module RecipeVals.
Record t : Type := mk {
  name : option string;
  category : option restaurant_recipe.selection;
  prep_time : option Z;
  serving_size : option Z;
  notes : option string;
  active : option bool
}.
(** The fields of [vals] written on a row. *)
Definition write (vals : t) (r : restaurant_recipe.row) : restaurant_recipe.row :=
  store restaurant_recipe.set_active (active vals)
 (store (fun v => restaurant_recipe.set_notes (Some v)) (notes vals)
 (store restaurant_recipe.set_serving_size (serving_size vals)
 (store restaurant_recipe.set_prep_time (prep_time vals)
 (store restaurant_recipe.set_category (category vals)
 (store restaurant_recipe.set_name (name vals) r))))).
End RecipeVals.

Module IngredientVals.
Record t : Type := mk {
  recipe_id : option Z;
  product_id : option Z;
  quantity : option float;
  uom_id : option Z
}.
Definition write (vals : t) (r : restaurant_recipe_ingredient.row)
    : restaurant_recipe_ingredient.row :=
  store restaurant_recipe_ingredient.set_uom_id (uom_id vals)
 (store restaurant_recipe_ingredient.set_quantity (quantity vals)
 (store restaurant_recipe_ingredient.set_product_id (product_id vals)
 (store restaurant_recipe_ingredient.set_recipe_id (recipe_id vals) r))).
End IngredientVals.

Module InstructionVals.
Record t : Type := mk {
  recipe_id : option Z;
  sequence : option Z;
  instruction : option string
}.
Definition write (vals : t) (r : restaurant_recipe_instruction.row)
    : restaurant_recipe_instruction.row :=
  store restaurant_recipe_instruction.set_instruction (instruction vals)
 (store restaurant_recipe_instruction.set_sequence (sequence vals)
 (store restaurant_recipe_instruction.set_recipe_id (recipe_id vals) r)).
End InstructionVals.

Module ORM.

(** *** Recomputation, along the declared dependencies *)

(** [@api.depends('total_cost', 'serving_size')] on [cost_per_serving]. *)
Definition modified_recipe_total_cost (recipe_ids : list Z) (env : Env) : Env :=
  Recipe._compute_cost_per_serving recipe_ids env.

(** [@api.depends('ingredient_ids.total_cost')] on the recipe's
    [total_cost]: lines were added to or removed from the recipes, or the
    [total_cost] of some of their lines was recomputed. *)
Definition modified_ingredient_ids (recipe_ids : list Z) (env : Env) : Env :=
  modified_recipe_total_cost recipe_ids (Recipe._compute_total_cost recipe_ids env).

(** The recipes of the given lines. *)
Definition recipes_of (ingredient_ids : list Z) (env : Env) : list Z :=
  map restaurant_recipe_ingredient.recipe_id
      (filter (fun i => mem (restaurant_recipe_ingredient.id i) ingredient_ids)
              (ingredients env)).

(** [@api.depends('quantity', 'unit_cost')] on the line's [total_cost]. *)
Definition modified_quantity_or_unit_cost (ingredient_ids : list Z) (env : Env) : Env :=
  let env := RecipeIngredient._compute_total_cost ingredient_ids env in
  modified_ingredient_ids (recipes_of ingredient_ids env) env.

(** [related='product_id.standard_price']: the line's [product_id] was
    written, or the [standard_price] of its product was. *)
Definition modified_product_or_price (ingredient_ids : list Z) (env : Env) : Env :=
  modified_quantity_or_unit_cost ingredient_ids
    (RecipeIngredient._compute_unit_cost ingredient_ids env).

(** *** product.product *)

Definition create_product (id : Z) (standard_price : float) (env : Env) : result Env :=
  check (negb (has_id product_product.id id (products env))) IntegrityError ;;;
  Ok (with_products (fun t => t ++ [product_product.mk id standard_price]) env).

Definition write_product_standard_price (id : Z) (standard_price : float) (env : Env)
    : result Env :=
  check (has_id product_product.id id (products env)) MissingError ;;;
  let env :=
    with_products
      (assign product_product.id id (product_product.set_standard_price standard_price))
      env in
  let lines :=
    map restaurant_recipe_ingredient.id
        (filter (fun i => restaurant_recipe_ingredient.product_id i =? id)
                (ingredients env)) in
  Ok (modified_product_or_price lines env).

(** *** restaurant.recipe *)

Definition create_recipe (vals : RecipeVals.t) (env : Env) : result Env :=
  name <- require (RecipeVals.name vals) ;;
  let id := recipe_seq env in
  let recipe :=
    restaurant_recipe.mk id name
      (default restaurant_recipe.default_category (RecipeVals.category vals))
      (default restaurant_recipe.default_prep_time (RecipeVals.prep_time vals))
      (default restaurant_recipe.default_serving_size (RecipeVals.serving_size vals))
      0%float 0%float
      (RecipeVals.notes vals)
      (default restaurant_recipe.default_active (RecipeVals.active vals)) in
  let env :=
    mkEnv (products env) (recipes env ++ [recipe]) (ingredients env)
          (instructions env) (id + 1) (ingredient_seq env) (instruction_seq env) in
  Recipe._check_serving_size [id] env ;;;
  Ok (modified_ingredient_ids [id] env).

Definition write_recipe (id : Z) (vals : RecipeVals.t) (env : Env) : result Env :=
  check (has_id restaurant_recipe.id id (recipes env)) MissingError ;;;
  let env :=
    with_recipes (assign restaurant_recipe.id id (RecipeVals.write vals)) env in
  if given (RecipeVals.serving_size vals)
  then Recipe._check_serving_size [id] env ;;;
       Ok (Recipe._compute_cost_per_serving [id] env)
  else Ok env.

(** [ondelete='cascade'] on both [recipe_id] fields: the rows that point
    to the recipe are deleted with it. *)
Definition unlink_recipe (id : Z) (env : Env) : result Env :=
  Ok (mkEnv (products env)
        (filter (fun r => negb (restaurant_recipe.id r =? id)) (recipes env))
        (filter (fun i => negb (restaurant_recipe_ingredient.recipe_id i =? id))
                (ingredients env))
        (filter (fun s => negb (restaurant_recipe_instruction.recipe_id s =? id))
                (instructions env))
        (recipe_seq env) (ingredient_seq env) (instruction_seq env)).

(** *** restaurant.recipe.ingredient

    [uom_id] points into [uom.uom], a table of Odoo's uom module that is
    not part of the state: that the record it names exists is not checked
    here.  An operation on a line is thus accepted wherever the source
    accepts it; the properties of an accepted operation are stated for an
    operation that succeeded, and those of a refused one name the causes
    kept in the state. *)

Definition create_ingredient (vals : IngredientVals.t) (env : Env) : result Env :=
  recipe <- require (IngredientVals.recipe_id vals) ;;
  product <- require (IngredientVals.product_id vals) ;;
  uom <- require (IngredientVals.uom_id vals) ;;
  check (has_id restaurant_recipe.id recipe (recipes env)) IntegrityError ;;;
  check (has_id product_product.id product (products env)) IntegrityError ;;;
  let id := ingredient_seq env in
  let line :=
    restaurant_recipe_ingredient.mk id recipe product
      (default restaurant_recipe_ingredient.default_quantity (IngredientVals.quantity vals))
      uom 0%float 0%float in
  let env :=
    mkEnv (products env) (recipes env) (ingredients env ++ [line])
          (instructions env) (recipe_seq env) (id + 1) (instruction_seq env) in
  Ok (modified_product_or_price [id] env).

Definition write_ingredient (id : Z) (vals : IngredientVals.t) (env : Env)
    : result Env :=
  check (has_id restaurant_recipe_ingredient.id id (ingredients env)) MissingError ;;;
  check (match IngredientVals.recipe_id vals with
         | Some recipe => has_id restaurant_recipe.id recipe (recipes env)
         | None => true
         end) IntegrityError ;;;
  check (match IngredientVals.product_id vals with
         | Some product => has_id product_product.id product (products env)
         | None => true
         end) IntegrityError ;;;
  let before := recipes_of [id] env in
  let env :=
    with_ingredients
      (assign restaurant_recipe_ingredient.id id (IngredientVals.write vals)) env in
  let env :=
    if given (IngredientVals.product_id vals)
    then modified_product_or_price [id] env
    else if given (IngredientVals.quantity vals)
    then modified_quantity_or_unit_cost [id] env
    else env in
  Ok (if given (IngredientVals.recipe_id vals)
      then modified_ingredient_ids (before ++ recipes_of [id] env) env
      else env).

Definition unlink_ingredient (id : Z) (env : Env) : result Env :=
  let owners := recipes_of [id] env in
  let env :=
    with_ingredients
      (filter (fun i => negb (restaurant_recipe_ingredient.id i =? id))) env in
  Ok (modified_ingredient_ids owners env).

(** *** restaurant.recipe.instruction *)

Definition create_instruction (vals : InstructionVals.t) (env : Env) : result Env :=
  recipe <- require (InstructionVals.recipe_id vals) ;;
  text <- require (InstructionVals.instruction vals) ;;
  check (has_id restaurant_recipe.id recipe (recipes env)) IntegrityError ;;;
  let id := instruction_seq env in
  let step :=
    restaurant_recipe_instruction.mk id recipe
      (default restaurant_recipe_instruction.default_sequence
               (InstructionVals.sequence vals)) text in
  Ok (mkEnv (products env) (recipes env) (ingredients env)
            (instructions env ++ [step])
            (recipe_seq env) (ingredient_seq env) (id + 1)).

Definition write_instruction (id : Z) (vals : InstructionVals.t) (env : Env)
    : result Env :=
  check (has_id restaurant_recipe_instruction.id id (instructions env)) MissingError ;;;
  check (match InstructionVals.recipe_id vals with
         | Some recipe => has_id restaurant_recipe.id recipe (recipes env)
         | None => true
         end) IntegrityError ;;;
  Ok (with_instructions
        (assign restaurant_recipe_instruction.id id (InstructionVals.write vals)) env).

Definition unlink_instruction (id : Z) (env : Env) : result Env :=
  Ok (with_instructions
        (filter (fun s => negb (restaurant_recipe_instruction.id s =? id))) env).

End ORM.

(** ** Operations and reachable states *)

Inductive command : Type :=
| CreateProduct (id : Z) (standard_price : float)
| WriteProductStandardPrice (id : Z) (standard_price : float)
| CreateRecipe (vals : RecipeVals.t)
| WriteRecipe (id : Z) (vals : RecipeVals.t)
| UnlinkRecipe (id : Z)
| CreateIngredient (vals : IngredientVals.t)
| WriteIngredient (id : Z) (vals : IngredientVals.t)
| UnlinkIngredient (id : Z)
| CreateInstruction (vals : InstructionVals.t)
| WriteInstruction (id : Z) (vals : InstructionVals.t)
| UnlinkInstruction (id : Z).

Definition execute (c : command) (env : Env) : result Env :=
  match c with
  | CreateProduct id price => ORM.create_product id price env
  | WriteProductStandardPrice id price => ORM.write_product_standard_price id price env
  | CreateRecipe vals => ORM.create_recipe vals env
  | WriteRecipe id vals => ORM.write_recipe id vals env
  | UnlinkRecipe id => ORM.unlink_recipe id env
  | CreateIngredient vals => ORM.create_ingredient vals env
  | WriteIngredient id vals => ORM.write_ingredient id vals env
  | UnlinkIngredient id => ORM.unlink_ingredient id env
  | CreateInstruction vals => ORM.create_instruction vals env
  | WriteInstruction id vals => ORM.write_instruction id vals env
  | UnlinkInstruction id => ORM.unlink_instruction id env
  end.

(** An operation runs in a transaction: when it raises, nothing it wrote is
    kept. *)
Definition transaction (c : command) (env : Env) : Env :=
  match execute c env with
  | Ok env' => env'
  | Raise _ => env
  end.

Definition run (cs : list command) (env : Env) : Env :=
  fold_left (fun env c => transaction c env) cs env.

Inductive reachable : Env -> Prop :=
| reachable_empty : reachable empty_env
| reachable_step env c : reachable env -> reachable (transaction c env).

(** * The vocabulary of the properties *)

(** ** The compute methods, one record at a time

    The body of each loop [for record in self], as a function on the row. *)

Definition line_unit_cost (env : Env) (r : restaurant_recipe_ingredient.row)
    : restaurant_recipe_ingredient.row :=
  restaurant_recipe_ingredient.set_unit_cost
    (RecipeIngredient.product_id_standard_price env r) r.

Definition line_total_cost (r : restaurant_recipe_ingredient.row)
    : restaurant_recipe_ingredient.row :=
  restaurant_recipe_ingredient.set_total_cost
    (restaurant_recipe_ingredient.quantity r * restaurant_recipe_ingredient.unit_cost r)%float
    r.

Definition lines_total (env : Env) (recipe : Z) : float :=
  sum (map restaurant_recipe_ingredient.total_cost (Recipe.ingredient_ids env recipe)).

Definition recipe_total_cost (env : Env) (r : restaurant_recipe.row)
    : restaurant_recipe.row :=
  restaurant_recipe.set_total_cost (lines_total env (restaurant_recipe.id r)) r.

Definition per_serving (r : restaurant_recipe.row) : float :=
  if restaurant_recipe.serving_size r >? 0
  then (restaurant_recipe.total_cost r
        / float_of_int (restaurant_recipe.serving_size r))%float
  else 0%float.

Definition recipe_cost_per_serving (r : restaurant_recipe.row) : restaurant_recipe.row :=
  restaurant_recipe.set_cost_per_serving (per_serving r) r.

(** [f] on the records of [ids], the other rows as they are. *)
Definition on {A : Type} (key : A -> Z) (ids : list Z) (f : A -> A) (r : A) : A :=
  if mem (key r) ids then f r else r.

(** ** What settled means

    Each stored computed field agrees with its declaration.  The predicates
    take the records still to be recomputed as a parameter, so that the
    states inside an operation can be described too. *)

Definition line_synced (env : Env) (i : restaurant_recipe_ingredient.row) : Prop :=
  restaurant_recipe_ingredient.unit_cost i
  = RecipeIngredient.product_id_standard_price env i.

Definition line_costed (i : restaurant_recipe_ingredient.row) : Prop :=
  restaurant_recipe_ingredient.total_cost i
  = (restaurant_recipe_ingredient.quantity i
     * restaurant_recipe_ingredient.unit_cost i)%float.

Definition recipe_totalled (env : Env) (r : restaurant_recipe.row) : Prop :=
  restaurant_recipe.total_cost r = lines_total env (restaurant_recipe.id r).

Definition recipe_per_serving (r : restaurant_recipe.row) : Prop :=
  restaurant_recipe.cost_per_serving r = per_serving r.

Definition synced_outside (todo : list Z) (env : Env) : Prop :=
  forall i, In i (ingredients env) ->
            mem (restaurant_recipe_ingredient.id i) todo = false -> line_synced env i.

Definition costed_outside (todo : list Z) (env : Env) : Prop :=
  forall i, In i (ingredients env) ->
            mem (restaurant_recipe_ingredient.id i) todo = false -> line_costed i.

Definition totalled_outside (todo : list Z) (env : Env) : Prop :=
  forall r, In r (recipes env) ->
            mem (restaurant_recipe.id r) todo = false -> recipe_totalled env r.

Definition per_serving_outside (todo : list Z) (env : Env) : Prop :=
  forall r, In r (recipes env) ->
            mem (restaurant_recipe.id r) todo = false -> recipe_per_serving r.

(** A state with records to recompute: the lines whose [unit_cost], the
    lines whose [total_cost], the recipes whose [total_cost] and the recipes
    whose [cost_per_serving] may be out of date. *)
Record pending (lines_unit lines_total recipes_total recipes_serving : list Z) (env : Env)
    : Prop := mkPending {
  pending_synced : synced_outside lines_unit env;
  pending_costed : costed_outside lines_total env;
  pending_totalled : totalled_outside recipes_total env;
  pending_per_serving : per_serving_outside recipes_serving env
}.

Record settled (env : Env) : Prop := mkSettled {
  settled_synced : synced_outside [] env;
  settled_costed : costed_outside [] env;
  settled_totalled : totalled_outside [] env;
  settled_per_serving : per_serving_outside [] env
}.

(** Every record outside [todo'] is outside [todo]. *)
Definition covers (todo todo' : list Z) : Prop :=
  forall x, mem x todo' = false -> mem x todo = false.

(** ** The integrity of the tables

    Every serving size is positive, every child row has its recipe, every
    line has its product. *)

Definition serving_sizes_positive (env : Env) : Prop :=
  forall r, In r (recipes env) -> restaurant_recipe.serving_size r > 0.

Definition lines_owned (env : Env) : Prop :=
  forall i, In i (ingredients env) ->
    has_id restaurant_recipe.id (restaurant_recipe_ingredient.recipe_id i) (recipes env)
    = true.

Definition steps_owned (env : Env) : Prop :=
  forall s, In s (instructions env) ->
    has_id restaurant_recipe.id (restaurant_recipe_instruction.recipe_id s) (recipes env)
    = true.

Definition lines_linked (env : Env) : Prop :=
  forall i, In i (ingredients env) ->
    has_id product_product.id (restaurant_recipe_ingredient.product_id i) (products env)
    = true.

Record sound (env : Env) : Prop := mkSound {
  sound_serving : serving_sizes_positive env;
  sound_lines_owned : lines_owned env;
  sound_steps_owned : steps_owned env;
  sound_lines_linked : lines_linked env
}.

(** The rows of a table are in the order of their ids, which are below the
    next value of the sequence of the table. *)
Definition fresh_ids {A : Type} (key : A -> Z) (seq : Z) (table : list A) : Prop :=
  StronglySorted Z.lt (map key table) /\ forall r, In r table -> key r < seq.

Record keyed (env : Env) : Prop := mkKeyed {
  keyed_recipes : fresh_ids restaurant_recipe.id (recipe_seq env) (recipes env);
  keyed_lines : fresh_ids restaurant_recipe_ingredient.id (ingredient_seq env) (ingredients env);
  keyed_steps :
    fresh_ids restaurant_recipe_instruction.id (instruction_seq env) (instructions env)
}.

(** The columns that recomputation never writes. *)
Definition line_keys (i : restaurant_recipe_ingredient.row) : Z * Z * Z :=
  (restaurant_recipe_ingredient.id i,
   restaurant_recipe_ingredient.recipe_id i,
   restaurant_recipe_ingredient.product_id i).

Definition recipe_keys (r : restaurant_recipe.row) : Z * Z :=
  (restaurant_recipe.id r, restaurant_recipe.serving_size r).

Record same_keys (env env' : Env) : Prop := mkSameKeys {
  keys_products : products env' = products env;
  keys_recipes : map recipe_keys (recipes env') = map recipe_keys (recipes env);
  keys_lines : map line_keys (ingredients env') = map line_keys (ingredients env);
  keys_steps : instructions env' = instructions env;
  keys_recipe_seq : recipe_seq env' = recipe_seq env;
  keys_ingredient_seq : ingredient_seq env' = ingredient_seq env;
  keys_instruction_seq : instruction_seq env' = instruction_seq env
}.

(** ** The values of an Integer field

    [fields.Integer] is a 32-bit column: [prep_time] and [serving_size]
    hold the integers of that range, and a value outside it is refused
    when it reaches the database.  The operations above store the integer
    they are given; the properties that say a [create] or a [write] of a
    recipe is accepted are stated for values within the range. *)

Definition int4 (v : Z) : Prop := -2147483648 <= v <= 2147483647.

Definition storable (vals : RecipeVals.t) : Prop :=
  (forall v, RecipeVals.prep_time vals = Some v -> int4 v)
  /\ (forall v, RecipeVals.serving_size vals = Some v -> int4 v).

(** ** The scenarios of the specification

    A recipe for two servings with two lines, 0.2 of a product priced 20
    and 0.3 of a product priced 4, and two steps entered out of order. *)

#[warnings="-inexact-float"]
Definition salmon_nigiri : list command :=
  [ CreateProduct 7 20%float;
    CreateProduct 8 4%float;
    CreateRecipe
      (RecipeVals.mk (Some "Salmon Nigiri"%string) (Some restaurant_recipe.sushi)
                     None (Some 2) None None);
    CreateIngredient (IngredientVals.mk (Some 1) (Some 7) (Some 0.2%float) (Some 1));
    CreateIngredient (IngredientVals.mk (Some 1) (Some 8) (Some 0.3%float) (Some 1));
    CreateInstruction (InstructionVals.mk (Some 1) (Some 20) (Some "Slice the salmon"%string));
    CreateInstruction (InstructionVals.mk (Some 1) (Some 10) (Some "Cook the rice"%string)) ].

Definition kitchen : Env := run salmon_nigiri empty_env.

(** The rows of [kitchen]. *)
#[warnings="-inexact-float"]
Definition nigiri : restaurant_recipe.row :=
  restaurant_recipe.mk 1 "Salmon Nigiri" restaurant_recipe.sushi 0 2
                       5.2%float 2.6%float None true.

#[warnings="-inexact-float"]
Definition salmon : restaurant_recipe_ingredient.row :=
  restaurant_recipe_ingredient.mk 1 1 7 0.2%float 1 20%float 4%float.

#[warnings="-inexact-float"]
Definition rice : restaurant_recipe_ingredient.row :=
  restaurant_recipe_ingredient.mk 2 1 8 0.3%float 1 4%float 1.2%float.

(** Values for [create] and [write]: a recipe with no servings, a recipe
    with a negative preparation time, a recipe with its name only. *)
Definition no_servings : RecipeVals.t :=
  RecipeVals.mk (Some "Tamago"%string) None None (Some 0) None None.

Definition rushed : RecipeVals.t :=
  RecipeVals.mk (Some "Salmon Nigiri"%string) None (Some (-5)) None None None.

Definition tamago_vals : RecipeVals.t :=
  RecipeVals.mk (Some "Tamago"%string) None None None None None.

(** A table holding a recipe with no servings, as no operation leaves it;
    [_compute_cost_per_serving] takes its second branch on it and gives the
    row [tamago]. *)
Definition stale_table : Env :=
  mkEnv [] [restaurant_recipe.mk 1 "Tamago" restaurant_recipe.other 0 0
                                 3%float 3%float None true]
        [] [] 2 1 1.

Definition tamago : restaurant_recipe.row :=
  restaurant_recipe.mk 1 "Tamago" restaurant_recipe.other 0 0 3%float 0%float None true.

(** ** The values entered

    The fields of a row that no compute method writes: what the user (or
    the product module) entered. *)

Definition line_inputs (i : restaurant_recipe_ingredient.row) : Z * Z * Z * float * Z :=
  (restaurant_recipe_ingredient.id i,
   restaurant_recipe_ingredient.recipe_id i,
   restaurant_recipe_ingredient.product_id i,
   restaurant_recipe_ingredient.quantity i,
   restaurant_recipe_ingredient.uom_id i).

Definition recipe_inputs (r : restaurant_recipe.row)
    : Z * string * restaurant_recipe.selection * Z * Z * option string * bool :=
  (restaurant_recipe.id r,
   restaurant_recipe.name r,
   restaurant_recipe.category r,
   restaurant_recipe.prep_time r,
   restaurant_recipe.serving_size r,
   restaurant_recipe.notes r,
   restaurant_recipe.active r).

Record same_inputs (env env' : Env) : Prop := mkSameInputs {
  inputs_products : products env' = products env;
  inputs_recipes : map recipe_inputs (recipes env') = map recipe_inputs (recipes env);
  inputs_lines : map line_inputs (ingredients env') = map line_inputs (ingredients env);
  inputs_steps : instructions env' = instructions env
}.

(** The operations that add a record of this module. *)
Definition creates (c : command) : bool :=
  match c with
  | CreateRecipe _ | CreateIngredient _ | CreateInstruction _ => true
  | _ => false
  end.

(** The unlink that removes the record a create is about to add: the id a
    new record gets is the next value of the sequence of its table. *)
Definition undo (c : command) (env : Env) : option command :=
  match c with
  | CreateRecipe _ => Some (UnlinkRecipe (recipe_seq env))
  | CreateIngredient _ => Some (UnlinkIngredient (ingredient_seq env))
  | CreateInstruction _ => Some (UnlinkInstruction (instruction_seq env))
  | _ => None
  end.

(** A line after its product got a new price: a line of the product holds
    the price and its total at that price, a line of another product is as
    it was. *)
Definition repriced (product : Z) (price : float) (i : restaurant_recipe_ingredient.row)
    : restaurant_recipe_ingredient.row :=
  if restaurant_recipe_ingredient.product_id i =? product
  then restaurant_recipe_ingredient.set_total_cost
         (restaurant_recipe_ingredient.quantity i * price)%float
         (restaurant_recipe_ingredient.set_unit_cost price i)
  else i.

(** Values for a second line of salmon on the recipe of the first
    scenario, its quantity left to the default. *)
Definition more_salmon : IngredientVals.t :=
  IngredientVals.mk (Some 1) (Some 7) None (Some 1).

(** Values for a third step of the recipe of the first scenario, its
    sequence left to the default. *)
Definition shape_rice : InstructionVals.t :=
  InstructionVals.mk (Some 1) None (Some "Shape the rice"%string).

(** The line an operation creates, writes or unlinks. *)
Definition line_target (c : command) (env : Env) : option Z :=
  match c with
  | CreateIngredient _ => Some (ingredient_seq env)
  | WriteIngredient id _ => Some id
  | UnlinkIngredient id => Some id
  | _ => None
  end.

(** Values for a step of sequence 15, between the two of the first
    scenario. *)
Definition plate_up : InstructionVals.t :=
  InstructionVals.mk (Some 1) (Some 15) (Some "Plate up"%string).

(** A write of a negative preparation time together with a serving size. *)
Definition rushed_for_three : RecipeVals.t :=
  RecipeVals.mk None None (Some (-5)) (Some 3) None None.

(** The first scenario with a third step, which ties with the second: both
    have sequence 10. *)
Definition kitchen_tied : Env := transaction (CreateInstruction shape_rice) kitchen.

(** Two tie-breaks: the rows in table order, and in the reverse of it. *)
Definition table_order : RecipeInstruction.tie_break :=
  RecipeInstruction.mkTieBreak (fun rows => rows) (fun rows => Permutation_refl rows).

Definition reversed : RecipeInstruction.tie_break :=
  RecipeInstruction.mkTieBreak
    (@rev restaurant_recipe_instruction.row)
    (fun rows => Permutation_sym (Permutation_rev rows)).

(** The first scenario after a detour: the quantity of salmon and the
    price of rice are changed and put back. *)
#[warnings="-inexact-float"]
Definition kitchen_detour : Env :=
  run [ WriteIngredient 1 (IngredientVals.mk None None (Some 0.4%float) None);
        WriteProductStandardPrice 8 9%float;
        WriteIngredient 1 (IngredientVals.mk None None (Some 0.2%float) None);
        WriteProductStandardPrice 8 4%float ]
      kitchen.

(** * Properties *)

(** ** Lists and tables *)

Lemma mem_app x a b : mem x (a ++ b) = mem x a || mem x b.
Proof. unfold mem. apply existsb_app. Qed.

Lemma mem_In x ids : mem x ids = true <-> In x ids.
Proof.
  unfold mem. rewrite existsb_exists. split.
  - intros [y [Hy E]]. apply Z.eqb_eq in E. now subst.
  - intro H. exists x. split; [assumption | apply Z.eqb_refl].
Qed.

Lemma mem_single x y : mem x [y] = (x =? y).
Proof. unfold mem. simpl. apply orb_false_r. Qed.

Lemma has_id_In {A : Type} (key : A -> Z) id table :
  has_id key id table = true <-> exists r, In r table /\ key r = id.
Proof.
  unfold has_id. rewrite existsb_exists. split.
  - intros [r [Hr E]]. apply Z.eqb_eq in E. eauto.
  - intros [r [Hr E]]. exists r. split; [assumption | now apply Z.eqb_eq].
Qed.

Lemma has_id_map {A : Type} (key : A -> Z) id table :
  has_id key id table = existsb (fun k => k =? id) (map key table).
Proof.
  unfold has_id. induction table as [|x l IH]; simpl; [reflexivity | now rewrite IH].
Qed.

Lemma has_id_keys {A B : Type} (key : A -> Z) (key' : B -> Z) id t t' :
  map key t = map key' t' -> has_id key id t = has_id key' id t'.
Proof. intro E. now rewrite !has_id_map, E. Qed.

Lemma assign_keys {A : Type} (key : A -> Z) id (f : A -> A) table :
  (forall r, key (f r) = key r) -> map key (assign key id f table) = map key table.
Proof.
  intro H. unfold assign. rewrite map_map. apply map_ext.
  intro r. destruct (key r =? id); auto.
Qed.

(** A loop of assignments over the ids of a recordset, as one pass over the
    table. *)
Lemma fold_assign {A : Type} (key : A -> Z) (F : Z -> A -> A) ids table :
  (forall i r, key (F i r) = key r) ->
  (forall i r, F i (F i r) = F i r) ->
  fold_left (fun t i => assign key i (F i) t) ids table
  = map (fun r => if mem (key r) ids then F (key r) r else r) table.
Proof.
  intros Hk Hf. revert table.
  induction ids as [|a ids IH]; intro table; simpl.
  - symmetry. apply map_id.
  - rewrite IH. unfold assign. rewrite map_map. apply map_ext.
    intro r. destruct (key r =? a) eqn:E; simpl.
    + apply Z.eqb_eq in E. subst a.
      rewrite Hk, Hf. destruct (mem (key r) ids); reflexivity.
    + reflexivity.
Qed.

Lemma fold_with_recipes (F : Env -> Z -> list restaurant_recipe.row -> list restaurant_recipe.row)
    ids env :
  (forall g e, F (with_recipes g e) = F e) ->
  fold_left (fun e i => with_recipes (F e i) e) ids env
  = with_recipes (fun t => fold_left (fun t i => F env i t) ids t) env.
Proof.
  intro H. revert env.
  induction ids as [|a ids IH]; intro env; simpl.
  - destruct env; reflexivity.
  - rewrite IH. rewrite H. reflexivity.
Qed.

Lemma fold_with_ingredients
    (F : Env -> Z -> list restaurant_recipe_ingredient.row
         -> list restaurant_recipe_ingredient.row) ids env :
  (forall g e, F (with_ingredients g e) = F e) ->
  fold_left (fun e i => with_ingredients (F e i) e) ids env
  = with_ingredients (fun t => fold_left (fun t i => F env i t) ids t) env.
Proof.
  intro H. revert env.
  induction ids as [|a ids IH]; intro env; simpl.
  - destruct env; reflexivity.
  - rewrite IH. rewrite H. reflexivity.
Qed.

(** ** The compute methods as passes over their table *)

Lemma RecipeIngredient_compute_unit_cost_rows self env :
  RecipeIngredient._compute_unit_cost self env
  = with_ingredients
      (map (on restaurant_recipe_ingredient.id self (line_unit_cost env))) env.
Proof.
  unfold RecipeIngredient._compute_unit_cost.
  rewrite (fold_with_ingredients
             (fun e i => assign restaurant_recipe_ingredient.id i
                           (fun r => restaurant_recipe_ingredient.set_unit_cost
                                       (RecipeIngredient.product_id_standard_price e r) r)))
    by reflexivity.
  unfold with_ingredients, with_recipes. f_equal.
  rewrite (fold_assign restaurant_recipe_ingredient.id (fun _ => line_unit_cost env));
    reflexivity.
Qed.

Lemma RecipeIngredient_compute_total_cost_rows self env :
  RecipeIngredient._compute_total_cost self env
  = with_ingredients (map (on restaurant_recipe_ingredient.id self line_total_cost)) env.
Proof.
  unfold RecipeIngredient._compute_total_cost.
  rewrite (fold_with_ingredients
             (fun _ i => assign restaurant_recipe_ingredient.id i
                           (fun r => restaurant_recipe_ingredient.set_total_cost
                                       (restaurant_recipe_ingredient.quantity r
                                        * restaurant_recipe_ingredient.unit_cost r)%float r)))
    by reflexivity.
  unfold with_ingredients, with_recipes. f_equal.
  rewrite (fold_assign restaurant_recipe_ingredient.id (fun _ => line_total_cost));
    reflexivity.
Qed.

Lemma Recipe_compute_total_cost_rows self env :
  Recipe._compute_total_cost self env
  = with_recipes (map (on restaurant_recipe.id self (recipe_total_cost env))) env.
Proof.
  unfold Recipe._compute_total_cost.
  rewrite (fold_with_recipes
             (fun e i => assign restaurant_recipe.id i
                           (restaurant_recipe.set_total_cost
                              (sum (map restaurant_recipe_ingredient.total_cost
                                        (Recipe.ingredient_ids e i))))))
    by reflexivity.
  unfold with_ingredients, with_recipes. f_equal.
  rewrite (fold_assign restaurant_recipe.id
             (fun i => restaurant_recipe.set_total_cost (lines_total env i)));
    reflexivity.
Qed.

Lemma Recipe_compute_cost_per_serving_rows self env :
  Recipe._compute_cost_per_serving self env
  = with_recipes (map (on restaurant_recipe.id self recipe_cost_per_serving)) env.
Proof.
  unfold Recipe._compute_cost_per_serving.
  rewrite (fold_with_recipes
             (fun _ i => assign restaurant_recipe.id i
                (fun r =>
                   if restaurant_recipe.serving_size r >? 0
                   then restaurant_recipe.set_cost_per_serving
                          (restaurant_recipe.total_cost r
                           / float_of_int (restaurant_recipe.serving_size r))%float r
                   else restaurant_recipe.set_cost_per_serving 0%float r)))
    by reflexivity.
  unfold with_ingredients, with_recipes. f_equal.
  rewrite (fold_assign restaurant_recipe.id
             (fun _ r =>
                if restaurant_recipe.serving_size r >? 0
                then restaurant_recipe.set_cost_per_serving
                       (restaurant_recipe.total_cost r
                        / float_of_int (restaurant_recipe.serving_size r))%float r
                else restaurant_recipe.set_cost_per_serving 0%float r)).
  - apply map_ext. intro r. unfold on, recipe_cost_per_serving, per_serving.
    destruct (mem (restaurant_recipe.id r) self); [|reflexivity].
    destruct (restaurant_recipe.serving_size r >? 0); reflexivity.
  - intros _ r. destruct (restaurant_recipe.serving_size r >? 0); reflexivity.
  - intros _ r. destruct (restaurant_recipe.serving_size r >? 0) eqn:E; simpl; rewrite E; reflexivity.
Qed.

(** ** The columns recomputation leaves alone *)

Lemma same_keys_refl env : same_keys env env.
Proof. constructor; reflexivity. Qed.

Lemma same_keys_trans e1 e2 e3 : same_keys e1 e2 -> same_keys e2 e3 -> same_keys e1 e3.
Proof.
  intros [A1 A2 A3 A4 A5 A6 A7] [B1 B2 B3 B4 B5 B6 B7].
  constructor; congruence.
Qed.

Lemma map_keys_In {A K : Type} (k : A -> K) (l l' : list A) x :
  map k l' = map k l -> In x l' -> exists y, In y l /\ k y = k x.
Proof.
  intros E H. apply (in_map k) in H. rewrite E in H.
  apply in_map_iff in H. destruct H as [y [Hy Hin]]. eauto.
Qed.

Lemma recipe_ids_of_keys (t t' : list restaurant_recipe.row) :
  map recipe_keys t' = map recipe_keys t ->
  map restaurant_recipe.id t' = map restaurant_recipe.id t.
Proof.
  intro E.
  change restaurant_recipe.id with (fun r => fst (recipe_keys r)).
  rewrite <- (map_map recipe_keys fst t'), <- (map_map recipe_keys fst t).
  now rewrite E.
Qed.

Lemma sound_same_keys env env' : same_keys env env' -> sound env -> sound env'.
Proof.
  intros [K1 K2 K3 K4 _ _ _] [S1 S2 S3 S4].
  pose proof (recipe_ids_of_keys _ _ K2) as Kid.
  constructor.
  - intros r Hr. destruct (map_keys_In _ _ _ _ K2 Hr) as [y [Hy E]].
    injection E as _ E. rewrite <- E. auto.
  - intros i Hi. destruct (map_keys_In _ _ _ _ K3 Hi) as [y [Hy E]].
    injection E as _ E _. rewrite <- E.
    rewrite (has_id_keys _ restaurant_recipe.id _ _ _ Kid). auto.
  - intros s Hs. rewrite K4 in Hs.
    rewrite (has_id_keys _ restaurant_recipe.id _ _ _ Kid). auto.
  - intros i Hi. destruct (map_keys_In _ _ _ _ K3 Hi) as [y [Hy E]].
    injection E as _ _ E. rewrite <- E. rewrite K1. auto.
Qed.

(** ** Rows under a pass *)

Lemma filter_map_comm {A B : Type} (p : B -> bool) (k : A -> B) l :
  filter p (map k l) = map k (filter (fun x => p (k x)) l).
Proof.
  induction l as [|x l IH]; simpl; [reflexivity|].
  destruct (p (k x)); simpl; now rewrite IH.
Qed.

Lemma map_filter_keys {A K B : Type} (k : A -> K) (p : K -> bool) (f : K -> B) l l' :
  map k l' = map k l ->
  map (fun x => f (k x)) (filter (fun x => p (k x)) l')
  = map (fun x => f (k x)) (filter (fun x => p (k x)) l).
Proof.
  intro E.
  rewrite <- (map_map k f (filter _ l')), <- (map_map k f (filter _ l)).
  rewrite <- !filter_map_comm. now rewrite E.
Qed.

(** The values [v] of the rows selected by [p] do not see a pass [g] that
    keeps [p] and leaves [v] alone on the selected rows. *)
Lemma map_filter_pass {A B : Type} (p : A -> bool) (v : A -> B) (g : A -> A) l :
  (forall x, In x l -> p (g x) = p x) ->
  (forall x, In x l -> p x = true -> v (g x) = v x) ->
  map v (filter p (map g l)) = map v (filter p l).
Proof.
  induction l as [|x l IH]; intros Hp Hv; simpl; [reflexivity|].
  rewrite Hp by (left; reflexivity).
  destruct (p x) eqn:E; simpl.
  - rewrite Hv by (auto; left; reflexivity).
    f_equal. apply IH; intros; [apply Hp | apply Hv]; auto; right; assumption.
  - apply IH; intros; [apply Hp | apply Hv]; auto; right; assumption.
Qed.

Lemma recipes_of_keys ids env env' :
  map line_keys (ingredients env') = map line_keys (ingredients env) ->
  ORM.recipes_of ids env' = ORM.recipes_of ids env.
Proof.
  intro E. unfold ORM.recipes_of.
  apply (map_filter_keys line_keys (fun k => mem (fst (fst k)) ids)
                         (fun k => snd (fst k)) _ _ E).
Qed.

Lemma recipes_of_In ids env i :
  In i (ingredients env) ->
  mem (restaurant_recipe_ingredient.id i) ids = true ->
  mem (restaurant_recipe_ingredient.recipe_id i) (ORM.recipes_of ids env) = true.
Proof.
  intros Hi Hm. apply mem_In. unfold ORM.recipes_of.
  apply in_map. apply filter_In. auto.
Qed.

Lemma lines_total_pass env g k :
  (forall i, In i (ingredients env) ->
     (restaurant_recipe_ingredient.recipe_id (g i) =? k)
     = (restaurant_recipe_ingredient.recipe_id i =? k)) ->
  (forall i, In i (ingredients env) ->
     restaurant_recipe_ingredient.recipe_id i = k ->
     restaurant_recipe_ingredient.total_cost (g i) = restaurant_recipe_ingredient.total_cost i) ->
  lines_total (with_ingredients (map g) env) k = lines_total env k.
Proof.
  intros Hr Ht. unfold lines_total, Recipe.ingredient_ids. simpl.
  f_equal. apply map_filter_pass.
  - exact Hr.
  - intros x Hx E. apply Ht; [assumption | now apply Z.eqb_eq].
Qed.

Lemma filter_filter_implied {A : Type} (p q : A -> bool) l :
  (forall x, In x l -> p x = true -> q x = true) ->
  filter p (filter q l) = filter p l.
Proof.
  induction l as [|x l IH]; intro H; simpl; [reflexivity|].
  destruct (q x) eqn:Q; simpl.
  - destruct (p x); [f_equal|]; apply IH; intros; apply H; auto; right; assumption.
  - destruct (p x) eqn:P.
    + rewrite H in Q; [discriminate | left; reflexivity | assumption].
    + apply IH; intros; apply H; auto; right; assumption.
Qed.

Lemma lines_total_filter env q k :
  (forall i, In i (ingredients env) ->
     restaurant_recipe_ingredient.recipe_id i = k -> q i = true) ->
  lines_total (with_ingredients (filter q) env) k = lines_total env k.
Proof.
  intro H. unfold lines_total, Recipe.ingredient_ids. simpl.
  rewrite filter_filter_implied; [reflexivity|].
  intros x Hx E. apply H; [assumption | now apply Z.eqb_eq].
Qed.

Lemma In_map_on {A : Type} (key : A -> Z) ids (f : A -> A) l x :
  In x (map (on key ids f) l) ->
  exists y, In y l /\
    ((mem (key y) ids = true /\ x = f y) \/ (mem (key y) ids = false /\ x = y)).
Proof.
  intro H. apply in_map_iff in H. destruct H as [y [E Hy]].
  exists y. split; [assumption|]. unfold on in E.
  destruct (mem (key y) ids); [left | right]; auto.
Qed.

Lemma map_on_keys {A K : Type} (key : A -> Z) (k : A -> K) ids (f : A -> A) l :
  (forall x, k (f x) = k x) -> map k (map (on key ids f) l) = map k l.
Proof.
  intro H. rewrite map_map. apply map_ext. intro x. unfold on.
  destruct (mem (key x) ids); auto.
Qed.

(** ** Weakening *)

Lemma mem_app_false x a b : mem x (a ++ b) = false <-> mem x a = false /\ mem x b = false.
Proof. rewrite mem_app. apply orb_false_iff. Qed.

Lemma covers_refl a : covers a a.
Proof. intros x H; exact H. Qed.

Lemma covers_nil a : covers [] a.
Proof. intros x _; reflexivity. Qed.

Lemma covers_app_r a b : covers b (a ++ b).
Proof. intros x H. now apply mem_app_false in H. Qed.

Lemma covers_app_l a b : covers a (a ++ b).
Proof. intros x H. now apply mem_app_false in H. Qed.

Lemma synced_outside_covers a b env :
  covers a b -> synced_outside a env -> synced_outside b env.
Proof. intros C H i Hi Hm. apply H; auto. Qed.

Lemma costed_outside_covers a b env :
  covers a b -> costed_outside a env -> costed_outside b env.
Proof. intros C H i Hi Hm. apply H; auto. Qed.

Lemma totalled_outside_covers a b env :
  covers a b -> totalled_outside a env -> totalled_outside b env.
Proof. intros C H i Hi Hm. apply H; auto. Qed.

Lemma per_serving_outside_covers a b env :
  covers a b -> per_serving_outside a env -> per_serving_outside b env.
Proof. intros C H i Hi Hm. apply H; auto. Qed.

(** ** The four compute methods on a state with records to recompute *)

Lemma settled_pending env : settled env <-> pending [] [] [] [] env.
Proof. split; intros [A B C D]; constructor; assumption. Qed.

Lemma pending_covers a b c d a' b' c' d' env :
  covers a a' -> covers b b' -> covers c c' -> covers d d' ->
  pending a b c d env -> pending a' b' c' d' env.
Proof.
  intros Ca Cb Cc Cd [A B C D]. constructor.
  - eapply synced_outside_covers; eauto.
  - eapply costed_outside_covers; eauto.
  - eapply totalled_outside_covers; eauto.
  - eapply per_serving_outside_covers; eauto.
Qed.

Ltac on_row H :=
  let y := fresh "y" in
  let Hy := fresh "Hy" in
  let Hm := fresh "Hm" in
  let E := fresh "E" in
  apply In_map_on in H; destruct H as [y [Hy [[Hm E] | [Hm E]]]]; subst.

Lemma compute_unit_cost_keys ids env :
  same_keys env (RecipeIngredient._compute_unit_cost ids env).
Proof.
  rewrite RecipeIngredient_compute_unit_cost_rows.
  constructor; try reflexivity. simpl. now apply map_on_keys.
Qed.

Lemma line_compute_total_cost_keys ids env :
  same_keys env (RecipeIngredient._compute_total_cost ids env).
Proof.
  rewrite RecipeIngredient_compute_total_cost_rows.
  constructor; try reflexivity. simpl. now apply map_on_keys.
Qed.

Lemma compute_total_cost_keys ids env :
  same_keys env (Recipe._compute_total_cost ids env).
Proof.
  rewrite Recipe_compute_total_cost_rows.
  constructor; try reflexivity. simpl. now apply map_on_keys.
Qed.

Lemma compute_cost_per_serving_keys ids env :
  same_keys env (Recipe._compute_cost_per_serving ids env).
Proof.
  rewrite Recipe_compute_cost_per_serving_rows.
  constructor; try reflexivity. simpl. now apply map_on_keys.
Qed.

Lemma compute_unit_cost_pending ids d1 d2 s1 s2 env :
  pending (ids ++ d1) (ids ++ d2) s1 s2 env ->
  pending d1 (ids ++ d2) s1 s2 (RecipeIngredient._compute_unit_cost ids env).
Proof.
  intros [A B C D]. rewrite RecipeIngredient_compute_unit_cost_rows.
  constructor.
  - intros i Hi Hm. simpl in Hi. on_row Hi.
    + reflexivity.
    + apply A; [assumption | apply mem_app_false; auto].
  - intros i Hi Hm. simpl in Hi. apply mem_app_false in Hm. destruct Hm as [Hm1 Hm2].
    on_row Hi.
    + simpl in Hm1. congruence.
    + apply B; [assumption | apply mem_app_false; auto].
  - intros r Hr Hm. simpl in Hr. unfold recipe_totalled.
    rewrite lines_total_pass.
    + now apply C.
    + intros i _. unfold on. now destruct (mem _ ids).
    + intros i _ _. unfold on. now destruct (mem _ ids).
  - exact D.
Qed.

Lemma line_compute_total_cost_pending ids d1 d2 s1 s2 env :
  pending d1 (ids ++ d2) (ORM.recipes_of ids env ++ s1) s2 env ->
  pending d1 d2 (ORM.recipes_of ids env ++ s1) s2
          (RecipeIngredient._compute_total_cost ids env).
Proof.
  intros [A B C D]. rewrite RecipeIngredient_compute_total_cost_rows.
  constructor.
  - intros i Hi Hm. simpl in Hi. on_row Hi.
    + apply (A y Hy Hm).
    + now apply A.
  - intros i Hi Hm. simpl in Hi. on_row Hi.
    + reflexivity.
    + apply B; [assumption | apply mem_app_false; auto].
  - intros r Hr Hm. simpl in Hr. unfold recipe_totalled.
    rewrite lines_total_pass.
    + now apply C.
    + intros i _. unfold on. now destruct (mem _ ids).
    + intros i Hi E. unfold on.
      destruct (mem (restaurant_recipe_ingredient.id i) ids) eqn:Hi'; [|reflexivity].
      apply (recipes_of_In ids env i Hi) in Hi'.
      apply mem_app_false in Hm. destruct Hm as [Hm _].
      rewrite E in Hi'. congruence.
  - exact D.
Qed.

Lemma compute_total_cost_pending ids d1 d2 s1 s2 env :
  pending d1 d2 (ids ++ s1) (ids ++ s2) env ->
  pending d1 d2 s1 (ids ++ s2) (Recipe._compute_total_cost ids env).
Proof.
  intros [A B C D]. rewrite Recipe_compute_total_cost_rows.
  constructor.
  - exact A.
  - exact B.
  - intros r Hr Hm. simpl in Hr. on_row Hr.
    + reflexivity.
    + apply C; [assumption | apply mem_app_false; auto].
  - intros r Hr Hm. simpl in Hr. apply mem_app_false in Hm. destruct Hm as [Hm1 Hm2].
    on_row Hr.
    + simpl in Hm1. congruence.
    + apply D; [assumption | apply mem_app_false; auto].
Qed.

Lemma compute_cost_per_serving_pending ids d1 d2 s1 s2 env :
  pending d1 d2 s1 (ids ++ s2) env ->
  pending d1 d2 s1 s2 (Recipe._compute_cost_per_serving ids env).
Proof.
  intros [A B C D]. rewrite Recipe_compute_cost_per_serving_rows.
  constructor.
  - exact A.
  - exact B.
  - intros r Hr Hm. simpl in Hr. on_row Hr.
    + apply (C y Hy Hm).
    + now apply C.
  - intros r Hr Hm. simpl in Hr. on_row Hr.
    + reflexivity.
    + apply D; [assumption | apply mem_app_false; auto].
Qed.

(** ** The recomputation chains *)

Lemma modified_ingredient_ids_keys ids env :
  same_keys env (ORM.modified_ingredient_ids ids env).
Proof.
  unfold ORM.modified_ingredient_ids, ORM.modified_recipe_total_cost.
  eapply same_keys_trans; [apply compute_total_cost_keys|].
  apply compute_cost_per_serving_keys.
Qed.

Lemma modified_quantity_or_unit_cost_keys ids env :
  same_keys env (ORM.modified_quantity_or_unit_cost ids env).
Proof.
  unfold ORM.modified_quantity_or_unit_cost.
  eapply same_keys_trans; [apply line_compute_total_cost_keys|].
  apply modified_ingredient_ids_keys.
Qed.

Lemma modified_product_or_price_keys ids env :
  same_keys env (ORM.modified_product_or_price ids env).
Proof.
  unfold ORM.modified_product_or_price.
  eapply same_keys_trans; [apply compute_unit_cost_keys|].
  apply modified_quantity_or_unit_cost_keys.
Qed.

Lemma modified_ingredient_ids_pending ids d1 d2 s1 s2 env :
  pending d1 d2 (ids ++ s1) (ids ++ s2) env ->
  pending d1 d2 s1 s2 (ORM.modified_ingredient_ids ids env).
Proof.
  intro H. unfold ORM.modified_ingredient_ids, ORM.modified_recipe_total_cost.
  now apply compute_cost_per_serving_pending, compute_total_cost_pending.
Qed.

Lemma modified_quantity_or_unit_cost_pending ids d1 d2 s1 s2 env :
  pending d1 (ids ++ d2) (ORM.recipes_of ids env ++ s1) (ORM.recipes_of ids env ++ s2) env ->
  pending d1 d2 s1 s2 (ORM.modified_quantity_or_unit_cost ids env).
Proof.
  intro H. unfold ORM.modified_quantity_or_unit_cost.
  rewrite (recipes_of_keys ids env (RecipeIngredient._compute_total_cost ids env))
    by apply keys_lines, line_compute_total_cost_keys.
  now apply modified_ingredient_ids_pending, line_compute_total_cost_pending.
Qed.

Lemma modified_product_or_price_pending ids d1 d2 s1 s2 env :
  pending (ids ++ d1) (ids ++ d2)
          (ORM.recipes_of ids env ++ s1) (ORM.recipes_of ids env ++ s2) env ->
  pending d1 d2 s1 s2 (ORM.modified_product_or_price ids env).
Proof.
  intro H. unfold ORM.modified_product_or_price.
  apply modified_quantity_or_unit_cost_pending.
  rewrite (recipes_of_keys ids env (RecipeIngredient._compute_unit_cost ids env))
    by apply keys_lines, compute_unit_cost_keys.
  now apply compute_unit_cost_pending.
Qed.

(** ** Results *)

Lemma bind_Ok {A B : Type} (m : result A) (k : A -> result B) b :
  bind m k = Ok b -> exists a, m = Ok a /\ k a = Ok b.
Proof. destruct m as [a|e]; simpl; intro H; [eauto | discriminate]. Qed.

Lemma check_Ok b e u : check b e = Ok u -> b = true.
Proof. destruct b; simpl; [reflexivity | discriminate]. Qed.

Lemma require_Ok {A : Type} (o : option A) a : require o = Ok a -> o = Some a.
Proof. destruct o; simpl; intro H; [now inversion H | discriminate]. Qed.

Lemma Ok_inj {A : Type} (a b : A) : Ok a = Ok b -> a = b.
Proof. intro H. now inversion H. Qed.

Ltac inv_ok H :=
  repeat match type of H with
  | bind _ _ = Ok _ =>
      let a := fresh "a" in
      let Ha := fresh "Ha" in
      apply bind_Ok in H; destruct H as [a [Ha H]];
      first [ apply check_Ok in Ha | apply require_Ok in Ha | idtac ];
      cbv beta zeta in H
  end.

Lemma check_serving_size_rows_Ok rows u :
  Recipe._check_serving_size_rows rows = Ok u ->
  forall r, In r rows -> restaurant_recipe.serving_size r > 0.
Proof.
  induction rows as [|x rows IH]; simpl; intros H r Hr; [contradiction|].
  destruct (restaurant_recipe.serving_size x <=? 0) eqn:E; [discriminate|].
  destruct Hr as [<- | Hr]; [apply Z.leb_gt in E; lia | now apply IH].
Qed.

Lemma check_serving_size_Ok self env u :
  Recipe._check_serving_size self env = Ok u ->
  forall r, In r (recipes env) -> mem (restaurant_recipe.id r) self = true ->
            restaurant_recipe.serving_size r > 0.
Proof.
  unfold Recipe._check_serving_size. intros H r Hr Hm.
  apply (check_serving_size_rows_Ok _ _ H). apply filter_In. auto.
Qed.

Lemma check_serving_size_positive self env :
  serving_sizes_positive env -> Recipe._check_serving_size self env = Ok tt.
Proof.
  unfold Recipe._check_serving_size, serving_sizes_positive. intro H.
  assert (G : forall rows, (forall r, In r rows -> restaurant_recipe.serving_size r > 0) ->
                           Recipe._check_serving_size_rows rows = Ok tt).
  { induction rows as [|x rows IH]; simpl; intro Hp; [reflexivity|].
    assert (restaurant_recipe.serving_size x > 0) as Hx by (apply Hp; now left).
    destruct (restaurant_recipe.serving_size x <=? 0) eqn:E.
    - apply Z.leb_le in E. lia.
    - apply IH. intros; apply Hp; now right. }
  apply G. intros r Hr. apply filter_In in Hr. now apply H.
Qed.

(** ** Looking rows up *)

Lemma has_id_app {A : Type} (key : A -> Z) id t t' :
  has_id key id (t ++ t') = has_id key id t || has_id key id t'.
Proof. unfold has_id. apply existsb_app. Qed.

Lemma find_app_Some {A : Type} (p : A -> bool) l l' x :
  find p l = Some x -> find p (l ++ l') = Some x.
Proof.
  induction l as [|y l IH]; simpl; [discriminate|].
  destruct (p y); auto.
Qed.

Lemma has_id_find {A : Type} (key : A -> Z) id t :
  has_id key id t = true -> exists r, find (fun r => key r =? id) t = Some r.
Proof.
  unfold has_id. induction t as [|x t IH]; simpl; [discriminate|].
  destruct (key x =? id); simpl; eauto.
Qed.

Lemma find_assign_other {A : Type} (key : A -> Z) id k (f : A -> A) t :
  (forall r, key (f r) = key r) -> k <> id ->
  find (fun r => key r =? k) (assign key id f t) = find (fun r => key r =? k) t.
Proof.
  intros Hk Hne. induction t as [|x t IH]; simpl; [reflexivity|].
  destruct (key x =? id) eqn:E.
  - rewrite Hk. apply Z.eqb_eq in E.
    destruct (key x =? k) eqn:E'; [apply Z.eqb_eq in E'; congruence | exact IH].
  - destruct (key x =? k); [reflexivity | exact IH].
Qed.

Lemma has_id_assign {A : Type} (key : A -> Z) id k (f : A -> A) t :
  (forall r, key (f r) = key r) ->
  has_id key k (assign key id f t) = has_id key k t.
Proof. intro H. apply has_id_keys. now apply assign_keys. Qed.

Lemma In_assign {A : Type} (key : A -> Z) id (f : A -> A) t x :
  In x (assign key id f t) ->
  exists y, In y t /\ ((key y = id /\ x = f y) \/ (key y <> id /\ x = y)).
Proof.
  unfold assign. intro H. apply in_map_iff in H. destruct H as [y [E Hy]].
  exists y. split; [assumption|].
  destruct (key y =? id) eqn:K.
  - left. apply Z.eqb_eq in K. auto.
  - right. apply Z.eqb_neq in K. auto.
Qed.

(** ** Every operation keeps the tables sound and settled *)

Lemma create_product_preserves id price env env' :
  sound env -> settled env ->
  ORM.create_product id price env = Ok env' ->
  sound env' /\ settled env'.
Proof.
  intros [S1 S2 S3 S4] [A B C D] H. unfold ORM.create_product in H.
  inv_ok H. inversion H; subst env'; clear H. split.
  - constructor; try assumption.
    intros i Hi. simpl. rewrite has_id_app. rewrite (S4 i Hi). reflexivity.
  - constructor; try assumption.
    intros i Hi Hm. unfold line_synced, RecipeIngredient.product_id_standard_price. simpl.
    destruct (has_id_find _ _ _ (S4 i Hi)) as [p Hp].
    rewrite (find_app_Some _ _ _ _ Hp).
    specialize (A i Hi Hm). unfold line_synced, RecipeIngredient.product_id_standard_price in A.
    now rewrite Hp in A.
Qed.

Lemma write_product_standard_price_preserves id price env env' :
  sound env -> settled env ->
  ORM.write_product_standard_price id price env = Ok env' ->
  sound env' /\ settled env'.
Proof.
  intros Hs [A B C D] H. unfold ORM.write_product_standard_price in H.
  inv_ok H. inversion H; subst env'; clear H.
  set (env1 := with_products _ env).
  set (lines := map restaurant_recipe_ingredient.id _).
  split.
  - apply (sound_same_keys env1); [apply modified_product_or_price_keys|].
    destruct Hs as [S1 S2 S3 S4]. constructor; try assumption.
    intros i Hi. unfold env1. simpl. rewrite has_id_assign by reflexivity. now apply S4.
  - apply settled_pending. apply modified_product_or_price_pending.
    constructor.
    + intros i Hi Hm. apply mem_app_false in Hm. destruct Hm as [Hm _].
      unfold line_synced, RecipeIngredient.product_id_standard_price, env1. simpl.
      rewrite find_assign_other; [now apply A | reflexivity |].
      intro E. assert (In (restaurant_recipe_ingredient.id i) lines) as Hin.
      { unfold lines. apply in_map. apply filter_In. split; [exact Hi | now apply Z.eqb_eq]. }
      apply mem_In in Hin. congruence.
    + intros i Hi Hm. now apply B.
    + intros r Hr Hm. now apply C.
    + intros r Hr Hm. now apply D.
Qed.

Lemma recipe_write_fields vals r :
  restaurant_recipe.id (RecipeVals.write vals r) = restaurant_recipe.id r
  /\ restaurant_recipe.total_cost (RecipeVals.write vals r) = restaurant_recipe.total_cost r
  /\ restaurant_recipe.cost_per_serving (RecipeVals.write vals r)
     = restaurant_recipe.cost_per_serving r
  /\ restaurant_recipe.serving_size (RecipeVals.write vals r)
     = default (restaurant_recipe.serving_size r) (RecipeVals.serving_size vals)
  /\ restaurant_recipe.prep_time (RecipeVals.write vals r)
     = default (restaurant_recipe.prep_time r) (RecipeVals.prep_time vals).
Proof.
  destruct vals as [[?|] [?|] [?|] [?|] [?|] [?|]]; repeat split; reflexivity.
Qed.

Lemma create_recipe_preserves vals env env' :
  sound env -> settled env ->
  ORM.create_recipe vals env = Ok env' ->
  sound env' /\ settled env'.
Proof.
  intros [S1 S2 S3 S4] [A B C D] H. unfold ORM.create_recipe in H.
  inv_ok H. inversion H; subst env'; clear H.
  match goal with |- sound (ORM.modified_ingredient_ids _ ?e) /\ _ => set (env1 := e) in * end.
  split.
  - apply (sound_same_keys env1); [apply modified_ingredient_ids_keys|].
    constructor.
    + intros r Hr. unfold env1 in Hr. simpl in Hr. apply in_app_or in Hr.
      destruct Hr as [Hr | [<- | []]]; [now apply S1|].
      apply (check_serving_size_Ok _ _ _ Ha0).
      * unfold env1. simpl. apply in_or_app. right. now left.
      * apply mem_In. now left.
    + intros i Hi. unfold env1. simpl. rewrite has_id_app. now rewrite (S2 i Hi).
    + intros i Hi. unfold env1. simpl. rewrite has_id_app. now rewrite (S3 i Hi).
    + exact S4.
  - apply settled_pending. apply modified_ingredient_ids_pending.
    constructor.
    + intros i Hi Hm. now apply A.
    + intros i Hi Hm. now apply B.
    + intros r Hr Hm. unfold env1 in Hr. simpl in Hr. apply in_app_or in Hr.
      destruct Hr as [Hr | [<- | []]]; [now apply C|].
      apply mem_app_false in Hm. destruct Hm as [Hm _].
      rewrite mem_single in Hm. simpl in Hm. rewrite Z.eqb_refl in Hm. discriminate.
    + intros r Hr Hm. unfold env1 in Hr. simpl in Hr. apply in_app_or in Hr.
      destruct Hr as [Hr | [<- | []]]; [now apply D|].
      apply mem_app_false in Hm. destruct Hm as [Hm _].
      rewrite mem_single in Hm. simpl in Hm. rewrite Z.eqb_refl in Hm. discriminate.
Qed.

Lemma write_recipe_preserves id vals env env' :
  sound env -> settled env ->
  ORM.write_recipe id vals env = Ok env' ->
  sound env' /\ settled env'.
Proof.
  intros [S1 S2 S3 S4] [A B C D] H. unfold ORM.write_recipe in H.
  inv_ok H.
  set (env1 := with_recipes _ env) in *.
  assert (K : map restaurant_recipe.id (recipes env1) = map restaurant_recipe.id (recipes env)).
  { unfold env1. simpl. apply assign_keys. intro r. apply recipe_write_fields. }
  assert (T : totalled_outside [] env1).
  { intros r Hr _. unfold env1 in Hr. simpl in Hr. apply In_assign in Hr.
    destruct Hr as [y [Hy [[E ->] | [E ->]]]]; [|now apply C].
    unfold recipe_totalled.
    destruct (recipe_write_fields vals y) as [-> [-> _]]. now apply C. }
  destruct (RecipeVals.serving_size vals) as [v|] eqn:V; unfold given in H.
  - inv_ok H. apply Ok_inj in H. subst env'. split.
    + apply (sound_same_keys env1); [apply compute_cost_per_serving_keys|].
      constructor.
      * intros r Hr. pose proof Hr as Hr'. unfold env1 in Hr. simpl in Hr.
        apply In_assign in Hr. destruct Hr as [y [Hy [[E ->] | [E ->]]]]; [|now apply S1].
        apply (check_serving_size_Ok _ _ _ Ha0 _ Hr').
        apply mem_In. left. symmetry. rewrite <- E. apply recipe_write_fields.
      * intros i Hi. rewrite (has_id_keys _ restaurant_recipe.id _ _ _ K). now apply S2.
      * intros i Hi. rewrite (has_id_keys _ restaurant_recipe.id _ _ _ K). now apply S3.
      * exact S4.
    + apply settled_pending. apply compute_cost_per_serving_pending.
      constructor; try assumption.
      intros r Hr Hm. apply mem_app_false in Hm. destruct Hm as [Hm _].
      unfold env1 in Hr. simpl in Hr. apply In_assign in Hr.
      destruct Hr as [y [Hy [[E ->] | [E ->]]]]; [|now apply D].
      destruct (recipe_write_fields vals y) as [Ei _]. rewrite Ei, E in Hm.
      rewrite mem_single, Z.eqb_refl in Hm. discriminate.
  - apply Ok_inj in H. subst env'. split.
    + constructor.
      * intros r Hr. unfold env1 in Hr. simpl in Hr.
        apply In_assign in Hr. destruct Hr as [y [Hy [[E ->] | [E ->]]]]; [|now apply S1].
        destruct (recipe_write_fields vals y) as [_ [_ [_ [-> _]]]].
        rewrite V. simpl. now apply S1.
      * intros i Hi. rewrite (has_id_keys _ restaurant_recipe.id _ _ _ K). now apply S2.
      * intros i Hi. rewrite (has_id_keys _ restaurant_recipe.id _ _ _ K). now apply S3.
      * exact S4.
    + constructor; try assumption.
      intros r Hr _. unfold env1 in Hr. simpl in Hr. apply In_assign in Hr.
      destruct Hr as [y [Hy [[E ->] | [E ->]]]]; [|now apply D].
      unfold recipe_per_serving, per_serving.
      destruct (recipe_write_fields vals y) as [_ [-> [-> [-> _]]]].
      rewrite V. simpl. now apply D.
Qed.

Lemma unlink_recipe_preserves id env env' :
  sound env -> settled env ->
  ORM.unlink_recipe id env = Ok env' ->
  sound env' /\ settled env'.
Proof.
  intros [S1 S2 S3 S4] [A B C D] H. unfold ORM.unlink_recipe in H.
  inversion H; subst env'; clear H.
  assert (O : forall k, k <> id ->
                has_id restaurant_recipe.id k (recipes env) = true ->
                has_id restaurant_recipe.id k
                  (filter (fun r => negb (restaurant_recipe.id r =? id)) (recipes env)) = true).
  { intros k Hk Hh. apply has_id_In in Hh. destruct Hh as [r [Hr E]].
    apply has_id_In. exists r. split; [|assumption].
    apply filter_In. split; [assumption|].
    apply negb_true_iff. apply Z.eqb_neq. congruence. }
  split.
  - constructor; simpl.
    + intros r Hr. apply filter_In in Hr. now apply S1.
    + intros i Hi. apply filter_In in Hi. destruct Hi as [Hi Hn].
      apply negb_true_iff, Z.eqb_neq in Hn. apply O; auto.
    + intros s Hs. apply filter_In in Hs. destruct Hs as [Hs Hn].
      apply negb_true_iff, Z.eqb_neq in Hn. apply O; auto.
    + intros i Hi. apply filter_In in Hi. now apply S4.
  - constructor.
    + intros i Hi Hm. simpl in Hi. apply filter_In in Hi. now apply A.
    + intros i Hi Hm. simpl in Hi. apply filter_In in Hi. now apply B.
    + intros r Hr Hm. simpl in Hr. apply filter_In in Hr. destruct Hr as [Hr Hn].
      apply negb_true_iff, Z.eqb_neq in Hn.
      unfold recipe_totalled.
      change (restaurant_recipe.total_cost r
              = lines_total
                  (with_ingredients
                     (filter (fun i => negb (restaurant_recipe_ingredient.recipe_id i =? id)))
                     env)
                  (restaurant_recipe.id r)).
      rewrite lines_total_filter; [now apply C|].
      intros i Hi E. apply negb_true_iff, Z.eqb_neq. congruence.
    + intros r Hr Hm. simpl in Hr. apply filter_In in Hr. now apply D.
Qed.

Lemma line_write_fields vals r :
  restaurant_recipe_ingredient.id (IngredientVals.write vals r)
  = restaurant_recipe_ingredient.id r
  /\ restaurant_recipe_ingredient.unit_cost (IngredientVals.write vals r)
     = restaurant_recipe_ingredient.unit_cost r
  /\ restaurant_recipe_ingredient.total_cost (IngredientVals.write vals r)
     = restaurant_recipe_ingredient.total_cost r
  /\ restaurant_recipe_ingredient.recipe_id (IngredientVals.write vals r)
     = default (restaurant_recipe_ingredient.recipe_id r) (IngredientVals.recipe_id vals)
  /\ restaurant_recipe_ingredient.product_id (IngredientVals.write vals r)
     = default (restaurant_recipe_ingredient.product_id r) (IngredientVals.product_id vals)
  /\ restaurant_recipe_ingredient.quantity (IngredientVals.write vals r)
     = default (restaurant_recipe_ingredient.quantity r) (IngredientVals.quantity vals).
Proof.
  destruct vals as [[?|] [?|] [?|] [?|]]; repeat split; reflexivity.
Qed.

Ltac solve_covers :=
  unfold covers; intro; rewrite ?mem_app, ?orb_false_iff; cbn [mem existsb];
  intuition auto.

Lemma lines_total_app env line k :
  restaurant_recipe_ingredient.recipe_id line <> k ->
  lines_total (with_ingredients (fun t => t ++ [line]) env) k = lines_total env k.
Proof.
  intro H. unfold lines_total, Recipe.ingredient_ids. simpl.
  rewrite filter_app. simpl.
  apply Z.eqb_neq in H. rewrite H. now rewrite app_nil_r.
Qed.

Lemma create_ingredient_preserves vals env env' :
  sound env -> settled env ->
  ORM.create_ingredient vals env = Ok env' ->
  sound env' /\ settled env'.
Proof.
  intros [S1 S2 S3 S4] [A B C D] H. unfold ORM.create_ingredient in H.
  inv_ok H. apply Ok_inj in H. subst env'.
  match goal with |- sound (ORM.modified_product_or_price _ ?e) /\ _ => set (env1 := e) in * end.
  rename a into recipe, a0 into product, a1 into uom.
  set (line := restaurant_recipe_ingredient.mk (ingredient_seq env) recipe product
                 (default restaurant_recipe_ingredient.default_quantity
                          (IngredientVals.quantity vals)) uom 0%float 0%float) in *.
  assert (In line (ingredients env1)) as Hline.
  { unfold env1. simpl. apply in_or_app. right. now left. }
  split.
  - apply (sound_same_keys env1); [apply modified_product_or_price_keys|].
    constructor; try assumption.
    + intros i Hi. unfold env1 in Hi. simpl in Hi. apply in_app_or in Hi.
      destruct Hi as [Hi | [<- | []]]; [now apply S2 | exact Ha2].
    + intros i Hi. unfold env1 in Hi. simpl in Hi. apply in_app_or in Hi.
      destruct Hi as [Hi | [<- | []]]; [now apply S4 | exact Ha3].
  - apply settled_pending. apply modified_product_or_price_pending.
    constructor.
    + intros i Hi Hm. apply mem_app_false in Hm. destruct Hm as [Hm _].
      unfold env1 in Hi. simpl in Hi. apply in_app_or in Hi.
      destruct Hi as [Hi | [<- | []]]; [now apply A|].
      rewrite mem_single in Hm. simpl in Hm. rewrite Z.eqb_refl in Hm. discriminate.
    + intros i Hi Hm. apply mem_app_false in Hm. destruct Hm as [Hm _].
      unfold env1 in Hi. simpl in Hi. apply in_app_or in Hi.
      destruct Hi as [Hi | [<- | []]]; [now apply B|].
      rewrite mem_single in Hm. simpl in Hm. rewrite Z.eqb_refl in Hm. discriminate.
    + intros r Hr Hm. apply mem_app_false in Hm. destruct Hm as [Hm _].
      unfold recipe_totalled.
      change (lines_total env1 (restaurant_recipe.id r))
        with (lines_total (with_ingredients (fun t => t ++ [line]) env) (restaurant_recipe.id r)).
      rewrite lines_total_app; [now apply C|].
      intro E.
      assert (mem (restaurant_recipe_ingredient.recipe_id line)
                  (ORM.recipes_of [ingredient_seq env] env1) = true) as Hin.
      { apply recipes_of_In; [assumption|]. apply mem_In. now left. }
      rewrite E in Hin. congruence.
    + intros r Hr Hm. now apply D.
Qed.

Lemma unlink_ingredient_preserves id env env' :
  sound env -> settled env ->
  ORM.unlink_ingredient id env = Ok env' ->
  sound env' /\ settled env'.
Proof.
  intros [S1 S2 S3 S4] [A B C D] H. unfold ORM.unlink_ingredient in H.
  apply Ok_inj in H. subst env'.
  set (env1 := with_ingredients _ env).
  split.
  - apply (sound_same_keys env1); [apply modified_ingredient_ids_keys|].
    constructor; try assumption.
    + intros i Hi. unfold env1 in Hi. simpl in Hi. apply filter_In in Hi. now apply S2.
    + intros i Hi. unfold env1 in Hi. simpl in Hi. apply filter_In in Hi. now apply S4.
  - apply settled_pending. apply modified_ingredient_ids_pending.
    constructor.
    + intros i Hi Hm. unfold env1 in Hi. simpl in Hi. apply filter_In in Hi. now apply A.
    + intros i Hi Hm. unfold env1 in Hi. simpl in Hi. apply filter_In in Hi. now apply B.
    + intros r Hr Hm. apply mem_app_false in Hm. destruct Hm as [Hm _].
      unfold recipe_totalled, env1.
      rewrite lines_total_filter; [now apply C|].
      intros i Hi E. apply negb_true_iff. apply Z.eqb_neq. intro Eid.
      assert (mem (restaurant_recipe_ingredient.recipe_id i) (ORM.recipes_of [id] env) = true)
        as Hin.
      { apply recipes_of_In; [assumption|]. apply mem_In. now left. }
      rewrite E in Hin. congruence.
    + intros r Hr Hm. now apply D.
Qed.

(** The state of [write] on a line once the values are stored and before
    anything is recomputed. *)
Lemma write_ingredient_stored id vals env :
  sound env -> settled env ->
  match IngredientVals.recipe_id vals with
  | Some recipe => has_id restaurant_recipe.id recipe (recipes env)
  | None => true
  end = true ->
  match IngredientVals.product_id vals with
  | Some product => has_id product_product.id product (products env)
  | None => true
  end = true ->
  let env1 :=
    with_ingredients
      (assign restaurant_recipe_ingredient.id id (IngredientVals.write vals)) env in
  sound env1
  /\ pending (if given (IngredientVals.product_id vals) then [id] else [])
             (if given (IngredientVals.quantity vals) then [id] else [])
             (if given (IngredientVals.recipe_id vals)
              then ORM.recipes_of [id] env ++ ORM.recipes_of [id] env1
              else [])
             [] env1.
Proof.
  intros [S1 S2 S3 S4] [A B C D] Hrecipe Hproduct env1.
  split; [constructor; try assumption | constructor].
  - intros i Hi. unfold env1 in Hi. simpl in Hi. apply In_assign in Hi.
    destruct Hi as [y [Hy [[E ->] | [E ->]]]]; [|now apply S2].
    destruct (line_write_fields vals y) as [_ [_ [_ [-> _]]]].
    destruct (IngredientVals.recipe_id vals); simpl; [exact Hrecipe | now apply S2].
  - intros i Hi. unfold env1 in Hi. simpl in Hi. apply In_assign in Hi.
    destruct Hi as [y [Hy [[E ->] | [E ->]]]]; [|now apply S4].
    destruct (line_write_fields vals y) as [_ [_ [_ [_ [-> _]]]]].
    destruct (IngredientVals.product_id vals); simpl; [exact Hproduct | now apply S4].
  - intros i Hi Hm. unfold env1 in Hi. simpl in Hi. apply In_assign in Hi.
    destruct Hi as [y [Hy [[E ->] | [E ->]]]]; [|now apply A].
    destruct (line_write_fields vals y) as [Ei [Eu [_ [_ [Ep _]]]]].
    destruct (IngredientVals.product_id vals); cbn [given default] in *.
    + rewrite mem_single, Ei, E, Z.eqb_refl in Hm. discriminate.
    + unfold line_synced, RecipeIngredient.product_id_standard_price.
      rewrite Eu, Ep. now apply A.
  - intros i Hi Hm. unfold env1 in Hi. simpl in Hi. apply In_assign in Hi.
    destruct Hi as [y [Hy [[E ->] | [E ->]]]]; [|now apply B].
    destruct (line_write_fields vals y) as [Ei [Eu [Et [_ [_ Eq]]]]].
    destruct (IngredientVals.quantity vals); cbn [given default] in *.
    + rewrite mem_single, Ei, E, Z.eqb_refl in Hm. discriminate.
    + unfold line_costed. rewrite Eu, Et, Eq. now apply B.
  - intros r Hr Hm. unfold recipe_totalled.
    replace (lines_total env1 (restaurant_recipe.id r))
      with (lines_total env (restaurant_recipe.id r)); [now apply C|].
    symmetry. unfold env1, assign. apply lines_total_pass.
    + intros i Hi.
      destruct (restaurant_recipe_ingredient.id i =? id) eqn:E; [|reflexivity].
      destruct (line_write_fields vals i) as [Ei [_ [_ [Er _]]]].
      destruct (IngredientVals.recipe_id vals) as [recipe|]; cbn [given default] in *;
        [|now rewrite Er].
      apply mem_app_false in Hm. destruct Hm as [Hbefore Hafter].
      assert (mem (restaurant_recipe_ingredient.recipe_id i) (ORM.recipes_of [id] env) = true)
        as H1.
      { apply recipes_of_In; [assumption|]. now rewrite mem_single. }
      assert (mem (restaurant_recipe_ingredient.recipe_id (IngredientVals.write vals i))
                  (ORM.recipes_of [id] env1) = true) as H2.
      { apply recipes_of_In.
        - unfold env1, assign. simpl. apply in_map_iff. exists i. now rewrite E.
        - now rewrite mem_single, Ei. }
      destruct (restaurant_recipe_ingredient.recipe_id (IngredientVals.write vals i)
                =? restaurant_recipe.id r) eqn:E2;
        [apply Z.eqb_eq in E2; rewrite E2 in H2; congruence|].
      destruct (restaurant_recipe_ingredient.recipe_id i =? restaurant_recipe.id r) eqn:E1;
        [apply Z.eqb_eq in E1; rewrite E1 in H1; congruence|].
      reflexivity.
    + intros i Hi _.
      destruct (restaurant_recipe_ingredient.id i =? id); [|reflexivity].
      apply line_write_fields.
  - intros r Hr Hm. now apply D.
Qed.

Lemma write_ingredient_preserves id vals env env' :
  sound env -> settled env ->
  ORM.write_ingredient id vals env = Ok env' ->
  sound env' /\ settled env'.
Proof.
  intros Hs Ht H. unfold ORM.write_ingredient in H.
  apply bind_Ok in H. destruct H as [? [_ H]].
  apply bind_Ok in H. destruct H as [? [Hrecipe H]]. apply check_Ok in Hrecipe.
  apply bind_Ok in H. destruct H as [? [Hproduct H]]. apply check_Ok in Hproduct.
  cbv beta zeta in H. apply Ok_inj in H. subst env'.
  destruct (write_ingredient_stored id vals env Hs Ht Hrecipe Hproduct) as [Hs1 Hp1].
  cbv zeta in Hs1, Hp1.
  set (env1 := with_ingredients _ env) in *.
  destruct (IngredientVals.product_id vals) as [product|];
    destruct (IngredientVals.quantity vals) as [quantity|];
    destruct (IngredientVals.recipe_id vals) as [recipe|];
    cbn [given] in *.
  1, 3: split;
    [ apply (sound_same_keys env1); [|assumption];
      eapply same_keys_trans;
        [apply modified_product_or_price_keys | apply modified_ingredient_ids_keys]
    | apply settled_pending;
      apply modified_ingredient_ids_pending, modified_product_or_price_pending;
      revert Hp1; apply pending_covers; solve_covers ].
  1, 2: split;
    [ apply (sound_same_keys env1); [apply modified_product_or_price_keys | assumption]
    | apply settled_pending; apply modified_product_or_price_pending;
      revert Hp1; apply pending_covers; solve_covers ].
  - split.
    + apply (sound_same_keys env1); [|assumption].
      eapply same_keys_trans;
        [apply modified_quantity_or_unit_cost_keys | apply modified_ingredient_ids_keys].
    + apply settled_pending.
      apply modified_ingredient_ids_pending, modified_quantity_or_unit_cost_pending.
      revert Hp1. apply pending_covers; solve_covers.
  - split.
    + apply (sound_same_keys env1); [apply modified_quantity_or_unit_cost_keys | assumption].
    + apply settled_pending. apply modified_quantity_or_unit_cost_pending.
      revert Hp1. apply pending_covers; solve_covers.
  - split.
    + apply (sound_same_keys env1); [apply modified_ingredient_ids_keys | assumption].
    + apply settled_pending. apply modified_ingredient_ids_pending.
      revert Hp1. apply pending_covers; solve_covers.
  - split; [assumption | now apply settled_pending].
Qed.

Lemma step_write_fields vals r :
  restaurant_recipe_instruction.id (InstructionVals.write vals r)
  = restaurant_recipe_instruction.id r
  /\ restaurant_recipe_instruction.recipe_id (InstructionVals.write vals r)
     = default (restaurant_recipe_instruction.recipe_id r) (InstructionVals.recipe_id vals)
  /\ restaurant_recipe_instruction.sequence (InstructionVals.write vals r)
     = default (restaurant_recipe_instruction.sequence r) (InstructionVals.sequence vals).
Proof.
  destruct vals as [[?|] [?|] [?|]]; repeat split; reflexivity.
Qed.

Lemma create_instruction_preserves vals env env' :
  sound env -> settled env ->
  ORM.create_instruction vals env = Ok env' ->
  sound env' /\ settled env'.
Proof.
  intros [S1 S2 S3 S4] [A B C D] H. unfold ORM.create_instruction in H.
  inv_ok H. apply Ok_inj in H. subst env'. split.
  - constructor; try assumption.
    intros s Hs. simpl in Hs. apply in_app_or in Hs.
    destruct Hs as [Hs | [<- | []]]; [now apply S3 | exact Ha1].
  - constructor; assumption.
Qed.

Lemma write_instruction_preserves id vals env env' :
  sound env -> settled env ->
  ORM.write_instruction id vals env = Ok env' ->
  sound env' /\ settled env'.
Proof.
  intros [S1 S2 S3 S4] [A B C D] H. unfold ORM.write_instruction in H.
  inv_ok H. apply Ok_inj in H. subst env'. split.
  - constructor; try assumption.
    intros s Hs. simpl in Hs. apply In_assign in Hs.
    destruct Hs as [y [Hy [[E ->] | [E ->]]]]; [|now apply S3].
    destruct (step_write_fields vals y) as [_ [-> _]].
    destruct (InstructionVals.recipe_id vals); simpl; [exact Ha0 | now apply S3].
  - constructor; assumption.
Qed.

Lemma unlink_instruction_preserves id env env' :
  sound env -> settled env ->
  ORM.unlink_instruction id env = Ok env' ->
  sound env' /\ settled env'.
Proof.
  intros [S1 S2 S3 S4] [A B C D] H. unfold ORM.unlink_instruction in H.
  apply Ok_inj in H. subst env'. split.
  - constructor; try assumption.
    intros s Hs. simpl in Hs. apply filter_In in Hs. now apply S3.
  - constructor; assumption.
Qed.

Lemma execute_preserves c env env' :
  sound env -> settled env -> execute c env = Ok env' -> sound env' /\ settled env'.
Proof.
  intros Hs Ht. destruct c; simpl.
  - now apply create_product_preserves.
  - now apply write_product_standard_price_preserves.
  - now apply create_recipe_preserves.
  - now apply write_recipe_preserves.
  - now apply unlink_recipe_preserves.
  - now apply create_ingredient_preserves.
  - now apply write_ingredient_preserves.
  - now apply unlink_ingredient_preserves.
  - now apply create_instruction_preserves.
  - now apply write_instruction_preserves.
  - now apply unlink_instruction_preserves.
Qed.

Lemma transaction_preserves c env :
  sound env /\ settled env -> sound (transaction c env) /\ settled (transaction c env).
Proof.
  intros [Hs Ht]. unfold transaction.
  destruct (execute c env) as [env'|e] eqn:E.
  - now apply (execute_preserves c env env').
  - now split.
Qed.

Lemma empty_env_sound_settled : sound empty_env /\ settled empty_env.
Proof. split; constructor; intros x []. Qed.

(** In every state the operations lead to, the tables are sound and every
    stored computed field is up to date. *)
Lemma reachable_sound_settled env : reachable env -> sound env /\ settled env.
Proof.
  induction 1 as [|env c _ IH].
  - apply empty_env_sound_settled.
  - now apply transaction_preserves.
Qed.

Lemma run_reachable cs env : reachable env -> reachable (run cs env).
Proof.
  revert env. induction cs as [|c cs IH]; intros env H; simpl.
  - exact H.
  - apply IH. now constructor.
Qed.

(** ** Ids *)

Lemma fresh_ids_keys {A : Type} (key : A -> Z) seq t t' :
  map key t' = map key t -> fresh_ids key seq t -> fresh_ids key seq t'.
Proof.
  intros E [N F]. split; [now rewrite E|].
  intros r Hr. destruct (map_keys_In key t t' r E Hr) as [y [Hy <-]]. now apply F.
Qed.

Lemma StronglySorted_snoc (l : list Z) x :
  StronglySorted Z.lt l -> Forall (fun y => y < x) l -> StronglySorted Z.lt (l ++ [x]).
Proof.
  induction 1 as [|a l Hs IH Ha]; intro Hx; simpl.
  - constructor; constructor.
  - inversion Hx; subst. constructor; [now apply IH|].
    apply Forall_app. split; [assumption | now constructor].
Qed.

Lemma fresh_ids_app {A : Type} (key : A -> Z) seq t x :
  key x = seq -> fresh_ids key seq t -> fresh_ids key (seq + 1) (t ++ [x]).
Proof.
  intros E [N F]. split.
  - rewrite map_app. simpl. apply StronglySorted_snoc; [exact N|].
    apply Forall_forall. intros k Hk. apply in_map_iff in Hk.
    destruct Hk as [y [<- Hy]]. specialize (F y Hy). lia.
  - intros r Hr. apply in_app_or in Hr. destruct Hr as [Hr | [<- | []]].
    + specialize (F r Hr). lia.
    + lia.
Qed.

Lemma StronglySorted_map_filter {A : Type} (k : A -> Z) (p : A -> bool) l :
  StronglySorted Z.lt (map k l) -> StronglySorted Z.lt (map k (filter p l)).
Proof.
  induction l as [|x l IH]; simpl; intro H; [constructor|].
  apply StronglySorted_inv in H. destruct H as [Hs Hx].
  destruct (p x); simpl; [|now apply IH].
  constructor; [now apply IH|].
  apply Forall_forall. intros y Hy. rewrite Forall_forall in Hx. apply Hx.
  apply in_map_iff in Hy. destruct Hy as [z [<- Hz]].
  apply in_map. apply filter_In in Hz. tauto.
Qed.

Lemma fresh_ids_filter {A : Type} (key : A -> Z) seq (p : A -> bool) t :
  fresh_ids key seq t -> fresh_ids key seq (filter p t).
Proof.
  intros [N F]. split; [now apply StronglySorted_map_filter|].
  intros r Hr. apply filter_In in Hr. now apply F.
Qed.

Lemma line_ids_of_keys (t t' : list restaurant_recipe_ingredient.row) :
  map line_keys t' = map line_keys t ->
  map restaurant_recipe_ingredient.id t' = map restaurant_recipe_ingredient.id t.
Proof.
  intro E.
  change restaurant_recipe_ingredient.id with (fun r => fst (fst (line_keys r))).
  rewrite <- (map_map line_keys (fun k => fst (fst k)) t'),
          <- (map_map line_keys (fun k => fst (fst k)) t).
  now rewrite E.
Qed.

Lemma keyed_same_keys env env' : same_keys env env' -> keyed env -> keyed env'.
Proof.
  intros [K1 K2 K3 K4 K5 K6 K7] [R L S]. constructor.
  - rewrite K5. apply (fresh_ids_keys _ _ (recipes env)); [|assumption].
    now apply recipe_ids_of_keys.
  - rewrite K6. apply (fresh_ids_keys _ _ (ingredients env)); [|assumption].
    now apply line_ids_of_keys.
  - now rewrite K7, K4.
Qed.

Lemma execute_keyed c env env' : keyed env -> execute c env = Ok env' -> keyed env'.
Proof.
  intros [R L S] H. destruct c; simpl in H.
  - unfold ORM.create_product in H. inv_ok H. apply Ok_inj in H. subst env'.
    constructor; assumption.
  - unfold ORM.write_product_standard_price in H. inv_ok H. apply Ok_inj in H. subst env'.
    eapply keyed_same_keys; [apply modified_product_or_price_keys|].
    constructor; assumption.
  - unfold ORM.create_recipe in H. inv_ok H. apply Ok_inj in H. subst env'.
    eapply keyed_same_keys; [apply modified_ingredient_ids_keys|].
    constructor; try assumption. simpl. now apply fresh_ids_app.
  - unfold ORM.write_recipe in H. inv_ok H.
    assert (keyed (with_recipes
                     (assign restaurant_recipe.id id (RecipeVals.write vals)) env)) as K.
    { constructor; try assumption. simpl.
      apply (fresh_ids_keys _ _ (recipes env)); [|assumption].
      apply assign_keys. intro r. apply recipe_write_fields. }
    destruct (given (RecipeVals.serving_size vals)).
    + inv_ok H. apply Ok_inj in H. subst env'.
      eapply keyed_same_keys; [apply compute_cost_per_serving_keys | exact K].
    + apply Ok_inj in H. now subst env'.
  - unfold ORM.unlink_recipe in H. apply Ok_inj in H. subst env'.
    constructor; simpl; now apply fresh_ids_filter.
  - unfold ORM.create_ingredient in H. inv_ok H. apply Ok_inj in H. subst env'.
    eapply keyed_same_keys; [apply modified_product_or_price_keys|].
    constructor; try assumption. simpl. now apply fresh_ids_app.
  - unfold ORM.write_ingredient in H.
    apply bind_Ok in H. destruct H as [? [_ H]].
    apply bind_Ok in H. destruct H as [? [_ H]].
    apply bind_Ok in H. destruct H as [? [_ H]].
    cbv beta zeta in H. apply Ok_inj in H. subst env'.
    set (env1 := with_ingredients _ env).
    assert (keyed env1) as K.
    { constructor; try assumption. unfold env1. simpl.
      apply (fresh_ids_keys _ _ (ingredients env)); [|assumption].
      apply assign_keys. intro r. apply line_write_fields. }
    assert (forall e, same_keys env1 e -> keyed e) as G
        by (intros e He; now apply (keyed_same_keys env1)).
    destruct (given (IngredientVals.product_id vals));
      [|destruct (given (IngredientVals.quantity vals))];
      destruct (given (IngredientVals.recipe_id vals)); apply G;
      repeat first [ apply same_keys_refl
                   | apply modified_product_or_price_keys
                   | apply modified_quantity_or_unit_cost_keys
                   | apply modified_ingredient_ids_keys
                   | eapply same_keys_trans; [|apply modified_ingredient_ids_keys] ].
  - unfold ORM.unlink_ingredient in H. apply Ok_inj in H. subst env'.
    eapply keyed_same_keys; [apply modified_ingredient_ids_keys|].
    constructor; try assumption. simpl. now apply fresh_ids_filter.
  - unfold ORM.create_instruction in H. inv_ok H. apply Ok_inj in H. subst env'.
    constructor; try assumption. simpl. now apply fresh_ids_app.
  - unfold ORM.write_instruction in H. inv_ok H. apply Ok_inj in H. subst env'.
    constructor; try assumption. simpl.
    apply (fresh_ids_keys _ _ (instructions env)); [|assumption].
    apply assign_keys. intro r. apply step_write_fields.
  - unfold ORM.unlink_instruction in H. apply Ok_inj in H. subst env'.
    constructor; try assumption. simpl. now apply fresh_ids_filter.
Qed.

Lemma reachable_keyed env : reachable env -> keyed env.
Proof.
  induction 1 as [|env c _ IH].
  - constructor; (split; [constructor | intros r []]).
  - unfold transaction. destruct (execute c env) as [env'|e] eqn:E.
    + now apply (execute_keyed c env env').
    + exact IH.
Qed.

(** ** The first scenario of the specification *)

Lemma kitchen_reachable : reachable kitchen.
Proof. apply run_reachable. constructor. Qed.

Example kitchen_recipes : recipes kitchen = [nigiri].
Proof. vm_compute. reflexivity. Qed.

Example kitchen_ingredients : ingredients kitchen = [salmon; rice].
Proof. vm_compute. reflexivity. Qed.

Example kitchen_instructions :
  map restaurant_recipe_instruction.instruction (Recipe.instruction_ids kitchen 1)
  = ["Cook the rice"%string; "Slice the salmon"%string].
Proof. vm_compute. reflexivity. Qed.

(** Scenario 3: the quantity of salmon goes from 0.2 to 0.4. *)
#[warnings="-inexact-float"]
Example kitchen_more_salmon :
  map (fun r => (restaurant_recipe.total_cost r, restaurant_recipe.cost_per_serving r))
      (recipes (transaction
                  (WriteIngredient 1 (IngredientVals.mk None None (Some 0.4%float) None))
                  kitchen))
  = [((8 + 1.2)%float, ((8 + 1.2) / 2)%float)].
Proof. vm_compute. reflexivity. Qed.

(** * The properties of the specification *)

Lemma check_serving_size_rows_Raise rows r :
  In r rows -> restaurant_recipe.serving_size r <= 0 ->
  Recipe._check_serving_size_rows rows
  = Raise (ValidationError "Serving size must be greater than 0").
Proof.
  induction rows as [|x rows IH]; simpl; intros Hr Hle; [contradiction|].
  destruct (restaurant_recipe.serving_size x <=? 0) eqn:E; [reflexivity|].
  destruct Hr as [-> | Hr]; [|now apply IH].
  apply Z.leb_gt in E. lia.
Qed.

Lemma check_serving_size_rows_Raise_inv rows e :
  Recipe._check_serving_size_rows rows = Raise e ->
  e = ValidationError "Serving size must be greater than 0"
  /\ exists r, In r rows /\ restaurant_recipe.serving_size r <= 0.
Proof.
  induction rows as [|x rows IH]; simpl; [discriminate|].
  destruct (restaurant_recipe.serving_size x <=? 0) eqn:E.
  - intro H. inversion H. split; [reflexivity|].
    exists x. split; [now left | now apply Z.leb_le].
  - intro H. destruct (IH H) as [-> [r [Hr Hle]]].
    split; [reflexivity|]. exists r. split; [now right | exact Hle].
Qed.

Lemma check_serving_size_passes self env :
  (forall r, In r (recipes env) -> mem (restaurant_recipe.id r) self = true ->
             restaurant_recipe.serving_size r > 0) ->
  Recipe._check_serving_size self env = Ok tt.
Proof.
  intro H. unfold Recipe._check_serving_size.
  destruct (Recipe._check_serving_size_rows _) as [[]|e] eqn:E; [reflexivity|].
  destruct (check_serving_size_rows_Raise_inv _ _ E) as [_ [r [Hr Hle]]].
  apply filter_In in Hr. destruct Hr as [Hr Hm]. specialize (H r Hr Hm). lia.
Qed.

(** C1.  A write on an existing recipe that sets [serving_size] to a value
    [<= 0] raises the validation error of [_check_serving_size], and the
    state after the failed operation is the state before it: the stored
    [serving_size] and the derived fields are unchanged.  The same holds
    when the value comes with the creation of a recipe. *)
Theorem nonpositive_serving_size_rejected env id vals v :
  has_id restaurant_recipe.id id (recipes env) = true ->
  RecipeVals.serving_size vals = Some v ->
  v <= 0 ->
  (execute (WriteRecipe id vals) env
   = Raise (ValidationError "Serving size must be greater than 0")
   /\ transaction (WriteRecipe id vals) env = env)
  /\ (forall name, RecipeVals.name vals = Some name ->
        execute (CreateRecipe vals) env
        = Raise (ValidationError "Serving size must be greater than 0")
        /\ transaction (CreateRecipe vals) env = env).
Proof.
  intros Hid V Hv.
  assert (W : execute (WriteRecipe id vals) env
              = Raise (ValidationError "Serving size must be greater than 0")).
  { simpl. unfold ORM.write_recipe. rewrite Hid, V. cbn [check bind given].
    unfold Recipe._check_serving_size.
    apply has_id_In in Hid. destruct Hid as [r [Hr E]].
    rewrite (check_serving_size_rows_Raise _ (RecipeVals.write vals r)); [reflexivity | |].
    - apply filter_In. split.
      + simpl. unfold assign. apply in_map_iff. exists r.
        apply Z.eqb_eq in E. now rewrite E.
      + apply mem_In. left. symmetry. rewrite <- E. apply recipe_write_fields.
    - destruct (recipe_write_fields vals r) as [_ [_ [_ [-> _]]]].
      now rewrite V. }
  split; [split; [exact W | unfold transaction; now rewrite W]|].
  intros name N.
  assert (C : execute (CreateRecipe vals) env
              = Raise (ValidationError "Serving size must be greater than 0")).
  { simpl. unfold ORM.create_recipe. rewrite N, V. cbn [require bind default].
    unfold Recipe._check_serving_size.
    match goal with
    | |- context [restaurant_recipe.mk ?a ?b ?c ?d ?e ?f ?g ?h ?i] =>
        rewrite (check_serving_size_rows_Raise _ (restaurant_recipe.mk a b c d e f g h i))
    end; [reflexivity | | exact Hv].
    apply filter_In. split.
    - simpl. apply in_or_app. right. now left.
    - apply mem_In. now left. }
  split; [exact C | unfold transaction; now rewrite C].
Qed.

(** On the recipe of the first scenario a write of [serving_size = 0] is
    refused (scenario 2 of the specification). *)
Lemma nonpositive_serving_size_rejected_witness :
  (execute (WriteRecipe 1 no_servings) kitchen
   = Raise (ValidationError "Serving size must be greater than 0")
   /\ transaction (WriteRecipe 1 no_servings) kitchen = kitchen)
  /\ (forall name,
        RecipeVals.name no_servings = Some name ->
        execute (CreateRecipe no_servings) kitchen
        = Raise (ValidationError "Serving size must be greater than 0")
        /\ transaction (CreateRecipe no_servings) kitchen = kitchen).
Proof.
  apply (nonpositive_serving_size_rejected kitchen 1 no_servings 0).
  - vm_compute. reflexivity.
  - reflexivity.
  - lia.
Defined.

(** X1 (I1 of the specification).  In every state the operations lead
    to, the [serving_size] of every recipe is positive. *)
Theorem serving_size_always_positive env r :
  reachable env ->
  In r (recipes env) ->
  restaurant_recipe.serving_size r > 0.
Proof.
  intros Hreach Hr.
  destruct (reachable_sound_settled env Hreach) as [[S _ _ _] _].
  now apply S.
Qed.

Lemma serving_size_always_positive_witness :
  restaurant_recipe.serving_size nigiri > 0.
Proof.
  apply (serving_size_always_positive kitchen nigiri).
  - exact kitchen_reachable.
  - rewrite kitchen_recipes. left. reflexivity.
Defined.

(** C2.  In every state the operations lead to, the [total_cost] of a
    recipe is the [sum] of the [total_cost] of its current lines, and [0]
    when it has none. *)
Theorem recipe_total_cost_is_sum env r :
  reachable env ->
  In r (recipes env) ->
  restaurant_recipe.total_cost r
  = sum (map restaurant_recipe_ingredient.total_cost
             (Recipe.ingredient_ids env (restaurant_recipe.id r)))
  /\ (Recipe.ingredient_ids env (restaurant_recipe.id r) = [] ->
      restaurant_recipe.total_cost r = 0%float).
Proof.
  intros Hreach Hr.
  destruct (reachable_sound_settled env Hreach) as [_ [_ _ T _]].
  assert (E := T r Hr eq_refl). unfold recipe_totalled, lines_total in E.
  split; [exact E|].
  intro Hnone. rewrite E, Hnone. reflexivity.
Qed.

Lemma recipe_total_cost_is_sum_witness :
  restaurant_recipe.total_cost nigiri
  = sum (map restaurant_recipe_ingredient.total_cost
             (Recipe.ingredient_ids kitchen (restaurant_recipe.id nigiri)))
  /\ (Recipe.ingredient_ids kitchen (restaurant_recipe.id nigiri) = [] ->
      restaurant_recipe.total_cost nigiri = 0%float).
Proof.
  apply (recipe_total_cost_is_sum kitchen nigiri).
  - exact kitchen_reachable.
  - rewrite kitchen_recipes. left. reflexivity.
Defined.

(** C3.  Once [_compute_cost_per_serving] has run on a recipe, whatever the
    state it ran in, and in every state the operations lead to,
    [cost_per_serving] is [total_cost / serving_size] when
    [serving_size > 0] and [0.0] when [serving_size <= 0]. *)
Theorem cost_per_serving_is_ratio env r :
  In r (recipes env) ->
  reachable env
  \/ (exists env0 self,
        env = Recipe._compute_cost_per_serving self env0
        /\ mem (restaurant_recipe.id r) self = true) ->
  (restaurant_recipe.serving_size r > 0 ->
   restaurant_recipe.cost_per_serving r
   = (restaurant_recipe.total_cost r
      / float_of_int (restaurant_recipe.serving_size r))%float)
  /\ (restaurant_recipe.serving_size r <= 0 ->
      restaurant_recipe.cost_per_serving r = 0%float).
Proof.
  intros Hr H.
  assert (E : restaurant_recipe.cost_per_serving r = per_serving r).
  { destruct H as [Hreach | [env0 [self [-> Hm]]]].
    - destruct (reachable_sound_settled env Hreach) as [_ [_ _ _ P]].
      now apply P.
    - rewrite Recipe_compute_cost_per_serving_rows in Hr. simpl in Hr.
      on_row Hr; [reflexivity|].
      congruence. }
  rewrite E. unfold per_serving. split; intro Hs.
  - destruct (restaurant_recipe.serving_size r >? 0) eqn:G; [reflexivity|].
    rewrite Z.gtb_ltb in G. apply Z.ltb_ge in G. lia.
  - destruct (restaurant_recipe.serving_size r >? 0) eqn:G; [|reflexivity].
    rewrite Z.gtb_ltb in G. apply Z.ltb_lt in G. lia.
Qed.

Lemma cost_per_serving_is_ratio_witness :
  (restaurant_recipe.serving_size tamago > 0 ->
   restaurant_recipe.cost_per_serving tamago
   = (restaurant_recipe.total_cost tamago
      / float_of_int (restaurant_recipe.serving_size tamago))%float)
  /\ (restaurant_recipe.serving_size tamago <= 0 ->
      restaurant_recipe.cost_per_serving tamago = 0%float).
Proof.
  apply (cost_per_serving_is_ratio (Recipe._compute_cost_per_serving [1] stale_table) tamago).
  - vm_compute. left. reflexivity.
  - right. exists stale_table, [1]. split; reflexivity.
Defined.

(** C4.  In every state the operations lead to, the [total_cost] of a line
    is [quantity * unit_cost]. *)
Theorem line_total_cost_is_product env i :
  reachable env ->
  In i (ingredients env) ->
  restaurant_recipe_ingredient.total_cost i
  = (restaurant_recipe_ingredient.quantity i
     * restaurant_recipe_ingredient.unit_cost i)%float.
Proof.
  intros Hreach Hi.
  destruct (reachable_sound_settled env Hreach) as [_ [_ C _ _]].
  now apply C.
Qed.

Lemma line_total_cost_is_product_witness :
  restaurant_recipe_ingredient.total_cost rice
  = (restaurant_recipe_ingredient.quantity rice
     * restaurant_recipe_ingredient.unit_cost rice)%float.
Proof.
  apply (line_total_cost_is_product kitchen rice).
  - exact kitchen_reachable.
  - rewrite kitchen_ingredients. right. left. reflexivity.
Defined.

(** C5.  In every state the operations lead to, each line has its product,
    and the [unit_cost] of the line is the [standard_price] of that
    product: after a write of the line's [product_id] as after a write of
    the product's [standard_price]. *)
Theorem unit_cost_is_standard_price env i :
  reachable env ->
  In i (ingredients env) ->
  exists p,
    find (fun p => product_product.id p =? restaurant_recipe_ingredient.product_id i)
         (products env) = Some p
    /\ restaurant_recipe_ingredient.unit_cost i = product_product.standard_price p.
Proof.
  intros Hreach Hi.
  destruct (reachable_sound_settled env Hreach) as [[_ _ _ L] [S _ _ _]].
  destruct (has_id_find _ _ _ (L i Hi)) as [p Hp].
  exists p. split; [exact Hp|].
  specialize (S i Hi eq_refl).
  unfold line_synced, RecipeIngredient.product_id_standard_price in S.
  now rewrite Hp in S.
Qed.

Lemma unit_cost_is_standard_price_witness :
  exists p,
    find (fun p => product_product.id p =? restaurant_recipe_ingredient.product_id salmon)
         (products kitchen) = Some p
    /\ restaurant_recipe_ingredient.unit_cost salmon = product_product.standard_price p.
Proof.
  apply (unit_cost_is_standard_price kitchen salmon).
  - exact kitchen_reachable.
  - rewrite kitchen_ingredients. left. reflexivity.
Defined.

(** The price of the salmon goes from 20 to 30: the line and the recipe
    follow. *)
#[warnings="-inexact-float"]
Example kitchen_salmon_price :
  let env := transaction (WriteProductStandardPrice 7 30%float) kitchen in
  map (fun i => (restaurant_recipe_ingredient.unit_cost i,
                 restaurant_recipe_ingredient.total_cost i)) (ingredients env)
  = [(30%float, 6%float); (4%float, 1.2%float)]
  /\ map restaurant_recipe.total_cost (recipes env) = [7.2%float].
Proof. vm_compute. split; reflexivity. Qed.

Lemma filter_negb_nil {A : Type} (p : A -> bool) l :
  filter p (filter (fun x => negb (p x)) l) = [].
Proof.
  induction l as [|x l IH]; simpl; [reflexivity|].
  destruct (p x) eqn:E; simpl; [exact IH | now rewrite E].
Qed.

(** C6.  Deleting a recipe deletes its lines and its steps with it: in the
    state after [unlink] the recipe is gone, it has no line and no step
    left, and every line and every step that remains has its recipe.  No
    state the operations lead to holds a line or a step without its
    recipe. *)
Theorem unlink_recipe_cascades env id :
  reachable env ->
  (has_id restaurant_recipe.id id (recipes (transaction (UnlinkRecipe id) env)) = false
   /\ Recipe.ingredient_ids (transaction (UnlinkRecipe id) env) id = []
   /\ Recipe.instruction_ids (transaction (UnlinkRecipe id) env) id = []
   /\ (forall i, In i (ingredients (transaction (UnlinkRecipe id) env)) ->
         restaurant_recipe_ingredient.recipe_id i <> id)
   /\ (forall s, In s (instructions (transaction (UnlinkRecipe id) env)) ->
         restaurant_recipe_instruction.recipe_id s <> id))
  /\ (forall env', env' = env \/ env' = transaction (UnlinkRecipe id) env ->
        (forall i, In i (ingredients env') ->
           has_id restaurant_recipe.id (restaurant_recipe_ingredient.recipe_id i)
                  (recipes env') = true)
        /\ (forall s, In s (instructions env') ->
              has_id restaurant_recipe.id (restaurant_recipe_instruction.recipe_id s)
                     (recipes env') = true)).
Proof.
  intro Hreach. split.
  - unfold transaction. simpl. repeat split.
    + destruct (has_id _ _ _) eqn:E; [|reflexivity].
      apply has_id_In in E. destruct E as [r [Hr E]].
      apply filter_In in Hr. destruct Hr as [_ Hn].
      apply negb_true_iff, Z.eqb_neq in Hn. contradiction.
    + unfold Recipe.ingredient_ids. simpl.
      apply (filter_negb_nil (fun i => restaurant_recipe_ingredient.recipe_id i =? id)).
    + unfold Recipe.instruction_ids. simpl.
      now rewrite (filter_negb_nil (fun s => restaurant_recipe_instruction.recipe_id s =? id)).
    + intros i Hi. apply filter_In in Hi. destruct Hi as [_ Hn].
      now apply negb_true_iff, Z.eqb_neq in Hn.
    + intros s Hs. apply filter_In in Hs. destruct Hs as [_ Hn].
      now apply negb_true_iff, Z.eqb_neq in Hn.
  - intros env' [-> | ->].
    + destruct (reachable_sound_settled env Hreach) as [[_ L S _] _]. now split.
    + destruct (reachable_sound_settled _ (reachable_step env (UnlinkRecipe id) Hreach))
        as [[_ L S _] _].
      now split.
Qed.

(** Scenario 6 of the specification: the recipe of the first scenario is
    deleted; its two lines and its two steps go with it. *)
Lemma unlink_recipe_cascades_witness :
  (has_id restaurant_recipe.id 1 (recipes (transaction (UnlinkRecipe 1) kitchen)) = false
   /\ Recipe.ingredient_ids (transaction (UnlinkRecipe 1) kitchen) 1 = []
   /\ Recipe.instruction_ids (transaction (UnlinkRecipe 1) kitchen) 1 = []
   /\ (forall i, In i (ingredients (transaction (UnlinkRecipe 1) kitchen)) ->
         restaurant_recipe_ingredient.recipe_id i <> 1)
   /\ (forall s, In s (instructions (transaction (UnlinkRecipe 1) kitchen)) ->
         restaurant_recipe_instruction.recipe_id s <> 1))
  /\ (forall env', env' = kitchen \/ env' = transaction (UnlinkRecipe 1) kitchen ->
        (forall i, In i (ingredients env') ->
           has_id restaurant_recipe.id (restaurant_recipe_ingredient.recipe_id i)
                  (recipes env') = true)
        /\ (forall s, In s (instructions env') ->
              has_id restaurant_recipe.id (restaurant_recipe_instruction.recipe_id s)
                     (recipes env') = true)).
Proof.
  apply (unlink_recipe_cascades kitchen 1).
  exact kitchen_reachable.
Defined.

Example kitchen_emptied :
  let env := transaction (UnlinkRecipe 1) kitchen in
  recipes env = [] /\ ingredients env = [] /\ instructions env = [].
Proof. vm_compute. repeat split. Qed.

(** ** The order of the steps *)

Lemma insert_Permutation x l : Permutation (RecipeInstruction.insert x l) (x :: l).
Proof.
  induction l as [|y l IH]; simpl; [reflexivity|].
  destruct (restaurant_recipe_instruction.sequence x
            <=? restaurant_recipe_instruction.sequence y); [reflexivity|].
  rewrite IH. apply perm_swap.
Qed.

Lemma order_Permutation l : Permutation (RecipeInstruction._order l) l.
Proof.
  induction l as [|x l IH]; simpl; [reflexivity|].
  rewrite insert_Permutation. now constructor.
Qed.

Lemma insert_sorted x l :
  StronglySorted (fun a b => restaurant_recipe_instruction.sequence a
                             <= restaurant_recipe_instruction.sequence b) l ->
  StronglySorted (fun a b => restaurant_recipe_instruction.sequence a
                             <= restaurant_recipe_instruction.sequence b)
                 (RecipeInstruction.insert x l).
Proof.
  induction 1 as [|y l Hs IH Hy]; simpl.
  - constructor; constructor.
  - destruct (restaurant_recipe_instruction.sequence x
              <=? restaurant_recipe_instruction.sequence y) eqn:E.
    + apply Z.leb_le in E. constructor; [now constructor|].
      constructor; [exact E|].
      eapply Forall_impl; [|exact Hy]. simpl. intros z Hz. lia.
    + apply Z.leb_gt in E. constructor; [exact IH|].
      apply (Permutation_Forall (Permutation_sym (insert_Permutation x l))).
      constructor; [lia | exact Hy].
Qed.

Lemma order_sorted l :
  StronglySorted (fun a b => restaurant_recipe_instruction.sequence a
                             <= restaurant_recipe_instruction.sequence b)
                 (RecipeInstruction._order l).
Proof.
  induction l as [|x l IH]; simpl; [constructor | now apply insert_sorted].
Qed.



Section Sorting.
Import restaurant_recipe_instruction.

Lemma insert_head x l :
  (forall y, In y l -> sequence x <= sequence y) -> RecipeInstruction.insert x l = x :: l.
Proof.
  destruct l as [|y l]; intro H; simpl; [reflexivity|].
  replace (sequence x <=? sequence y) with true; [reflexivity|].
  symmetry. apply Z.leb_le. apply H. now left.
Qed.


Lemma sorted_around x l1 l2 :
  StronglySorted (fun a b => sequence a <= sequence b) (l1 ++ x :: l2) ->
  (forall y, In y l1 -> sequence y <= sequence x)
  /\ (forall y, In y l2 -> sequence x <= sequence y).
Proof.
  induction l1 as [|a l1 IH]; simpl; intro H; apply StronglySorted_inv in H;
    destruct H as [Hs Ha]; rewrite Forall_forall in Ha.
  - split; [intros y [] | exact Ha].
  - destruct (IH Hs) as [H1 H2]. split; [|exact H2].
    intros y [<- | Hy]; [|now apply H1].
    apply Ha. apply in_or_app. right. now left.
Qed.

(** With no two rows of the same [sequence] there is one ascending order. *)
Lemma sorted_unique l1 l2 :
  StronglySorted (fun a b => sequence a <= sequence b) l1 ->
  StronglySorted (fun a b => sequence a <= sequence b) l2 ->
  Permutation l1 l2 ->
  NoDup (map sequence l1) ->
  l1 = l2.
Proof.
  intro S1. revert l2. induction S1 as [|a l1 S1 IH Ha]; intros l2 S2 P N.
  - apply Permutation_nil in P. now subst.
  - destruct l2 as [|b l2]; [apply Permutation_sym, Permutation_nil in P; discriminate|].
    apply StronglySorted_inv in S2. destruct S2 as [S2 Hb].
    rewrite Forall_forall in Ha, Hb.
    cbn [map] in N. apply NoDup_cons_iff in N. destruct N as [Na N].
    assert (Eab : b = a).
    { assert (Hin : In b (a :: l1)).
      { apply (Permutation_in b (Permutation_sym P)). now left. }
      destruct Hin as [-> | Hin]; [reflexivity|].
      assert (Hin' : In a (b :: l2)) by (apply (Permutation_in a P); now left).
      destruct Hin' as [-> | Hin']; [reflexivity|].
      exfalso. apply Na.
      replace (sequence a) with (sequence b)
        by (specialize (Ha b Hin); specialize (Hb a Hin'); lia).
      now apply in_map. }
    subst b. f_equal. apply IH; [exact S2 | | exact N].
    now apply Permutation_cons_inv in P.
Qed.

End Sorting.


(** Scenario 5 of the specification with a third step that ties with the
    second: the step of sequence 20 is read back last under either
    tie-break, the two steps of sequence 10 in the order of the
    tie-break. *)
Example kitchen_steps_in_order :
  map restaurant_recipe_instruction.id (Recipe.instruction_ids_by table_order kitchen_tied 1)
  = [2; 3; 1]
  /\ map restaurant_recipe_instruction.id (Recipe.instruction_ids_by reversed kitchen_tied 1)
     = [3; 2; 1].
Proof. split; vm_compute; reflexivity. Qed.


(** ** Running the recomputation twice *)

Lemma map_on_idem {A : Type} (key : A -> Z) ids (f : A -> A) l :
  (forall r, key (f r) = key r) ->
  (forall r, f (f r) = f r) ->
  map (on key ids f) (map (on key ids f) l) = map (on key ids f) l.
Proof.
  intros Hk Hf. rewrite map_map. apply map_ext. intro r. unfold on.
  destruct (mem (key r) ids) eqn:E; [|now rewrite E].
  now rewrite Hk, E, Hf.
Qed.

Lemma on_compose {A : Type} (key : A -> Z) ids (f g : A -> A) r :
  key (f r) = key r ->
  on key ids g (on key ids f r) = on key ids (fun x => g (f x)) r.
Proof.
  intro Hk. unfold on. destruct (mem (key r) ids) eqn:E; [|now rewrite E].
  now rewrite Hk, E.
Qed.

Lemma with_ingredients_fix f env :
  f (ingredients env) = ingredients env -> with_ingredients f env = env.
Proof. destruct env. unfold with_ingredients. simpl. now intros ->. Qed.

Lemma with_recipes_fix f env :
  f (recipes env) = recipes env -> with_recipes f env = env.
Proof. destruct env. unfold with_recipes. simpl. now intros ->. Qed.

Lemma compute_unit_cost_twice ids env :
  RecipeIngredient._compute_unit_cost ids (RecipeIngredient._compute_unit_cost ids env)
  = RecipeIngredient._compute_unit_cost ids env.
Proof.
  rewrite (RecipeIngredient_compute_unit_cost_rows ids env).
  rewrite RecipeIngredient_compute_unit_cost_rows.
  apply with_ingredients_fix. simpl.
  change (line_unit_cost (with_ingredients _ env)) with (line_unit_cost env).
  now apply map_on_idem.
Qed.

Lemma line_compute_total_cost_twice ids env :
  RecipeIngredient._compute_total_cost ids (RecipeIngredient._compute_total_cost ids env)
  = RecipeIngredient._compute_total_cost ids env.
Proof.
  rewrite (RecipeIngredient_compute_total_cost_rows ids env).
  rewrite RecipeIngredient_compute_total_cost_rows.
  apply with_ingredients_fix. simpl.
  now apply map_on_idem.
Qed.

Lemma compute_total_cost_twice ids env :
  Recipe._compute_total_cost ids (Recipe._compute_total_cost ids env)
  = Recipe._compute_total_cost ids env.
Proof.
  rewrite (Recipe_compute_total_cost_rows ids env).
  rewrite Recipe_compute_total_cost_rows.
  apply with_recipes_fix. simpl.
  change (recipe_total_cost (with_recipes _ env)) with (recipe_total_cost env).
  now apply map_on_idem.
Qed.

Lemma compute_cost_per_serving_twice ids env :
  Recipe._compute_cost_per_serving ids (Recipe._compute_cost_per_serving ids env)
  = Recipe._compute_cost_per_serving ids env.
Proof.
  rewrite (Recipe_compute_cost_per_serving_rows ids env).
  rewrite Recipe_compute_cost_per_serving_rows.
  apply with_recipes_fix. simpl.
  now apply map_on_idem.
Qed.

Lemma modified_ingredient_ids_rows ids env :
  ORM.modified_ingredient_ids ids env
  = with_recipes
      (map (fun r => on restaurant_recipe.id ids recipe_cost_per_serving
                        (on restaurant_recipe.id ids (recipe_total_cost env) r)))
      env.
Proof.
  unfold ORM.modified_ingredient_ids, ORM.modified_recipe_total_cost.
  rewrite Recipe_compute_total_cost_rows, Recipe_compute_cost_per_serving_rows.
  unfold with_recipes. simpl. now rewrite map_map.
Qed.

Lemma modified_ingredient_ids_twice ids env :
  ORM.modified_ingredient_ids ids (ORM.modified_ingredient_ids ids env)
  = ORM.modified_ingredient_ids ids env.
Proof.
  rewrite (modified_ingredient_ids_rows ids env).
  rewrite modified_ingredient_ids_rows.
  apply with_recipes_fix. simpl.
  change (recipe_total_cost (with_recipes _ env)) with (recipe_total_cost env).
  rewrite map_map. apply map_ext. intro r.
  rewrite !on_compose by reflexivity.
  unfold on. destruct (mem (restaurant_recipe.id r) ids); [|reflexivity].
  now destruct r.
Qed.

Lemma modified_ingredient_ids_ingredients ids env :
  ingredients (ORM.modified_ingredient_ids ids env) = ingredients env.
Proof. now rewrite modified_ingredient_ids_rows. Qed.

Lemma recipes_of_ingredients ids env env' :
  ingredients env' = ingredients env -> ORM.recipes_of ids env' = ORM.recipes_of ids env.
Proof. unfold ORM.recipes_of. now intros ->. Qed.

Lemma modified_quantity_or_unit_cost_twice ids env :
  ORM.modified_quantity_or_unit_cost ids (ORM.modified_quantity_or_unit_cost ids env)
  = ORM.modified_quantity_or_unit_cost ids env.
Proof.
  unfold ORM.modified_quantity_or_unit_cost at 1.
  set (env3 := ORM.modified_quantity_or_unit_cost ids env).
  assert (I3 : ingredients env3
               = ingredients (RecipeIngredient._compute_total_cost ids env)).
  { unfold env3, ORM.modified_quantity_or_unit_cost.
    apply modified_ingredient_ids_ingredients. }
  assert (F : RecipeIngredient._compute_total_cost ids env3 = env3).
  { rewrite RecipeIngredient_compute_total_cost_rows.
    apply with_ingredients_fix. rewrite I3.
    rewrite RecipeIngredient_compute_total_cost_rows. simpl.
    now apply map_on_idem. }
  rewrite F. rewrite (recipes_of_ingredients ids _ _ I3).
  unfold env3, ORM.modified_quantity_or_unit_cost.
  apply modified_ingredient_ids_twice.
Qed.

Lemma line_unit_cost_products env env' :
  products env' = products env -> line_unit_cost env' = line_unit_cost env.
Proof.
  intro E. unfold line_unit_cost, RecipeIngredient.product_id_standard_price.
  now rewrite E.
Qed.

Lemma modified_product_or_price_twice ids env :
  ORM.modified_product_or_price ids (ORM.modified_product_or_price ids env)
  = ORM.modified_product_or_price ids env.
Proof.
  unfold ORM.modified_product_or_price at 1.
  set (env5 := ORM.modified_product_or_price ids env).
  assert (F : RecipeIngredient._compute_unit_cost ids env5 = env5).
  { rewrite RecipeIngredient_compute_unit_cost_rows.
    apply with_ingredients_fix.
    rewrite (line_unit_cost_products env env5)
      by apply keys_products, modified_product_or_price_keys.
    unfold env5, ORM.modified_product_or_price, ORM.modified_quantity_or_unit_cost.
    rewrite modified_ingredient_ids_ingredients.
    rewrite RecipeIngredient_compute_total_cost_rows.
    rewrite RecipeIngredient_compute_unit_cost_rows. simpl.
    rewrite !map_map. apply map_ext. intro i.
    rewrite !on_compose by reflexivity.
    unfold on. destruct (mem (restaurant_recipe_ingredient.id i) ids); [|reflexivity].
    now destruct i. }
  rewrite F. unfold env5, ORM.modified_product_or_price.
  apply modified_quantity_or_unit_cost_twice.
Qed.

(** C8.  Recomputation is idempotent: in any state, each compute method run
    a second time on the same records, and each chain of methods the ORM
    runs after a modification run a second time, gives back the state the
    first run gave. *)
Theorem recompute_idempotent env ids :
  (RecipeIngredient._compute_total_cost ids (RecipeIngredient._compute_total_cost ids env)
   = RecipeIngredient._compute_total_cost ids env
   /\ Recipe._compute_total_cost ids (Recipe._compute_total_cost ids env)
      = Recipe._compute_total_cost ids env
   /\ Recipe._compute_cost_per_serving ids (Recipe._compute_cost_per_serving ids env)
      = Recipe._compute_cost_per_serving ids env
   /\ RecipeIngredient._compute_unit_cost ids (RecipeIngredient._compute_unit_cost ids env)
      = RecipeIngredient._compute_unit_cost ids env)
  /\ (ORM.modified_ingredient_ids ids (ORM.modified_ingredient_ids ids env)
      = ORM.modified_ingredient_ids ids env
      /\ ORM.modified_quantity_or_unit_cost ids (ORM.modified_quantity_or_unit_cost ids env)
         = ORM.modified_quantity_or_unit_cost ids env
      /\ ORM.modified_product_or_price ids (ORM.modified_product_or_price ids env)
         = ORM.modified_product_or_price ids env).
Proof.
  repeat split.
  - apply line_compute_total_cost_twice.
  - apply compute_total_cost_twice.
  - apply compute_cost_per_serving_twice.
  - apply compute_unit_cost_twice.
  - apply modified_ingredient_ids_twice.
  - apply modified_quantity_or_unit_cost_twice.
  - apply modified_product_or_price_twice.
Qed.

(** ** Creating and writing recipes *)

Lemma modified_ingredient_ids_recipes ids env r' :
  In r' (recipes (ORM.modified_ingredient_ids ids env)) ->
  exists r, In r (recipes env)
            /\ restaurant_recipe.id r' = restaurant_recipe.id r
            /\ restaurant_recipe.prep_time r' = restaurant_recipe.prep_time r
            /\ restaurant_recipe.serving_size r' = restaurant_recipe.serving_size r.
Proof.
  rewrite modified_ingredient_ids_rows. simpl. intro H.
  apply in_map_iff in H. destruct H as [r [<- Hr]].
  exists r. split; [assumption|].
  rewrite on_compose by reflexivity. unfold on.
  destruct (mem (restaurant_recipe.id r) ids); repeat split; reflexivity.
Qed.

Lemma modified_ingredient_ids_has_id ids env id :
  has_id restaurant_recipe.id id (recipes (ORM.modified_ingredient_ids ids env))
  = has_id restaurant_recipe.id id (recipes env).
Proof.
  apply has_id_keys. apply recipe_ids_of_keys.
  apply keys_recipes, modified_ingredient_ids_keys.
Qed.


Lemma create_recipe_fields env vals name :
  reachable env ->
  RecipeVals.name vals = Some name ->
  (forall v, RecipeVals.serving_size vals = Some v -> v > 0) ->
  exists env',
    execute (CreateRecipe vals) env = Ok env'
    /\ has_id restaurant_recipe.id (recipe_seq env) (recipes env') = true
    /\ forall r, In r (recipes env') ->
                 restaurant_recipe.id r = recipe_seq env ->
                 restaurant_recipe.prep_time r
                 = default restaurant_recipe.default_prep_time
                           (RecipeVals.prep_time vals).
Proof.
  intros Hreach N V.
  destruct (reachable_sound_settled env Hreach) as [[S1 _ _ _] _].
  destruct (reachable_keyed env Hreach) as [[_ F] _ _].
  simpl. unfold ORM.create_recipe. rewrite N. cbn [require bind].
  match goal with
  | |- context [Recipe._check_serving_size _ ?e] => set (env1 := e)
  end.
  rewrite check_serving_size_positive.
  - cbn [bind]. eexists. split; [reflexivity|]. split.
    + rewrite modified_ingredient_ids_has_id. unfold env1. simpl.
      rewrite has_id_app. apply orb_true_iff. right.
      unfold has_id. simpl. now rewrite Z.eqb_refl.
    + intros r' Hr' E.
      destruct (modified_ingredient_ids_recipes _ _ _ Hr') as [r [Hr [Ei [Ep Es]]]].
      rewrite Ep. unfold env1 in Hr. simpl in Hr. apply in_app_or in Hr.
      destruct Hr as [Hr | [<- | []]]; [|reflexivity].
      specialize (F r Hr). lia.
  - intros r Hr. unfold env1 in Hr. simpl in Hr. apply in_app_or in Hr.
    destruct Hr as [Hr | [<- | []]]; [now apply S1|]. simpl.
    destruct (RecipeVals.serving_size vals) as [v|]; simpl;
      [now apply V | unfold restaurant_recipe.default_serving_size; lia].
Qed.

(** C9 does not hold as the specification words it ([prep_time] is never
    negative): a write of [prep_time = -5] on the recipe of the first
    scenario succeeds and the value is stored. *)
Lemma negative_prep_time_stored :
  execute (WriteRecipe 1 rushed) kitchen = Ok (transaction (WriteRecipe 1 rushed) kitchen)
  /\ map restaurant_recipe.prep_time (recipes (transaction (WriteRecipe 1 rushed) kitchen))
     = [-5]
  /\ ~ (forall env r, reachable env -> In r (recipes env) ->
                      0 <= restaurant_recipe.prep_time r).
Proof.
  split; [vm_compute; reflexivity|]. split; [vm_compute; reflexivity|].
  intro H.
  specialize (H (transaction (WriteRecipe 1 rushed) kitchen)
                (restaurant_recipe.set_prep_time (-5) nigiri)).
  assert (0 <= -5) as Habsurd; [|lia].
  apply H.
  - constructor. exact kitchen_reachable.
  - vm_compute. left. reflexivity.
Qed.

(** C9, amended.  [prep_time] is an integer that the module does not
    validate, so it can be negative.  A write on an existing recipe that
    carries a [prep_time], its Integer values within the range of the
    field, is accepted when it carries no [serving_size] or a positive one,
    and the recipe then holds the [prep_time] written, negative or not;
    when it carries a [serving_size <= 0] it is refused with the validation
    error and the stored [prep_time] stays as it was.  A recipe created
    without a [prep_time] holds the default, 0. *)
Theorem prep_time_stored_unchecked env vals :
  storable vals ->
  ((forall v, RecipeVals.serving_size vals = Some v -> v > 0) ->
   (forall id p,
      has_id restaurant_recipe.id id (recipes env) = true ->
      RecipeVals.prep_time vals = Some p ->
      exists env',
        execute (WriteRecipe id vals) env = Ok env'
        /\ has_id restaurant_recipe.id id (recipes env') = true
        /\ forall r, In r (recipes env') -> restaurant_recipe.id r = id ->
                     restaurant_recipe.prep_time r = p)
   /\ (reachable env ->
       forall name,
         RecipeVals.name vals = Some name ->
         exists env',
           execute (CreateRecipe vals) env = Ok env'
           /\ has_id restaurant_recipe.id (recipe_seq env) (recipes env') = true
           /\ forall r, In r (recipes env') -> restaurant_recipe.id r = recipe_seq env ->
                        restaurant_recipe.prep_time r
                        = default restaurant_recipe.default_prep_time
                                  (RecipeVals.prep_time vals)))
  /\ (forall id v,
        has_id restaurant_recipe.id id (recipes env) = true ->
        RecipeVals.serving_size vals = Some v ->
        v <= 0 ->
        execute (WriteRecipe id vals) env
        = Raise (ValidationError "Serving size must be greater than 0")
        /\ transaction (WriteRecipe id vals) env = env).
Proof.
  intros _. split; [intro Hpos; split|].
  - intros id p Hid P.
    assert (Wp : forall r, restaurant_recipe.prep_time (RecipeVals.write vals r) = p).
    { intro r. destruct (recipe_write_fields vals r) as [_ [_ [_ [_ ->]]]].
      now rewrite P. }
    assert (Wi : forall r, restaurant_recipe.id (RecipeVals.write vals r)
                           = restaurant_recipe.id r).
    { intro r. apply recipe_write_fields. }
    set (env1 := with_recipes (assign restaurant_recipe.id id (RecipeVals.write vals)) env).
    assert (Stored : forall r, In r (recipes env1) -> restaurant_recipe.id r = id ->
                               restaurant_recipe.prep_time r = p).
    { intros r Hr E. unfold env1 in Hr. simpl in Hr. apply In_assign in Hr.
      destruct Hr as [y [Hy [[Ey ->] | [Ey ->]]]]; [apply Wp | contradiction]. }
    assert (Hid1 : has_id restaurant_recipe.id id (recipes env1) = true).
    { unfold env1. simpl. rewrite has_id_assign; [exact Hid | exact Wi]. }
    destruct (RecipeVals.serving_size vals) as [v|] eqn:V.
    + specialize (Hpos v eq_refl).
      assert (Pass : Recipe._check_serving_size [id] env1 = Ok tt).
      { apply check_serving_size_passes. intros r Hr Hm.
        rewrite mem_single in Hm. apply Z.eqb_eq in Hm.
        unfold env1 in Hr. simpl in Hr. apply In_assign in Hr.
        destruct Hr as [y [_ [[_ ->] | [Hne ->]]]]; [|contradiction].
        destruct (recipe_write_fields vals y) as [_ [_ [_ [-> _]]]].
        now rewrite V. }
      exists (Recipe._compute_cost_per_serving [id] env1). split; [|split].
      * simpl. unfold ORM.write_recipe. rewrite Hid, V. cbn [check bind given].
        fold env1. now rewrite Pass.
      * rewrite <- Hid1. apply has_id_keys. apply recipe_ids_of_keys.
        apply keys_recipes, compute_cost_per_serving_keys.
      * intros r Hr E. rewrite Recipe_compute_cost_per_serving_rows in Hr.
        simpl in Hr. apply In_map_on in Hr.
        destruct Hr as [y [Hy [[_ ->] | [_ ->]]]]; [|now apply Stored].
        rewrite <- (Stored y Hy); [now destruct y | exact E].
    + exists env1. split; [|split].
      * simpl. unfold ORM.write_recipe. rewrite Hid, V. reflexivity.
      * exact Hid1.
      * exact Stored.
  - intros Hreach name N. now apply (create_recipe_fields env vals name).
  - intros id v Hid V Hv.
    assert (W : execute (WriteRecipe id vals) env
                = Raise (ValidationError "Serving size must be greater than 0")).
    { simpl. unfold ORM.write_recipe. rewrite Hid, V. cbn [check bind given].
      unfold Recipe._check_serving_size.
      apply has_id_In in Hid. destruct Hid as [r [Hr E]].
      rewrite (check_serving_size_rows_Raise _ (RecipeVals.write vals r)); [reflexivity | |].
      - apply filter_In. split.
        + simpl. unfold assign. apply in_map_iff. exists r.
          apply Z.eqb_eq in E. now rewrite E.
        + apply mem_In. left. symmetry. rewrite <- E. apply recipe_write_fields.
      - destruct (recipe_write_fields vals r) as [_ [_ [_ [-> _]]]].
        now rewrite V. }
    split; [exact W | unfold transaction; now rewrite W].
Qed.

(** A write of [prep_time = -5] together with [serving_size = 3] on the
    recipe of the first scenario. *)
Lemma prep_time_stored_unchecked_witness :
  exists env',
    execute (WriteRecipe 1 rushed_for_three) kitchen = Ok env'
    /\ has_id restaurant_recipe.id 1 (recipes env') = true
    /\ forall r, In r (recipes env') -> restaurant_recipe.id r = 1 ->
                 restaurant_recipe.prep_time r = -5.
Proof.
  refine (proj1 (proj1 (prep_time_stored_unchecked kitchen rushed_for_three _) _)
                1 (-5) _ _).
  - split; intros v E; injection E as <-; unfold int4; lia.
  - intros v E. injection E as <-. lia.
  - vm_compute. reflexivity.
  - reflexivity.
Defined.



Example kitchen_tamago :
  map (fun r => (restaurant_recipe.id r, restaurant_recipe.serving_size r,
                 restaurant_recipe.prep_time r, restaurant_recipe.category r))
      (recipes (transaction (CreateRecipe tamago_vals) kitchen))
  = [(1, 2, 0, restaurant_recipe.sushi); (2, 1, 0, restaurant_recipe.other)].
Proof. vm_compute. reflexivity. Qed.

(** * Further properties of the code *)

(** ** The constraint method *)

(** X2.  [_check_serving_size] passes exactly when every record of [self]
    has a positive [serving_size] (so always on an empty [self]); otherwise
    it raises, and what it raises is the validation error with the message
    of the source, whatever the record that fails. *)
Theorem check_serving_size_decides self env :
  (Recipe._check_serving_size self env = Ok tt
   <-> forall r, In r (recipes env) -> mem (restaurant_recipe.id r) self = true ->
                 restaurant_recipe.serving_size r > 0)
  /\ (Recipe._check_serving_size self env
      = Raise (ValidationError "Serving size must be greater than 0")
      <-> exists r, In r (recipes env) /\ mem (restaurant_recipe.id r) self = true
                    /\ restaurant_recipe.serving_size r <= 0)
  /\ (forall e, Recipe._check_serving_size self env = Raise e ->
                e = ValidationError "Serving size must be greater than 0")
  /\ Recipe._check_serving_size [] env = Ok tt.
Proof.
  repeat split.
  - intros H r Hr Hm. now apply (check_serving_size_Ok self env tt H).
  - intro H. unfold Recipe._check_serving_size.
    destruct (Recipe._check_serving_size_rows _) as [[]|e] eqn:E; [reflexivity|].
    destruct (check_serving_size_rows_Raise_inv _ _ E) as [_ [r [Hr Hle]]].
    apply filter_In in Hr. destruct Hr as [Hr Hm]. specialize (H r Hr Hm). lia.
  - intro H. unfold Recipe._check_serving_size in H.
    destruct (check_serving_size_rows_Raise_inv _ _ H) as [_ [r [Hr Hle]]].
    apply filter_In in Hr. exists r. tauto.
  - intros [r [Hr [Hm Hle]]]. unfold Recipe._check_serving_size.
    apply (check_serving_size_rows_Raise _ r); [|exact Hle].
    apply filter_In. auto.
  - intros e H. unfold Recipe._check_serving_size in H.
    now destruct (check_serving_size_rows_Raise_inv _ _ H).
  - unfold Recipe._check_serving_size.
    replace (filter _ (recipes env)) with (@nil restaurant_recipe.row); [reflexivity|].
    symmetry. induction (recipes env) as [|x l IH]; simpl; [reflexivity | exact IH].
Qed.

(** ** The records of [self] as a set *)

Lemma on_membership {A : Type} (key : A -> Z) ids ids' (f : A -> A) l :
  (forall x, mem x ids = mem x ids') ->
  map (on key ids f) l = map (on key ids' f) l.
Proof.
  intro H. apply map_ext. intro r. unfold on. now rewrite H.
Qed.

(** X3.  What a compute method or the constraint method does depends on
    which records are in [self], not on their order nor on how often each
    occurs. *)
Theorem methods_take_self_as_a_set self self' env :
  (forall x, mem x self = mem x self') ->
  Recipe._compute_total_cost self env = Recipe._compute_total_cost self' env
  /\ Recipe._compute_cost_per_serving self env = Recipe._compute_cost_per_serving self' env
  /\ RecipeIngredient._compute_total_cost self env
     = RecipeIngredient._compute_total_cost self' env
  /\ RecipeIngredient._compute_unit_cost self env
     = RecipeIngredient._compute_unit_cost self' env
  /\ Recipe._check_serving_size self env = Recipe._check_serving_size self' env.
Proof.
  intro H. repeat split.
  - rewrite !Recipe_compute_total_cost_rows. unfold with_recipes.
    now rewrite (on_membership _ self self').
  - rewrite !Recipe_compute_cost_per_serving_rows. unfold with_recipes.
    now rewrite (on_membership _ self self').
  - rewrite !RecipeIngredient_compute_total_cost_rows. unfold with_ingredients.
    now rewrite (on_membership _ self self').
  - rewrite !RecipeIngredient_compute_unit_cost_rows. unfold with_ingredients.
    now rewrite (on_membership _ self self').
  - unfold Recipe._check_serving_size. f_equal.
    apply filter_ext. intro r. apply H.
Qed.

Lemma methods_take_self_as_a_set_witness :
  Recipe._compute_total_cost [1; 2; 1] kitchen = Recipe._compute_total_cost [2; 1] kitchen
  /\ Recipe._compute_cost_per_serving [1; 2; 1] kitchen
     = Recipe._compute_cost_per_serving [2; 1] kitchen
  /\ RecipeIngredient._compute_total_cost [1; 2; 1] kitchen
     = RecipeIngredient._compute_total_cost [2; 1] kitchen
  /\ RecipeIngredient._compute_unit_cost [1; 2; 1] kitchen
     = RecipeIngredient._compute_unit_cost [2; 1] kitchen
  /\ Recipe._check_serving_size [1; 2; 1] kitchen = Recipe._check_serving_size [2; 1] kitchen.
Proof.
  apply (methods_take_self_as_a_set [1; 2; 1] [2; 1] kitchen).
  intro x. unfold mem. simpl.
  destruct (x =? 1); destruct (x =? 2); reflexivity.
Defined.

(** ** Recomputation on a settled state *)

Lemma map_on_fix {A : Type} (key : A -> Z) ids (f : A -> A) l :
  (forall r, In r l -> f r = r) -> map (on key ids f) l = l.
Proof.
  intro H. rewrite <- (map_id l) at 2. apply map_ext_in.
  intros r Hr. unfold on. destruct (mem (key r) ids); [now apply H | reflexivity].
Qed.

Lemma line_unit_cost_fix env i : line_synced env i -> line_unit_cost env i = i.
Proof.
  unfold line_synced, line_unit_cost. intros <-. now destruct i.
Qed.

Lemma line_total_cost_fix i : line_costed i -> line_total_cost i = i.
Proof.
  unfold line_costed, line_total_cost. intros <-. now destruct i.
Qed.

Lemma recipe_total_cost_fix env r : recipe_totalled env r -> recipe_total_cost env r = r.
Proof.
  unfold recipe_totalled, recipe_total_cost. intros <-. now destruct r.
Qed.

Lemma recipe_cost_per_serving_fix r : recipe_per_serving r -> recipe_cost_per_serving r = r.
Proof.
  unfold recipe_per_serving, recipe_cost_per_serving. intros <-. now destruct r.
Qed.

Lemma compute_unit_cost_settled ids env :
  settled env -> RecipeIngredient._compute_unit_cost ids env = env.
Proof.
  intros [A _ _ _]. rewrite RecipeIngredient_compute_unit_cost_rows.
  apply with_ingredients_fix. apply map_on_fix.
  intros i Hi. apply line_unit_cost_fix. now apply A.
Qed.

Lemma line_compute_total_cost_settled ids env :
  settled env -> RecipeIngredient._compute_total_cost ids env = env.
Proof.
  intros [_ B _ _]. rewrite RecipeIngredient_compute_total_cost_rows.
  apply with_ingredients_fix. apply map_on_fix.
  intros i Hi. apply line_total_cost_fix. now apply B.
Qed.

Lemma compute_total_cost_settled ids env :
  settled env -> Recipe._compute_total_cost ids env = env.
Proof.
  intros [_ _ C _]. rewrite Recipe_compute_total_cost_rows.
  apply with_recipes_fix. apply map_on_fix.
  intros r Hr. apply recipe_total_cost_fix. now apply C.
Qed.

Lemma compute_cost_per_serving_settled ids env :
  settled env -> Recipe._compute_cost_per_serving ids env = env.
Proof.
  intros [_ _ _ D]. rewrite Recipe_compute_cost_per_serving_rows.
  apply with_recipes_fix. apply map_on_fix.
  intros r Hr. apply recipe_cost_per_serving_fix. now apply D.
Qed.

Lemma modified_ingredient_ids_settled ids env :
  settled env -> ORM.modified_ingredient_ids ids env = env.
Proof.
  intro H. unfold ORM.modified_ingredient_ids, ORM.modified_recipe_total_cost.
  rewrite compute_total_cost_settled by assumption.
  now apply compute_cost_per_serving_settled.
Qed.

Lemma modified_quantity_or_unit_cost_settled ids env :
  settled env -> ORM.modified_quantity_or_unit_cost ids env = env.
Proof.
  intro H. unfold ORM.modified_quantity_or_unit_cost.
  rewrite line_compute_total_cost_settled by assumption.
  now apply modified_ingredient_ids_settled.
Qed.

Lemma modified_product_or_price_settled ids env :
  settled env -> ORM.modified_product_or_price ids env = env.
Proof.
  intro H. unfold ORM.modified_product_or_price.
  rewrite compute_unit_cost_settled by assumption.
  now apply modified_quantity_or_unit_cost_settled.
Qed.

(** X4.  In a state the operations lead to nothing is left to recompute:
    each compute method, run on any records, gives the state back as it is,
    and so does each chain of methods. *)
Theorem recompute_changes_nothing_once_settled env ids :
  reachable env ->
  (RecipeIngredient._compute_unit_cost ids env = env
   /\ RecipeIngredient._compute_total_cost ids env = env
   /\ Recipe._compute_total_cost ids env = env
   /\ Recipe._compute_cost_per_serving ids env = env)
  /\ (ORM.modified_ingredient_ids ids env = env
      /\ ORM.modified_quantity_or_unit_cost ids env = env
      /\ ORM.modified_product_or_price ids env = env).
Proof.
  intro Hreach. destruct (reachable_sound_settled env Hreach) as [_ H].
  repeat split.
  - now apply compute_unit_cost_settled.
  - now apply line_compute_total_cost_settled.
  - now apply compute_total_cost_settled.
  - now apply compute_cost_per_serving_settled.
  - now apply modified_ingredient_ids_settled.
  - now apply modified_quantity_or_unit_cost_settled.
  - now apply modified_product_or_price_settled.
Qed.

Lemma recompute_changes_nothing_once_settled_witness :
  (RecipeIngredient._compute_unit_cost [1; 2] kitchen = kitchen
   /\ RecipeIngredient._compute_total_cost [1; 2] kitchen = kitchen
   /\ Recipe._compute_total_cost [1; 2] kitchen = kitchen
   /\ Recipe._compute_cost_per_serving [1; 2] kitchen = kitchen)
  /\ (ORM.modified_ingredient_ids [1; 2] kitchen = kitchen
      /\ ORM.modified_quantity_or_unit_cost [1; 2] kitchen = kitchen
      /\ ORM.modified_product_or_price [1; 2] kitchen = kitchen).
Proof.
  apply (recompute_changes_nothing_once_settled kitchen [1; 2]).
  exact kitchen_reachable.
Defined.

(** ** What each compute method writes *)

(** X5.  Each compute method of the source is one pass over its table: a
    record of [self] gets its field computed from the state the method
    started in, with its other fields as they were; the records outside
    [self] and the other tables are left as they are. *)
Theorem compute_methods_write_their_field_only self env :
  Recipe._compute_total_cost self env
  = mkEnv (products env)
          (map (fun r =>
                  if mem (restaurant_recipe.id r) self
                  then restaurant_recipe.set_total_cost
                         (sum (map restaurant_recipe_ingredient.total_cost
                                   (Recipe.ingredient_ids env (restaurant_recipe.id r)))) r
                  else r)
               (recipes env))
          (ingredients env) (instructions env)
          (recipe_seq env) (ingredient_seq env) (instruction_seq env)
  /\ Recipe._compute_cost_per_serving self env
     = mkEnv (products env)
             (map (fun r =>
                     if mem (restaurant_recipe.id r) self
                     then restaurant_recipe.set_cost_per_serving
                            (if restaurant_recipe.serving_size r >? 0
                             then (restaurant_recipe.total_cost r
                                   / float_of_int (restaurant_recipe.serving_size r))%float
                             else 0%float) r
                     else r)
                  (recipes env))
             (ingredients env) (instructions env)
             (recipe_seq env) (ingredient_seq env) (instruction_seq env)
  /\ RecipeIngredient._compute_total_cost self env
     = mkEnv (products env) (recipes env)
             (map (fun i =>
                     if mem (restaurant_recipe_ingredient.id i) self
                     then restaurant_recipe_ingredient.set_total_cost
                            (restaurant_recipe_ingredient.quantity i
                             * restaurant_recipe_ingredient.unit_cost i)%float i
                     else i)
                  (ingredients env))
             (instructions env)
             (recipe_seq env) (ingredient_seq env) (instruction_seq env).
Proof.
  repeat split.
  - now rewrite Recipe_compute_total_cost_rows.
  - now rewrite Recipe_compute_cost_per_serving_rows.
  - now rewrite RecipeIngredient_compute_total_cost_rows.
Qed.

(** ** The values entered are never recomputed *)

Lemma same_inputs_refl env : same_inputs env env.
Proof. constructor; reflexivity. Qed.

Lemma same_inputs_trans e1 e2 e3 : same_inputs e1 e2 -> same_inputs e2 e3 -> same_inputs e1 e3.
Proof.
  intros [A1 A2 A3 A4] [B1 B2 B3 B4]. constructor; congruence.
Qed.

Lemma same_inputs_sym e1 e2 : same_inputs e1 e2 -> same_inputs e2 e1.
Proof. intros [A1 A2 A3 A4]. constructor; congruence. Qed.

Lemma compute_unit_cost_inputs ids env :
  same_inputs env (RecipeIngredient._compute_unit_cost ids env).
Proof.
  rewrite RecipeIngredient_compute_unit_cost_rows.
  constructor; try reflexivity. simpl. now apply map_on_keys.
Qed.

Lemma line_compute_total_cost_inputs ids env :
  same_inputs env (RecipeIngredient._compute_total_cost ids env).
Proof.
  rewrite RecipeIngredient_compute_total_cost_rows.
  constructor; try reflexivity. simpl. now apply map_on_keys.
Qed.

Lemma compute_total_cost_inputs ids env :
  same_inputs env (Recipe._compute_total_cost ids env).
Proof.
  rewrite Recipe_compute_total_cost_rows.
  constructor; try reflexivity. simpl. now apply map_on_keys.
Qed.

Lemma compute_cost_per_serving_inputs ids env :
  same_inputs env (Recipe._compute_cost_per_serving ids env).
Proof.
  rewrite Recipe_compute_cost_per_serving_rows.
  constructor; try reflexivity. simpl. now apply map_on_keys.
Qed.

Lemma modified_ingredient_ids_inputs ids env :
  same_inputs env (ORM.modified_ingredient_ids ids env).
Proof.
  unfold ORM.modified_ingredient_ids, ORM.modified_recipe_total_cost.
  eapply same_inputs_trans; [apply compute_total_cost_inputs|].
  apply compute_cost_per_serving_inputs.
Qed.

Lemma modified_quantity_or_unit_cost_inputs ids env :
  same_inputs env (ORM.modified_quantity_or_unit_cost ids env).
Proof.
  unfold ORM.modified_quantity_or_unit_cost.
  eapply same_inputs_trans; [apply line_compute_total_cost_inputs|].
  apply modified_ingredient_ids_inputs.
Qed.

Lemma modified_product_or_price_inputs ids env :
  same_inputs env (ORM.modified_product_or_price ids env).
Proof.
  unfold ORM.modified_product_or_price.
  eapply same_inputs_trans; [apply compute_unit_cost_inputs|].
  apply modified_quantity_or_unit_cost_inputs.
Qed.

(** ** The computed values are a function of the values entered *)

Lemma map_eq_pointwise {A K : Type} (k : A -> K) l l' :
  map k l' = map k l ->
  (forall x y, In x l -> In y l' -> k y = k x -> y = x) ->
  l' = l.
Proof.
  revert l'. induction l as [|x l IH]; intros [|y l'] E H; simpl in E;
    try discriminate; [reflexivity|].
  injection E as Ek El. f_equal.
  - apply H; [now left | now left | exact Ek].
  - apply IH; [exact El|]. intros a b Ha Hb. apply H; now right.
Qed.

Lemma settled_same_inputs env env' :
  settled env -> settled env' -> same_inputs env env' ->
  products env' = products env
  /\ recipes env' = recipes env
  /\ ingredients env' = ingredients env
  /\ instructions env' = instructions env.
Proof.
  intros [A B C D] [A' B' C' D'] [I1 I2 I3 I4].
  assert (L : ingredients env' = ingredients env).
  { apply (map_eq_pointwise line_inputs); [exact I3|].
    intros x y Hx Hy E.
    specialize (A x Hx eq_refl). specialize (B x Hx eq_refl).
    specialize (A' y Hy eq_refl). specialize (B' y Hy eq_refl).
    unfold line_synced, RecipeIngredient.product_id_standard_price in A, A'.
    unfold line_costed in B, B'. rewrite I1 in A'.
    destruct x as [xi xr xp xq xu xc xt], y as [yi yr yp yq yu yc yt].
    unfold line_inputs in E. simpl in *. injection E as -> -> -> -> ->.
    assert (yc = xc) as -> by congruence.
    assert (yt = xt) as -> by congruence.
    reflexivity. }
  repeat split; try assumption.
  apply (map_eq_pointwise recipe_inputs); [exact I2|].
  intros x y Hx Hy E.
  specialize (C x Hx eq_refl). specialize (D x Hx eq_refl).
  specialize (C' y Hy eq_refl). specialize (D' y Hy eq_refl).
  unfold recipe_totalled, lines_total, Recipe.ingredient_ids in C, C'.
  unfold recipe_per_serving, per_serving in D, D'. rewrite L in C'.
  destruct x as [xi xn xc xp xs xt xv xo xa], y as [yi yn yc yp ys yt yv yo ya].
  unfold recipe_inputs in E. simpl in *. injection E as -> -> -> -> -> -> ->.
  assert (yt = xt) as -> by congruence.
  assert (yv = xv) as -> by congruence.
  reflexivity.
Qed.

(** X6.  The stored computed fields are a function of the values entered:
    two states the operations lead to that hold the same products, the same
    steps and the same entered values on their recipes and lines are the
    same in every table. *)
Theorem computed_values_follow_inputs env env' :
  reachable env ->
  reachable env' ->
  products env' = products env ->
  map recipe_inputs (recipes env') = map recipe_inputs (recipes env) ->
  map line_inputs (ingredients env') = map line_inputs (ingredients env) ->
  instructions env' = instructions env ->
  recipes env' = recipes env /\ ingredients env' = ingredients env.
Proof.
  intros R R' I1 I2 I3 I4.
  destruct (reachable_sound_settled env R) as [_ S].
  destruct (reachable_sound_settled env' R') as [_ S'].
  destruct (settled_same_inputs env env' S S' (mkSameInputs _ _ I1 I2 I3 I4))
    as [_ [Hr [Hl _]]].
  now split.
Qed.

Lemma kitchen_detour_reachable : reachable kitchen_detour.
Proof. apply run_reachable. exact kitchen_reachable. Qed.

Lemma computed_values_follow_inputs_witness :
  recipes kitchen_detour = recipes kitchen /\ ingredients kitchen_detour = ingredients kitchen.
Proof.
  apply (computed_values_follow_inputs kitchen kitchen_detour).
  - exact kitchen_reachable.
  - exact kitchen_detour_reachable.
  - vm_compute. reflexivity.
  - vm_compute. reflexivity.
  - vm_compute. reflexivity.
  - vm_compute. reflexivity.
Defined.

(** ** Running a write or an unlink again *)

Lemma transaction_fix c env :
  reachable env ->
  (forall env', execute c env = Ok env' -> same_inputs env env' /\ same_keys env env') ->
  transaction c env = env.
Proof.
  intros Hreach H.
  pose proof (reachable_step env c Hreach) as Hreach'.
  unfold transaction in *. destruct (execute c env) as [env'|e]; [|reflexivity].
  destruct (H env' eq_refl) as [I [_ _ _ _ K5 K6 K7]].
  destruct (reachable_sound_settled env Hreach) as [_ S].
  destruct (reachable_sound_settled env' Hreach') as [_ S'].
  destruct (settled_same_inputs env env' S S' I) as [E1 [E2 [E3 E4]]].
  destruct env, env'. simpl in *. congruence.
Qed.

Lemma assign_idem {A : Type} (key : A -> Z) id (f : A -> A) l :
  (forall r, key (f r) = key r) ->
  (forall r, f (f r) = f r) ->
  assign key id f (assign key id f l) = assign key id f l.
Proof.
  intros Hk Hf. unfold assign. rewrite map_map. apply map_ext. intro r.
  destruct (key r =? id) eqn:E; [|now rewrite E].
  now rewrite Hk, E, Hf.
Qed.

(** A write stored again over rows that hold what it stored. *)
Lemma assign_again {A K : Type} (key : A -> Z) (k : A -> K) id (w : A -> A) l l1 :
  (forall a b, k a = k b -> key a = key b) ->
  (forall a, key (w a) = key a) ->
  (forall a b, k a = k b -> k (w a) = k (w b)) ->
  (forall a, k (w (w a)) = k (w a)) ->
  map k l1 = map k (assign key id w l) ->
  map k (assign key id w l1) = map k l1.
Proof.
  intros Hkey Hw Hcong Hidem. revert l1.
  induction l as [|x l IH]; intros [|y l1] E; simpl in E; try discriminate;
    [reflexivity|].
  injection E as Ey El. simpl. f_equal; [|now apply IH].
  destruct (key x =? id) eqn:Ex.
  - assert (key y = id) as Eid.
    { rewrite (Hkey _ _ Ey), Hw. now apply Z.eqb_eq. }
    apply Z.eqb_eq in Eid. rewrite Eid.
    rewrite (Hcong _ _ Ey), Hidem. now symmetry.
  - assert ((key y =? id) = false) as Eid by (now rewrite (Hkey _ _ Ey)).
    now rewrite Eid.
Qed.

Lemma recipe_write_inputs vals :
  (forall a b, recipe_inputs a = recipe_inputs b ->
               recipe_inputs (RecipeVals.write vals a) = recipe_inputs (RecipeVals.write vals b))
  /\ (forall a, recipe_inputs (RecipeVals.write vals (RecipeVals.write vals a))
                = recipe_inputs (RecipeVals.write vals a)).
Proof.
  split.
  - intros [] [] E. unfold recipe_inputs in E. simpl in E.
    injection E as -> -> -> -> -> -> ->.
    destruct vals as [[?|] [?|] [?|] [?|] [?|] [?|]]; reflexivity.
  - intros []. destruct vals as [[?|] [?|] [?|] [?|] [?|] [?|]]; reflexivity.
Qed.

Lemma line_write_inputs vals :
  (forall a b, line_inputs a = line_inputs b ->
               line_inputs (IngredientVals.write vals a)
               = line_inputs (IngredientVals.write vals b))
  /\ (forall a, line_inputs (IngredientVals.write vals (IngredientVals.write vals a))
                = line_inputs (IngredientVals.write vals a)).
Proof.
  split.
  - intros [] [] E. unfold line_inputs in E. simpl in E.
    injection E as -> -> -> -> ->.
    destruct vals as [[?|] [?|] [?|] [?|]]; reflexivity.
  - intros []. destruct vals as [[?|] [?|] [?|] [?|]]; reflexivity.
Qed.

(** What a successful write leaves: the values it stored, and computed
    fields. *)
Lemma write_recipe_effect id vals env env' :
  ORM.write_recipe id vals env = Ok env' ->
  same_inputs (with_recipes (assign restaurant_recipe.id id (RecipeVals.write vals)) env) env'
  /\ same_keys (with_recipes (assign restaurant_recipe.id id (RecipeVals.write vals)) env) env'.
Proof.
  intro H. unfold ORM.write_recipe in H. inv_ok H.
  destruct (given (RecipeVals.serving_size vals)).
  - inv_ok H. apply Ok_inj in H. subst env'.
    split; [apply compute_cost_per_serving_inputs | apply compute_cost_per_serving_keys].
  - apply Ok_inj in H. subst env'.
    split; [apply same_inputs_refl | apply same_keys_refl].
Qed.

Lemma write_ingredient_effect id vals env env' :
  ORM.write_ingredient id vals env = Ok env' ->
  same_inputs
    (with_ingredients
       (assign restaurant_recipe_ingredient.id id (IngredientVals.write vals)) env) env'
  /\ same_keys
       (with_ingredients
          (assign restaurant_recipe_ingredient.id id (IngredientVals.write vals)) env) env'.
Proof.
  intro H. unfold ORM.write_ingredient in H.
  apply bind_Ok in H. destruct H as [? [_ H]].
  apply bind_Ok in H. destruct H as [? [_ H]].
  apply bind_Ok in H. destruct H as [? [_ H]].
  cbv beta zeta in H. apply Ok_inj in H. subst env'.
  set (env1 := with_ingredients _ env).
  destruct (given (IngredientVals.product_id vals));
    [|destruct (given (IngredientVals.quantity vals))];
    destruct (given (IngredientVals.recipe_id vals));
    (split;
     [ repeat first [ apply same_inputs_refl
                    | apply modified_product_or_price_inputs
                    | apply modified_quantity_or_unit_cost_inputs
                    | apply modified_ingredient_ids_inputs
                    | eapply same_inputs_trans; [|apply modified_ingredient_ids_inputs] ]
     | repeat first [ apply same_keys_refl
                    | apply modified_product_or_price_keys
                    | apply modified_quantity_or_unit_cost_keys
                    | apply modified_ingredient_ids_keys
                    | eapply same_keys_trans; [|apply modified_ingredient_ids_keys] ] ]).
Qed.

Lemma map_factor {A K K' : Type} (k : A -> K) (g : K -> K') l l' :
  map k l' = map k l -> map (fun x => g (k x)) l' = map (fun x => g (k x)) l.
Proof.
  intro E. rewrite <- (map_map k g l'), <- (map_map k g l). now rewrite E.
Qed.

Lemma recipe_keys_of_inputs (t t' : list restaurant_recipe.row) :
  map recipe_inputs t' = map recipe_inputs t -> map recipe_keys t' = map recipe_keys t.
Proof.
  intro E.
  exact (map_factor recipe_inputs
           (fun k => (fst (fst (fst (fst (fst (fst k))))), snd (fst (fst k)))) _ _ E).
Qed.

Lemma line_keys_of_inputs (t t' : list restaurant_recipe_ingredient.row) :
  map line_inputs t' = map line_inputs t -> map line_keys t' = map line_keys t.
Proof.
  intro E.
  exact (map_factor line_inputs
           (fun k => (fst (fst (fst (fst k))), snd (fst (fst (fst k))), snd (fst (fst k))))
           _ _ E).
Qed.

Lemma same_inputs_keys env env' :
  same_inputs env env' ->
  recipe_seq env' = recipe_seq env ->
  ingredient_seq env' = ingredient_seq env ->
  instruction_seq env' = instruction_seq env ->
  same_keys env env'.
Proof.
  intros [I1 I2 I3 I4] S1 S2 S3. constructor; try assumption.
  - now apply recipe_keys_of_inputs.
  - now apply line_keys_of_inputs.
Qed.

Lemma filter_idem {A : Type} (p : A -> bool) l : filter p (filter p l) = filter p l.
Proof. apply filter_filter_implied. auto. Qed.

Lemma with_products_fix f env :
  f (products env) = products env -> with_products f env = env.
Proof. destruct env. unfold with_products. simpl. now intros ->. Qed.

Lemma with_instructions_fix f env :
  f (instructions env) = instructions env -> with_instructions f env = env.
Proof. destruct env. unfold with_instructions. simpl. now intros ->. Qed.

Lemma step_write_idem vals r :
  InstructionVals.write vals (InstructionVals.write vals r) = InstructionVals.write vals r.
Proof. destruct vals as [[?|] [?|] [?|]]; destruct r; reflexivity. Qed.

Lemma recipe_inputs_id a b :
  recipe_inputs a = recipe_inputs b -> restaurant_recipe.id a = restaurant_recipe.id b.
Proof. unfold recipe_inputs. intro E. now injection E. Qed.

Lemma line_inputs_id a b :
  line_inputs a = line_inputs b ->
  restaurant_recipe_ingredient.id a = restaurant_recipe_ingredient.id b.
Proof. unfold line_inputs. intro E. now injection E. Qed.

Lemma write_recipe_again id vals env env1 :
  reachable env1 ->
  ORM.write_recipe id vals env = Ok env1 ->
  transaction (WriteRecipe id vals) env1 = env1.
Proof.
  intros R1 E1. apply transaction_fix; [exact R1|]. intros env2 E2. simpl in E2.
  destruct (write_recipe_effect _ _ _ _ E1) as [I1 _].
  destruct (write_recipe_effect _ _ _ _ E2) as [I2 K2].
  assert (I : same_inputs env1
                (with_recipes (assign restaurant_recipe.id id (RecipeVals.write vals)) env1)).
  { constructor; try reflexivity. simpl.
    apply (assign_again restaurant_recipe.id recipe_inputs id _ (recipes env)).
    - exact recipe_inputs_id.
    - intro a. apply recipe_write_fields.
    - apply recipe_write_inputs.
    - apply recipe_write_inputs.
    - exact (inputs_recipes _ _ I1). }
  split.
  - eapply same_inputs_trans; [exact I | exact I2].
  - eapply same_keys_trans; [|exact K2]. now apply same_inputs_keys.
Qed.

Lemma write_ingredient_again id vals env env1 :
  reachable env1 ->
  ORM.write_ingredient id vals env = Ok env1 ->
  transaction (WriteIngredient id vals) env1 = env1.
Proof.
  intros R1 E1. apply transaction_fix; [exact R1|]. intros env2 E2. simpl in E2.
  destruct (write_ingredient_effect _ _ _ _ E1) as [I1 _].
  destruct (write_ingredient_effect _ _ _ _ E2) as [I2 K2].
  assert (I : same_inputs env1
                (with_ingredients
                   (assign restaurant_recipe_ingredient.id id (IngredientVals.write vals))
                   env1)).
  { constructor; try reflexivity. simpl.
    apply (assign_again restaurant_recipe_ingredient.id line_inputs id _ (ingredients env)).
    - exact line_inputs_id.
    - intro a. apply line_write_fields.
    - apply line_write_inputs.
    - apply line_write_inputs.
    - exact (inputs_lines _ _ I1). }
  split.
  - eapply same_inputs_trans; [exact I | exact I2].
  - eapply same_keys_trans; [|exact K2]. now apply same_inputs_keys.
Qed.

Lemma write_product_standard_price_again id price env env1 :
  reachable env1 ->
  ORM.write_product_standard_price id price env = Ok env1 ->
  transaction (WriteProductStandardPrice id price) env1 = env1.
Proof.
  intros R1 E1. apply transaction_fix; [exact R1|]. intros env2 E2. simpl in E2.
  unfold ORM.write_product_standard_price in E1, E2.
  inv_ok E1. inv_ok E2. apply Ok_inj in E1, E2. subst env2.
  assert (P : products env1
              = assign product_product.id id (product_product.set_standard_price price)
                       (products env)).
  { subst env1. now rewrite (keys_products _ _ (modified_product_or_price_keys _ _)). }
  rewrite with_products_fix by (rewrite P; now apply assign_idem).
  split; [apply modified_product_or_price_inputs | apply modified_product_or_price_keys].
Qed.

Lemma unlink_ingredient_again id env env1 :
  reachable env1 ->
  ORM.unlink_ingredient id env = Ok env1 ->
  transaction (UnlinkIngredient id) env1 = env1.
Proof.
  intros R1 E1. apply transaction_fix; [exact R1|]. intros env2 E2. simpl in E2.
  unfold ORM.unlink_ingredient in E1, E2. apply Ok_inj in E1, E2. subst env2.
  assert (P : ingredients env1
              = filter (fun i => negb (restaurant_recipe_ingredient.id i =? id))
                       (ingredients env)).
  { subst env1. now rewrite modified_ingredient_ids_ingredients. }
  rewrite with_ingredients_fix by (rewrite P; apply filter_idem).
  split; [apply modified_ingredient_ids_inputs | apply modified_ingredient_ids_keys].
Qed.

(** X7.  Writes and unlinks can be run again: in a state the operations
    lead to, an operation that adds no record of this module, run a second
    time right after the first, leaves the state the first run left --
    whether the first run succeeded or was refused. *)
Theorem write_and_unlink_run_again env c :
  reachable env ->
  creates c = false ->
  transaction c (transaction c env) = transaction c env.
Proof.
  intros Hreach Hc.
  pose proof (reachable_step env c Hreach) as R1.
  destruct (execute c env) as [env1|e] eqn:E1.
  - assert (T : transaction c env = env1) by (unfold transaction; now rewrite E1).
    rewrite T in *. clear T.
    destruct c; try discriminate Hc; simpl in E1.
    + unfold ORM.create_product in E1. inv_ok E1. apply Ok_inj in E1. subst env1.
      unfold transaction. simpl. unfold ORM.create_product. simpl.
      rewrite has_id_app.
      replace (has_id product_product.id id [product_product.mk id standard_price])
        with true by (unfold has_id; simpl; now rewrite Z.eqb_refl).
      now rewrite orb_true_r.
    + now apply (write_product_standard_price_again id standard_price env).
    + now apply (write_recipe_again id vals env).
    + unfold ORM.unlink_recipe in E1. apply Ok_inj in E1. subst env1.
      unfold transaction. simpl. now rewrite !filter_idem.
    + now apply (write_ingredient_again id vals env).
    + now apply (unlink_ingredient_again id env).
    + unfold ORM.write_instruction in E1. inv_ok E1. apply Ok_inj in E1. subst env1.
      apply transaction_fix; [exact R1|]. intros env2 E2. simpl in E2.
      unfold ORM.write_instruction in E2. inv_ok E2. apply Ok_inj in E2. subst env2.
      rewrite (with_instructions_fix _ (with_instructions _ env)).
      * split; [apply same_inputs_refl | apply same_keys_refl].
      * simpl. apply assign_idem; [intro r; apply step_write_fields | apply step_write_idem].
    + unfold ORM.unlink_instruction in E1. apply Ok_inj in E1. subst env1.
      unfold transaction. simpl. unfold ORM.unlink_instruction, with_instructions. simpl.
      now rewrite filter_idem.
  - assert (T : transaction c env = env) by (unfold transaction; now rewrite E1).
    now rewrite !T.
Qed.

Lemma write_and_unlink_run_again_witness :
  transaction (WriteRecipe 1 rushed) (transaction (WriteRecipe 1 rushed) kitchen)
  = transaction (WriteRecipe 1 rushed) kitchen.
Proof.
  apply (write_and_unlink_run_again kitchen (WriteRecipe 1 rushed)).
  - exact kitchen_reachable.
  - reflexivity.
Defined.

(** ** Creating a record and unlinking it *)

Lemma filter_all {A : Type} (p : A -> bool) l :
  (forall x, In x l -> p x = true) -> filter p l = l.
Proof.
  induction l as [|x l IH]; intro H; simpl; [reflexivity|].
  rewrite H by now left. f_equal. apply IH. intros; apply H; now right.
Qed.

Lemma filter_snoc_fresh {A : Type} (key : A -> Z) seq l x :
  (forall r, In r l -> key r < seq) -> key x = seq ->
  filter (fun r => negb (key r =? seq)) (l ++ [x]) = l.
Proof.
  intros F E. rewrite filter_app. simpl. rewrite E, Z.eqb_refl. simpl.
  rewrite app_nil_r. apply filter_all.
  intros r Hr. apply negb_true_iff, Z.eqb_neq. specialize (F r Hr). lia.
Qed.

Lemma create_then_unlink_ingredient vals env env1 :
  reachable env ->
  ORM.create_ingredient vals env = Ok env1 ->
  same_inputs env (transaction (UnlinkIngredient (ingredient_seq env)) env1).
Proof.
  intros Hreach E1.
  destruct (reachable_keyed env Hreach) as [_ [_ F] _].
  unfold ORM.create_ingredient in E1. inv_ok E1. apply Ok_inj in E1.
  match type of E1 with ORM.modified_product_or_price _ ?e = _ => set (env0 := e) in * end.
  pose proof (modified_product_or_price_inputs [ingredient_seq env] env0) as [P1 P2 P3 P4].
  rewrite E1 in P1, P2, P3, P4.
  change (transaction (UnlinkIngredient (ingredient_seq env)) env1)
    with (ORM.modified_ingredient_ids
            (ORM.recipes_of [ingredient_seq env] env1)
            (with_ingredients
               (filter (fun i => negb (restaurant_recipe_ingredient.id i =? ingredient_seq env)))
               env1)).
  eapply same_inputs_trans; [|apply modified_ingredient_ids_inputs].
  constructor; simpl; try assumption.
  etransitivity;
    [exact (map_filter_keys line_inputs
              (fun k => negb (fst (fst (fst (fst k))) =? ingredient_seq env))
              (fun k => k) _ _ P3)|].
  f_equal.
  apply (filter_snoc_fresh restaurant_recipe_ingredient.id); [exact F | reflexivity].
Qed.

Lemma owned_below_seq env id :
  keyed env -> has_id restaurant_recipe.id id (recipes env) = true -> id < recipe_seq env.
Proof.
  intros [[_ F] _ _] H. apply has_id_In in H as [r [Hr E]]. subst id. now apply F.
Qed.

Lemma create_then_unlink_recipe vals env env1 :
  reachable env ->
  ORM.create_recipe vals env = Ok env1 ->
  same_inputs env (transaction (UnlinkRecipe (recipe_seq env)) env1).
Proof.
  intros Hreach E1.
  pose proof (reachable_keyed env Hreach) as K.
  destruct (reachable_sound_settled env Hreach) as [[_ LO SO _] _].
  unfold ORM.create_recipe in E1. inv_ok E1. apply Ok_inj in E1.
  match type of E1 with ORM.modified_ingredient_ids _ ?e = _ => set (env0 := e) in * end.
  pose proof (modified_ingredient_ids_inputs [recipe_seq env] env0) as [P1 P2 P3 P4].
  rewrite E1 in P1, P2, P3, P4.
  change (transaction (UnlinkRecipe (recipe_seq env)) env1)
    with (mkEnv (products env1)
            (filter (fun r => negb (restaurant_recipe.id r =? recipe_seq env)) (recipes env1))
            (filter (fun i => negb (restaurant_recipe_ingredient.recipe_id i =? recipe_seq env))
                    (ingredients env1))
            (filter (fun s => negb (restaurant_recipe_instruction.recipe_id s =? recipe_seq env))
                    (instructions env1))
            (recipe_seq env1) (ingredient_seq env1) (instruction_seq env1)).
  constructor; simpl.
  - exact P1.
  - etransitivity;
      [exact (map_filter_keys recipe_inputs
                (fun k => negb (fst (fst (fst (fst (fst (fst k))))) =? recipe_seq env))
                (fun k => k) _ _ P2)|].
    f_equal.
    apply (filter_snoc_fresh restaurant_recipe.id); [apply K | reflexivity].
  - etransitivity;
      [exact (map_filter_keys line_inputs
                (fun k => negb (snd (fst (fst (fst k))) =? recipe_seq env))
                (fun k => k) _ _ P3)|].
    f_equal. apply filter_all. intros i Hi.
    apply negb_true_iff, Z.eqb_neq. unfold line_inputs. cbn [fst snd].
    pose proof (owned_below_seq env _ K (LO i Hi)). lia.
  - rewrite P4. apply filter_all. intros st Hs.
    apply negb_true_iff, Z.eqb_neq.
    pose proof (owned_below_seq env _ K (SO st Hs)). lia.
Qed.

Lemma create_then_unlink_instruction vals env env1 :
  reachable env ->
  ORM.create_instruction vals env = Ok env1 ->
  same_inputs env (transaction (UnlinkInstruction (instruction_seq env)) env1).
Proof.
  intros Hreach E1.
  destruct (reachable_keyed env Hreach) as [_ _ [_ F]].
  unfold ORM.create_instruction in E1. inv_ok E1. apply Ok_inj in E1. subst env1.
  constructor; try reflexivity.
  apply (filter_snoc_fresh restaurant_recipe_instruction.id); [exact F | reflexivity].
Qed.

(** X8.  Creating a record and unlinking it at once is a round trip: in a
    reachable state, when a create succeeds, unlinking the id it gave (the
    next value of the sequence of the table) gives back the four tables as
    they were before the create, stored computed values included.  Only the
    sequence has moved on. *)
Theorem create_then_unlink_restores env c u env1 :
  reachable env ->
  undo c env = Some u ->
  execute c env = Ok env1 ->
  products (transaction u env1) = products env
  /\ recipes (transaction u env1) = recipes env
  /\ ingredients (transaction u env1) = ingredients env
  /\ instructions (transaction u env1) = instructions env.
Proof.
  intros Hreach U E1.
  assert (R1 : reachable env1).
  { replace env1 with (transaction c env);
      [now constructor | unfold transaction; now rewrite E1]. }
  assert (R2 : reachable (transaction u env1)) by now constructor.
  apply settled_same_inputs.
  - now apply reachable_sound_settled.
  - now apply reachable_sound_settled.
  - destruct c; try discriminate U; simpl in U; injection U as <-.
    + now apply (create_then_unlink_recipe vals).
    + now apply (create_then_unlink_ingredient vals).
    + now apply (create_then_unlink_instruction vals).
Qed.

Lemma create_then_unlink_restores_witness :
  products
    (transaction (UnlinkIngredient 3)
       (transaction (CreateIngredient more_salmon)
          kitchen))
  = products kitchen
  /\ recipes
       (transaction (UnlinkIngredient 3)
          (transaction (CreateIngredient more_salmon)
             kitchen))
     = recipes kitchen
  /\ ingredients
       (transaction (UnlinkIngredient 3)
          (transaction (CreateIngredient more_salmon)
             kitchen))
     = ingredients kitchen
  /\ instructions
       (transaction (UnlinkIngredient 3)
          (transaction (CreateIngredient more_salmon)
             kitchen))
     = instructions kitchen.
Proof.
  apply (create_then_unlink_restores kitchen
           (CreateIngredient more_salmon)).
  - exact kitchen_reachable.
  - reflexivity.
  - vm_compute. reflexivity.
Defined.

(** ** A new price for a product *)

Lemma map_eq_pointwise_to {A K : Type} (k : A -> K) (g : A -> A) l l' :
  map k l' = map k l ->
  (forall x y, In x l -> In y l' -> k y = k x -> y = g x) ->
  l' = map g l.
Proof.
  revert l'. induction l as [|x l IH]; intros [|y l'] E H; simpl in E;
    try discriminate; [reflexivity|].
  injection E as Ek El. simpl. f_equal.
  - apply H; [now left | now left | exact Ek].
  - apply IH; [exact El|]. intros a b Ha Hb. apply H; now right.
Qed.

Lemma find_assign_same {A : Type} (key : A -> Z) id (f : A -> A) t :
  (forall r, key (f r) = key r) ->
  find (fun r => key r =? id) (assign key id f t)
  = option_map f (find (fun r => key r =? id) t).
Proof.
  intro Hk. induction t as [|x t IH]; simpl; [reflexivity|].
  destruct (key x =? id) eqn:E.
  - now rewrite Hk, E.
  - now rewrite E.
Qed.

Lemma In_same_inputs {A K : Type} (k : A -> K) l l' x :
  map k l' = map k l -> In x l -> exists y, In y l' /\ k y = k x.
Proof.
  intros E Hx. apply (in_map k) in Hx. rewrite <- E in Hx.
  apply in_map_iff in Hx. destruct Hx as [y [Hy Hin]]. eauto.
Qed.

(** X9.  A new [standard_price] for a product reaches the lines of that
    product and nothing else: in a state the operations lead to, after the
    write every line of the product holds the new price as its [unit_cost]
    and [quantity] times that price as its [total_cost], every other line
    is as it was, and so is every recipe that has no line of the product. *)
Theorem price_change_is_local env id price env' :
  reachable env ->
  execute (WriteProductStandardPrice id price) env = Ok env' ->
  ingredients env' = map (repriced id price) (ingredients env)
  /\ (forall r, In r (recipes env) ->
        (forall i, In i (Recipe.ingredient_ids env (restaurant_recipe.id r)) ->
                   restaurant_recipe_ingredient.product_id i <> id) ->
        In r (recipes env')).
Proof.
  intros Hreach E.
  assert (R' : reachable env').
  { replace env' with (transaction (WriteProductStandardPrice id price) env);
      [now constructor | unfold transaction; now rewrite E]. }
  destruct (reachable_sound_settled env Hreach) as [_ [A B C D]].
  destruct (reachable_sound_settled env' R') as [_ [A' B' C' D']].
  simpl in E. unfold ORM.write_product_standard_price in E. inv_ok E.
  apply Ok_inj in E.
  match type of E with ORM.modified_product_or_price ?l ?e = _ =>
    pose proof (modified_product_or_price_inputs l e) as [P1 P2 P3 P4] end.
  rewrite E in P1, P2, P3, P4. simpl in P1, P2, P3, P4. clear E.
  assert (L : ingredients env' = map (repriced id price) (ingredients env)).
  { apply (map_eq_pointwise_to line_inputs); [exact P3|].
    intros x y Hx Hy Ei.
    specialize (A x Hx eq_refl). specialize (B x Hx eq_refl).
    specialize (A' y Hy eq_refl). specialize (B' y Hy eq_refl).
    unfold line_synced, RecipeIngredient.product_id_standard_price in A, A'.
    unfold line_costed in B, B'. rewrite P1 in A'.
    unfold repriced.
    destruct x as [xi xr xp xq xu xc xt], y as [yi yr yp yq yu yc yt].
    unfold line_inputs in Ei. simpl in *. injection Ei as -> -> -> -> ->.
    destruct (xp =? id) eqn:Ep.
    - apply Z.eqb_eq in Ep. subst xp.
      rewrite find_assign_same in A' by reflexivity.
      destruct (has_id_find _ _ _ Ha) as [p Hp]. rewrite Hp in A'. simpl in A'.
      unfold restaurant_recipe_ingredient.set_total_cost,
        restaurant_recipe_ingredient.set_unit_cost. simpl.
      congruence.
    - apply Z.eqb_neq in Ep.
      rewrite find_assign_other in A' by (reflexivity || assumption).
      assert (yc = xc) as -> by congruence.
      assert (yt = xt) as -> by congruence.
      reflexivity. }
  split; [exact L|].
  intros r Hr Hfree.
  destruct (In_same_inputs recipe_inputs _ _ r P2 Hr) as [y [Hy Ei]].
  replace r with y; [exact Hy|].
  specialize (C r Hr eq_refl). specialize (D r Hr eq_refl).
  specialize (C' y Hy eq_refl). specialize (D' y Hy eq_refl).
  unfold recipe_totalled, lines_total in C, C'.
  assert (Ey : restaurant_recipe.id y = restaurant_recipe.id r).
  { unfold recipe_inputs in Ei. congruence. }
  unfold Recipe.ingredient_ids in C', Hfree. rewrite L, Ey in C'.
  rewrite map_filter_pass in C'.
  - unfold Recipe.ingredient_ids in C.
    unfold recipe_per_serving, per_serving in D, D'.
    destruct r as [xi xn xc xp xs xt xv xo xa], y as [yi yn yc yp ys yt yv yo ya].
    unfold recipe_inputs in Ei. simpl in *. injection Ei as -> -> -> -> -> -> ->.
    assert (yt = xt) as -> by congruence.
    assert (yv = xv) as -> by congruence.
    reflexivity.
  - intros i _. unfold repriced.
    destruct (restaurant_recipe_ingredient.product_id i =? id); reflexivity.
  - intros i Hi Hp. unfold repriced.
    destruct (restaurant_recipe_ingredient.product_id i =? id) eqn:Ep; [|reflexivity].
    apply Z.eqb_eq in Ep. exfalso. apply (Hfree i); [|exact Ep].
    apply filter_In. auto.
Qed.

Lemma price_change_is_local_witness :
  ingredients (transaction (WriteProductStandardPrice 8 9%float) kitchen)
  = map (repriced 8 9%float) (ingredients kitchen)
  /\ (forall r, In r (recipes kitchen) ->
        (forall i, In i (Recipe.ingredient_ids kitchen (restaurant_recipe.id r)) ->
                   restaurant_recipe_ingredient.product_id i <> 8) ->
        In r (recipes (transaction (WriteProductStandardPrice 8 9%float) kitchen))).
Proof.
  apply (price_change_is_local kitchen 8 9%float).
  - exact kitchen_reachable.
  - vm_compute. reflexivity.
Defined.

(** ** A new serving size for a recipe *)

(** X10.  A write of a positive [serving_size] on an existing recipe, its
    Integer values within the range of the field, is accepted, in any
    state.  It touches no product, no line and no step;
    every recipe keeps its [total_cost] and the other recipes are as they
    were; the recipe written holds the new [serving_size], and its
    [cost_per_serving] is its [total_cost] divided by the new value. *)
Theorem positive_serving_size_written env id vals v :
  has_id restaurant_recipe.id id (recipes env) = true ->
  storable vals ->
  RecipeVals.serving_size vals = Some v ->
  v > 0 ->
  exists env',
    execute (WriteRecipe id vals) env = Ok env'
    /\ products env' = products env
    /\ ingredients env' = ingredients env
    /\ instructions env' = instructions env
    /\ map restaurant_recipe.total_cost (recipes env')
       = map restaurant_recipe.total_cost (recipes env)
    /\ (forall r, In r (recipes env) -> restaurant_recipe.id r <> id -> In r (recipes env'))
    /\ (forall r, In r (recipes env') -> restaurant_recipe.id r = id ->
          restaurant_recipe.serving_size r = v
          /\ restaurant_recipe.cost_per_serving r
             = (restaurant_recipe.total_cost r / float_of_int v)%float).
Proof.
  intros Hid _ V Hv.
  set (env1 := with_recipes (assign restaurant_recipe.id id (RecipeVals.write vals)) env).
  assert (W : forall r, restaurant_recipe.serving_size (RecipeVals.write vals r) = v).
  { intro r. destruct (recipe_write_fields vals r) as [_ [_ [_ [S _]]]].
    rewrite S, V. reflexivity. }
  assert (P : Recipe._check_serving_size [id] env1 = Ok tt).
  { apply check_serving_size_passes. intros r Hr Hm.
    rewrite mem_single in Hm. apply Z.eqb_eq in Hm.
    apply In_assign in Hr. destruct Hr as [y [_ [[_ ->] | [Hne ->]]]].
    - rewrite W. exact Hv.
    - contradiction. }
  exists (Recipe._compute_cost_per_serving [id] env1).
  split.
  { simpl. unfold ORM.write_recipe. rewrite Hid. simpl.
    fold env1. rewrite V. simpl. rewrite P. reflexivity. }
  rewrite Recipe_compute_cost_per_serving_rows.
  split; [reflexivity|]. split; [reflexivity|]. split; [reflexivity|].
  assert (Rs : recipes (with_recipes
                          (map (on restaurant_recipe.id [id] recipe_cost_per_serving)) env1)
               = map (fun r => if restaurant_recipe.id r =? id
                               then recipe_cost_per_serving (RecipeVals.write vals r)
                               else r)
                     (recipes env)).
  { unfold env1, with_recipes, assign. simpl. rewrite map_map.
    apply map_ext. intro r. unfold on.
    destruct (restaurant_recipe.id r =? id) eqn:E.
    - now rewrite (proj1 (recipe_write_fields vals r)), mem_single, E.
    - now rewrite mem_single, E. }
  rewrite Rs. clear Rs.
  split; [|split].
  - rewrite map_map. apply map_ext. intro r.
    destruct (restaurant_recipe.id r =? id); [|reflexivity].
    destruct (recipe_write_fields vals r) as [_ [Et _]]. rewrite <- Et.
    destruct (RecipeVals.write vals r). reflexivity.
  - intros r Hr Hne. apply in_map_iff. exists r. split; [|exact Hr].
    apply Z.eqb_neq in Hne. now rewrite Hne.
  - intros r Hr Er. apply in_map_iff in Hr. destruct Hr as [y [<- Hy]].
    destruct (restaurant_recipe.id y =? id) eqn:E.
    + unfold recipe_cost_per_serving, per_serving.
      specialize (W y). destruct (RecipeVals.write vals y). simpl in *. subst.
      assert (G : (v >? 0) = true) by (apply Z.gtb_lt; lia).
      rewrite G. split; reflexivity.
    + apply Z.eqb_neq in E. contradiction.
Qed.

Lemma positive_serving_size_written_witness :
  exists env',
    execute (WriteRecipe 1 (RecipeVals.mk None None None (Some 4) None None)) kitchen
    = Ok env'
    /\ products env' = products kitchen
    /\ ingredients env' = ingredients kitchen
    /\ instructions env' = instructions kitchen
    /\ map restaurant_recipe.total_cost (recipes env')
       = map restaurant_recipe.total_cost (recipes kitchen)
    /\ (forall r, In r (recipes kitchen) -> restaurant_recipe.id r <> 1 -> In r (recipes env'))
    /\ (forall r, In r (recipes env') -> restaurant_recipe.id r = 1 ->
          restaurant_recipe.serving_size r = 4
          /\ restaurant_recipe.cost_per_serving r
             = (restaurant_recipe.total_cost r / float_of_int 4)%float).
Proof.
  apply (positive_serving_size_written kitchen 1
           (RecipeVals.mk None None None (Some 4) None None) 4).
  - vm_compute. reflexivity.
  - split; intros v E; [discriminate E | injection E as <-; unfold int4; lia].
  - reflexivity.
  - lia.
Defined.

(** ** A new line *)

Lemma find_has_id {A : Type} (key : A -> Z) id t r :
  find (fun r => key r =? id) t = Some r -> has_id key id t = true.
Proof.
  intro H. apply find_some in H. unfold has_id. apply existsb_exists. eauto.
Qed.

(** X11.  The creation of a line needs its three required fields and the
    records its [recipe_id] and [product_id] point to: without one of them
    it raises and the state stays as it was.  When it succeeds, in a state
    the operations lead to, the fields were given, the recipe and the
    product exist, and the table of lines is the table before it followed
    by the new line, which has the next id of the sequence, the quantity
    given or else 1.0, the [standard_price] of its product as [unit_cost]
    and [quantity * unit_cost] as [total_cost]. *)
Theorem create_ingredient_decided env vals :
  reachable env ->
  (forall env',
     execute (CreateIngredient vals) env = Ok env' ->
     exists recipe product uom p,
       IngredientVals.recipe_id vals = Some recipe
       /\ IngredientVals.product_id vals = Some product
       /\ IngredientVals.uom_id vals = Some uom
       /\ has_id restaurant_recipe.id recipe (recipes env) = true
       /\ find (fun p => product_product.id p =? product) (products env) = Some p
       /\ ingredients env'
          = ingredients env ++
            [restaurant_recipe_ingredient.mk (ingredient_seq env) recipe product
               (default restaurant_recipe_ingredient.default_quantity
                        (IngredientVals.quantity vals))
               uom
               (product_product.standard_price p)
               (default restaurant_recipe_ingredient.default_quantity
                        (IngredientVals.quantity vals)
                * product_product.standard_price p)%float])
  /\ (IngredientVals.recipe_id vals = None
      \/ IngredientVals.product_id vals = None
      \/ IngredientVals.uom_id vals = None
      \/ (exists recipe, IngredientVals.recipe_id vals = Some recipe
                         /\ has_id restaurant_recipe.id recipe (recipes env) = false)
      \/ (exists product, IngredientVals.product_id vals = Some product
                          /\ has_id product_product.id product (products env) = false) ->
      execute (CreateIngredient vals) env = Raise IntegrityError
      /\ transaction (CreateIngredient vals) env = env).
Proof.
  intro Hreach. split.
  - intros env' E.
    assert (R' : reachable env').
    { replace env' with (transaction (CreateIngredient vals) env);
        [now constructor | unfold transaction; now rewrite E]. }
    destruct (reachable_sound_settled env Hreach) as [_ [A B _ _]].
    destruct (reachable_sound_settled env' R') as [_ [A' B' _ _]].
    simpl in E. unfold ORM.create_ingredient in E.
    destruct (IngredientVals.recipe_id vals) as [recipe|]; [|discriminate E].
    destruct (IngredientVals.product_id vals) as [product|]; [|discriminate E].
    destruct (IngredientVals.uom_id vals) as [uom|]; [|discriminate E].
    cbn [require bind] in E.
    destruct (has_id restaurant_recipe.id recipe (recipes env)) eqn:Hrec;
      [|discriminate E].
    destruct (has_id product_product.id product (products env)) eqn:Hprod;
      [|discriminate E].
    cbv beta iota zeta delta [check bind] in E. apply Ok_inj in E.
    destruct (has_id_find _ _ _ Hprod) as [p Hfind].
    exists recipe, product, uom, p.
    do 5 (split; [reflexivity || assumption|]).
    match type of E with ORM.modified_product_or_price ?l ?e = _ =>
      pose proof (modified_product_or_price_inputs l e) as [P1 _ P3 _] end.
    rewrite E in P1, P3. simpl in P1, P3. clear E.
    apply (map_eq_pointwise line_inputs).
    { rewrite P3, !map_app. reflexivity. }
    intros x y Hx Hy Ei.
    specialize (A' y Hy eq_refl). specialize (B' y Hy eq_refl).
    unfold line_synced, RecipeIngredient.product_id_standard_price in A'.
    unfold line_costed in B'. rewrite P1 in A'.
    apply in_app_or in Hx. destruct Hx as [Hx | [<- | []]].
    + specialize (A x Hx eq_refl). specialize (B x Hx eq_refl).
      unfold line_synced, RecipeIngredient.product_id_standard_price in A.
      unfold line_costed in B.
      destruct x as [xi xr xp xq xu xc xt], y as [yi yr yp yq yu yc yt].
      unfold line_inputs in Ei. simpl in *. injection Ei as -> -> -> -> ->.
      assert (yc = xc) as -> by congruence.
      assert (yt = xt) as -> by congruence.
      reflexivity.
    + destruct y as [yi yr yp yq yu yc yt].
      unfold line_inputs in Ei. simpl in *. injection Ei as -> -> -> -> ->.
      rewrite Hfind in A'. subst yc. subst yt. reflexivity.
  - intro H. assert (E : execute (CreateIngredient vals) env = Raise IntegrityError).
    { simpl. unfold ORM.create_ingredient.
      destruct (IngredientVals.recipe_id vals) as [recipe|]; [|reflexivity].
      destruct (IngredientVals.product_id vals) as [product|]; [|reflexivity].
      destruct (IngredientVals.uom_id vals) as [uom|]; [|reflexivity].
      simpl.
      destruct (has_id restaurant_recipe.id recipe (recipes env)) eqn:Hrec; [|reflexivity].
      destruct (has_id product_product.id product (products env)) eqn:Hprod; [|reflexivity].
      exfalso.
      destruct H as [H | [H | [H | [[r [H1 H2]] | [q [H1 H2]]]]]]; try discriminate;
        injection H1 as <-; congruence. }
    split; [exact E|]. unfold transaction. now rewrite E.
Qed.

Lemma create_ingredient_decided_witness :
  exists recipe product uom p,
    IngredientVals.recipe_id more_salmon = Some recipe
    /\ IngredientVals.product_id more_salmon = Some product
    /\ IngredientVals.uom_id more_salmon = Some uom
    /\ has_id restaurant_recipe.id recipe (recipes kitchen) = true
    /\ find (fun p => product_product.id p =? product) (products kitchen) = Some p
    /\ ingredients (transaction (CreateIngredient more_salmon) kitchen)
       = ingredients kitchen ++
         [restaurant_recipe_ingredient.mk (ingredient_seq kitchen) recipe product
            (default restaurant_recipe_ingredient.default_quantity
                     (IngredientVals.quantity more_salmon))
            uom
            (product_product.standard_price p)
            (default restaurant_recipe_ingredient.default_quantity
                     (IngredientVals.quantity more_salmon)
             * product_product.standard_price p)%float].
Proof.
  apply (proj1 (create_ingredient_decided kitchen more_salmon kitchen_reachable)).
  vm_compute. reflexivity.
Defined.

(** ** Where a new step is read back *)

Section NewStep.
Import restaurant_recipe_instruction.

Lemma insert_filter_sorted (p : row -> bool) x l :
  StronglySorted (fun a b => sequence a <= sequence b) l ->
  filter p (RecipeInstruction.insert x l)
  = if p x then RecipeInstruction.insert x (filter p l) else filter p l.
Proof.
  induction 1 as [|y l Hs IH Hy].
  - simpl. destruct (p x); reflexivity.
  - cbn [RecipeInstruction.insert].
    destruct (sequence x <=? sequence y) eqn:E.
    + apply Z.leb_le in E. cbn [filter]. destruct (p x); [|reflexivity].
      symmetry. apply insert_head. intros z Hz.
      assert (In z (y :: l)) as Hin.
      { destruct (p y); [destruct Hz as [<- | Hz]; [now left|] |];
          right; apply filter_In in Hz; tauto. }
      destruct Hin as [<- | Hin]; [exact E|].
      rewrite Forall_forall in Hy. specialize (Hy z Hin). lia.
    + cbn [filter]. rewrite IH. destruct (p x), (p y); try reflexivity.
      cbn [RecipeInstruction.insert]. now rewrite E.
Qed.

Lemma insert_app_le x a l1 l2 :
  sequence a <= sequence x ->
  RecipeInstruction.insert a (l1 ++ x :: l2) = RecipeInstruction.insert a l1 ++ x :: l2.
Proof.
  intro H. induction l1 as [|y l1 IH]; simpl.
  - replace (sequence a <=? sequence x) with true; [reflexivity|].
    symmetry. now apply Z.leb_le.
  - destruct (sequence a <=? sequence y); [reflexivity|]. now rewrite IH.
Qed.

Lemma insert_app_gt x a l1 l2 :
  (forall y, In y l1 -> sequence y < sequence a) ->
  sequence x < sequence a ->
  RecipeInstruction.insert a (l1 ++ x :: l2) = l1 ++ x :: RecipeInstruction.insert a l2.
Proof.
  intros H Hx. induction l1 as [|y l1 IH]; simpl.
  - replace (sequence a <=? sequence x) with false; [reflexivity|].
    symmetry. apply Z.leb_gt. exact Hx.
  - replace (sequence a <=? sequence y) with false.
    + rewrite IH; [reflexivity|]. intros; apply H; now right.
    + symmetry. apply Z.leb_gt. apply H. now left.
Qed.

Lemma order_snoc x l :
  RecipeInstruction._order (l ++ [x])
  = filter (fun s => sequence s <=? sequence x) (RecipeInstruction._order l)
    ++ x :: filter (fun s => negb (sequence s <=? sequence x)) (RecipeInstruction._order l).
Proof.
  unfold RecipeInstruction._order.
  induction l as [|a l IH]; [reflexivity|].
  cbn [app fold_right]. rewrite IH.
  fold (RecipeInstruction._order l).
  rewrite !insert_filter_sorted by apply order_sorted.
  destruct (sequence a <=? sequence x) eqn:E; cbn [negb].
  - apply Z.leb_le in E. now apply insert_app_le.
  - apply Z.leb_gt in E. apply insert_app_gt; [|exact E].
    intros y Hy. apply filter_In in Hy. destruct Hy as [_ Hy].
    apply Z.leb_le in Hy. lia.
Qed.

End NewStep.

(** X12.  Where a new step is read back.  When the creation of a step
    succeeds, whatever the tie-break of the database, the steps read back
    for its recipe are those read back before together with the new step,
    which comes after steps of a [sequence] at most its own and before
    steps of a [sequence] at least its own; its [sequence] is the one given
    or else 10.  When no two of
    these steps have the same [sequence], the steps read back are those
    read back before with the new step put in at its place.  The steps of
    the other recipes are the same rows. *)
Theorem new_step_read_back (db : RecipeInstruction.tie_break) env vals env' :
  execute (CreateInstruction vals) env = Ok env' ->
  exists recipe text,
    InstructionVals.recipe_id vals = Some recipe
    /\ InstructionVals.instruction vals = Some text
    /\ (let step :=
          restaurant_recipe_instruction.mk (instruction_seq env) recipe
            (default restaurant_recipe_instruction.default_sequence
                     (InstructionVals.sequence vals))
            text in
        (exists before after,
           Recipe.instruction_ids_by db env' recipe = before ++ step :: after
           /\ (forall s, In s before ->
                 restaurant_recipe_instruction.sequence s
                 <= restaurant_recipe_instruction.sequence step)
           /\ (forall s, In s after ->
                 restaurant_recipe_instruction.sequence step
                 <= restaurant_recipe_instruction.sequence s)
           /\ Permutation (before ++ after) (Recipe.instruction_ids_by db env recipe))
        /\ (NoDup (map restaurant_recipe_instruction.sequence
                       (Recipe.instruction_ids_by db env' recipe)) ->
            Recipe.instruction_ids_by db env' recipe
            = filter (fun s => restaurant_recipe_instruction.sequence s
                               <=? restaurant_recipe_instruction.sequence step)
                     (Recipe.instruction_ids_by db env recipe)
              ++ step
              :: filter (fun s => negb (restaurant_recipe_instruction.sequence s
                                        <=? restaurant_recipe_instruction.sequence step))
                        (Recipe.instruction_ids_by db env recipe)))
    /\ (forall other, other <> recipe ->
          filter (fun s => restaurant_recipe_instruction.recipe_id s =? other)
                 (instructions env')
          = filter (fun s => restaurant_recipe_instruction.recipe_id s =? other)
                   (instructions env)).
Proof.
  intro E. simpl in E. unfold ORM.create_instruction in E.
  destruct (InstructionVals.recipe_id vals) as [recipe|]; [|discriminate].
  destruct (InstructionVals.instruction vals) as [text|]; [|discriminate].
  simpl in E.
  destruct (has_id restaurant_recipe.id recipe (recipes env)); [|discriminate].
  simpl in E. apply Ok_inj in E. subst env'.
  exists recipe, text. split; [reflexivity|]. split; [reflexivity|].
  cbv zeta.
  set (step := restaurant_recipe_instruction.mk (instruction_seq env) recipe
                 (default restaurant_recipe_instruction.default_sequence
                          (InstructionVals.sequence vals)) text).
  unfold Recipe.instruction_ids_by, RecipeInstruction._order_by. simpl instructions.
  rewrite filter_app. cbn [filter]. fold step.
  replace (restaurant_recipe_instruction.recipe_id step =? recipe) with true
    by (symmetry; apply Z.eqb_refl).
  set (rows := filter _ (instructions env)).
  set (read' := RecipeInstruction._order (RecipeInstruction.arrange db (rows ++ [step]))).
  set (read := RecipeInstruction._order (RecipeInstruction.arrange db rows)).
  assert (P' : Permutation read' (rows ++ [step])).
  { etransitivity; [apply order_Permutation | apply RecipeInstruction.arrange_perm]. }
  assert (P : Permutation read rows).
  { etransitivity; [apply order_Permutation | apply RecipeInstruction.arrange_perm]. }
  assert (S' : StronglySorted (fun a b => restaurant_recipe_instruction.sequence a
                                          <= restaurant_recipe_instruction.sequence b)
                              read') by apply order_sorted.
  split; [split|].
  - assert (Hin : In step read').
    { apply (Permutation_in step (Permutation_sym P')).
      apply in_or_app. right. now left. }
    apply in_split in Hin. destruct Hin as [before [after Eq]].
    exists before, after. split; [exact Eq|].
    rewrite Eq in S'. destruct (sorted_around _ _ _ S') as [H1 H2].
    split; [exact H1|]. split; [exact H2|].
    rewrite P. symmetry. apply Permutation_cons_app_inv with (a := step).
    rewrite <- Eq, P'. apply Permutation_cons_append.
  - intro N.
    assert (N' : NoDup (map restaurant_recipe_instruction.sequence (rows ++ [step]))).
    { apply (Permutation_NoDup (Permutation_map _ P')). exact N. }
    assert (N0 : NoDup (map restaurant_recipe_instruction.sequence read)).
    { apply (Permutation_NoDup (Permutation_map _ (Permutation_sym P))).
      rewrite map_app in N'. now apply NoDup_app_remove_r in N'. }
    assert (E' : read' = RecipeInstruction._order (rows ++ [step])).
    { apply sorted_unique; [exact S' | apply order_sorted | | exact N].
      rewrite P'. symmetry. apply order_Permutation. }
    assert (E0 : read = RecipeInstruction._order rows).
    { apply sorted_unique; [apply order_sorted | apply order_sorted | | exact N0].
      rewrite P. symmetry. apply order_Permutation. }
    rewrite E', E0. apply order_snoc.
  - intros other Hne. simpl instructions. rewrite filter_app. simpl.
    replace (recipe =? other) with false; [now rewrite app_nil_r|].
    symmetry. apply Z.eqb_neq. congruence.
Qed.

Lemma new_step_read_back_witness :
  exists recipe text,
    InstructionVals.recipe_id shape_rice = Some recipe
    /\ InstructionVals.instruction shape_rice = Some text
    /\ (let step :=
          restaurant_recipe_instruction.mk (instruction_seq kitchen) recipe
            (default restaurant_recipe_instruction.default_sequence
                     (InstructionVals.sequence shape_rice))
            text in
        (exists before after,
           Recipe.instruction_ids_by reversed kitchen_tied recipe = before ++ step :: after
           /\ (forall s, In s before ->
                 restaurant_recipe_instruction.sequence s
                 <= restaurant_recipe_instruction.sequence step)
           /\ (forall s, In s after ->
                 restaurant_recipe_instruction.sequence step
                 <= restaurant_recipe_instruction.sequence s)
           /\ Permutation (before ++ after)
                          (Recipe.instruction_ids_by reversed kitchen recipe))
        /\ (NoDup (map restaurant_recipe_instruction.sequence
                       (Recipe.instruction_ids_by reversed kitchen_tied recipe)) ->
            Recipe.instruction_ids_by reversed kitchen_tied recipe
            = filter (fun s => restaurant_recipe_instruction.sequence s
                               <=? restaurant_recipe_instruction.sequence step)
                     (Recipe.instruction_ids_by reversed kitchen recipe)
              ++ step
              :: filter (fun s => negb (restaurant_recipe_instruction.sequence s
                                        <=? restaurant_recipe_instruction.sequence step))
                        (Recipe.instruction_ids_by reversed kitchen recipe)))
    /\ (forall other, other <> recipe ->
          filter (fun s => restaurant_recipe_instruction.recipe_id s =? other)
                 (instructions kitchen_tied)
          = filter (fun s => restaurant_recipe_instruction.recipe_id s =? other)
                   (instructions kitchen)).
Proof.
  apply (new_step_read_back reversed kitchen shape_rice).
  vm_compute. reflexivity.
Defined.

(** With no tie the steps are read back in one order, whatever the
    tie-break: the step of sequence 15 comes between those of sequence 10
    and 20. *)
Example new_step_between :
  map restaurant_recipe_instruction.id
      (Recipe.instruction_ids_by table_order
         (transaction (CreateInstruction plate_up) kitchen) 1)
  = [2; 3; 1]
  /\ map restaurant_recipe_instruction.id
         (Recipe.instruction_ids_by reversed
            (transaction (CreateInstruction plate_up) kitchen) 1)
     = [2; 3; 1].
Proof. split; vm_compute; reflexivity. Qed.

(** ** A new recipe *)

Lemma filter_none {A : Type} (p : A -> bool) l :
  (forall x, In x l -> p x = false) -> filter p l = [].
Proof.
  induction l as [|x l IH]; intro H; simpl; [reflexivity|].
  rewrite H by now left. apply IH. intros; apply H; now right.
Qed.

Lemma modified_ingredient_ids_tables ids env :
  products (ORM.modified_ingredient_ids ids env) = products env
  /\ ingredients (ORM.modified_ingredient_ids ids env) = ingredients env
  /\ instructions (ORM.modified_ingredient_ids ids env) = instructions env.
Proof. rewrite modified_ingredient_ids_rows. repeat split. Qed.

(** X13.  A recipe created with a name, a [serving_size] that is positive
    or left out and its Integer values within the range of the field is
    stored with the defaults of the source for the fields left out
    ([category] other, [prep_time] 0, [serving_size] 1, [active] true).  In
    a state the operations lead to the new row is added to the table with
    the next id of the sequence, costs nothing yet ([total_cost] 0,
    [cost_per_serving] 0 over its serving size), and no line and no step
    refers to it; every other row of every table is as it was. *)
Theorem new_recipe_stored env vals name :
  reachable env ->
  RecipeVals.name vals = Some name ->
  storable vals ->
  default restaurant_recipe.default_serving_size (RecipeVals.serving_size vals) > 0 ->
  exists env',
    execute (CreateRecipe vals) env = Ok env'
    /\ recipes env'
       = recipes env ++
         [restaurant_recipe.mk (recipe_seq env) name
            (default restaurant_recipe.other (RecipeVals.category vals))
            (default 0 (RecipeVals.prep_time vals))
            (default 1 (RecipeVals.serving_size vals))
            0%float
            (0 / float_of_int (default 1%Z (RecipeVals.serving_size vals)))%float
            (RecipeVals.notes vals)
            (default true (RecipeVals.active vals))]
    /\ products env' = products env
    /\ ingredients env' = ingredients env
    /\ instructions env' = instructions env
    /\ (forall i, In i (ingredients env') ->
          restaurant_recipe_ingredient.recipe_id i <> recipe_seq env)
    /\ (forall s, In s (instructions env') ->
          restaurant_recipe_instruction.recipe_id s <> recipe_seq env).
Proof.
  intros Hreach N _ Hv.
  pose proof (reachable_keyed env Hreach) as K.
  destruct (reachable_sound_settled env Hreach) as [[_ LO SO _] [_ _ C D]].
  set (row0 := restaurant_recipe.mk (recipe_seq env) name
                 (default restaurant_recipe.default_category (RecipeVals.category vals))
                 (default restaurant_recipe.default_prep_time (RecipeVals.prep_time vals))
                 (default restaurant_recipe.default_serving_size
                          (RecipeVals.serving_size vals))
                 0%float 0%float (RecipeVals.notes vals)
                 (default restaurant_recipe.default_active (RecipeVals.active vals))).
  set (env0 := mkEnv (products env) (recipes env ++ [row0]) (ingredients env)
                     (instructions env) (recipe_seq env + 1) (ingredient_seq env)
                     (instruction_seq env)).
  assert (P : Recipe._check_serving_size [recipe_seq env] env0 = Ok tt).
  { apply check_serving_size_passes. intros r Hr Hm.
    rewrite mem_single in Hm. apply Z.eqb_eq in Hm.
    unfold env0 in Hr. simpl in Hr. apply in_app_or in Hr.
    destruct Hr as [Hr | [<- | []]]; [|exact Hv].
    destruct K as [[_ F] _ _]. specialize (F r Hr). lia. }
  assert (E : execute (CreateRecipe vals) env
              = Ok (ORM.modified_ingredient_ids [recipe_seq env] env0)).
  { simpl. unfold ORM.create_recipe. rewrite N. simpl.
    fold row0. fold env0. rewrite P. reflexivity. }
  exists (ORM.modified_ingredient_ids [recipe_seq env] env0).
  split; [exact E|].
  assert (R' : reachable (ORM.modified_ingredient_ids [recipe_seq env] env0)).
  { replace (ORM.modified_ingredient_ids [recipe_seq env] env0)
      with (transaction (CreateRecipe vals) env);
      [now constructor | unfold transaction; now rewrite E]. }
  destruct (reachable_sound_settled _ R') as [_ [_ _ C' D']].
  destruct (modified_ingredient_ids_tables [recipe_seq env] env0) as [T1 [T2 T3]].
  pose proof (modified_ingredient_ids_inputs [recipe_seq env] env0) as [_ P2 _ _].
  assert (NL : forall i, In i (ingredients env) ->
                          restaurant_recipe_ingredient.recipe_id i <> recipe_seq env).
  { intros i Hi. pose proof (owned_below_seq env _ K (LO i Hi)). lia. }
  assert (NS : forall st, In st (instructions env) ->
                           restaurant_recipe_instruction.recipe_id st <> recipe_seq env).
  { intros st Hi. pose proof (owned_below_seq env _ K (SO st Hi)). lia. }
  split; [|split; [exact T1|]; split; [exact T2|]; split; [exact T3|]; split].
  - apply (map_eq_pointwise recipe_inputs).
    { rewrite P2. unfold env0. simpl. rewrite !map_app. reflexivity. }
    intros x y Hx Hy Ei.
    specialize (C' y Hy eq_refl). specialize (D' y Hy eq_refl).
    unfold recipe_totalled, lines_total, Recipe.ingredient_ids in C'.
    rewrite T2 in C'. change (ingredients env0) with (ingredients env) in C'.
    unfold recipe_per_serving, per_serving in D'.
    apply in_app_or in Hx. destruct Hx as [Hx | [<- | []]].
    + specialize (C x Hx eq_refl). specialize (D x Hx eq_refl).
      unfold recipe_totalled, lines_total, Recipe.ingredient_ids in C.
      unfold recipe_per_serving, per_serving in D.
      destruct x as [xi xn xc xp xs xt xv xo xa], y as [yi yn yc yp ys yt yv yo ya].
      unfold recipe_inputs in Ei. simpl in *. injection Ei as -> -> -> -> -> -> ->.
      assert (yt = xt) as -> by congruence.
      assert (yv = xv) as -> by congruence.
      reflexivity.
    + destruct y as [yi yn yc yp ys yt yv yo ya].
      unfold recipe_inputs in Ei. simpl in *. injection Ei as -> -> -> -> -> -> ->.
      rewrite filter_none in C'
        by (intros i Hi; apply Z.eqb_neq; now apply NL).
      simpl in C'. subst yt.
      unfold restaurant_recipe.default_serving_size in Hv.
      replace (default 1 (RecipeVals.serving_size vals) >? 0) with true in D'
        by (symmetry; apply Z.gtb_lt; lia).
      subst yv. reflexivity.
  - rewrite T2. exact NL.
  - rewrite T3. exact NS.
Qed.

Lemma new_recipe_stored_witness :
  exists env',
    execute (CreateRecipe tamago_vals) kitchen = Ok env'
    /\ recipes env'
       = recipes kitchen ++
         [restaurant_recipe.mk (recipe_seq kitchen) "Tamago"
            (default restaurant_recipe.other (RecipeVals.category tamago_vals))
            (default 0 (RecipeVals.prep_time tamago_vals))
            (default 1 (RecipeVals.serving_size tamago_vals))
            0%float
            (0 / float_of_int (default 1%Z (RecipeVals.serving_size tamago_vals)))%float
            (RecipeVals.notes tamago_vals)
            (default true (RecipeVals.active tamago_vals))]
    /\ products env' = products kitchen
    /\ ingredients env' = ingredients kitchen
    /\ instructions env' = instructions kitchen
    /\ (forall i, In i (ingredients env') ->
          restaurant_recipe_ingredient.recipe_id i <> recipe_seq kitchen)
    /\ (forall s, In s (instructions env') ->
          restaurant_recipe_instruction.recipe_id s <> recipe_seq kitchen).
Proof.
  apply (new_recipe_stored kitchen tamago_vals "Tamago").
  - exact kitchen_reachable.
  - reflexivity.
  - split; intros v E; discriminate E.
  - vm_compute. reflexivity.
Defined.

(** ** What an operation on a line reaches *)

Lemma line_determined env env' x y :
  products env' = products env ->
  line_synced env x -> line_costed x ->
  line_synced env' y -> line_costed y ->
  line_inputs y = line_inputs x -> y = x.
Proof.
  unfold line_synced, RecipeIngredient.product_id_standard_price, line_costed.
  intros P A B A' B' E. rewrite P in A'.
  destruct x as [xi xr xp xq xu xc xt], y as [yi yr yp yq yu yc yt].
  unfold line_inputs in E. simpl in *. injection E as -> -> -> -> ->.
  assert (yc = xc) as -> by congruence.
  assert (yt = xt) as -> by congruence.
  reflexivity.
Qed.

Lemma recipe_determined env env' x y :
  Recipe.ingredient_ids env' (restaurant_recipe.id x)
  = Recipe.ingredient_ids env (restaurant_recipe.id x) ->
  recipe_totalled env x -> recipe_per_serving x ->
  recipe_totalled env' y -> recipe_per_serving y ->
  recipe_inputs y = recipe_inputs x -> y = x.
Proof.
  unfold recipe_totalled, lines_total, recipe_per_serving, per_serving.
  intros L C D C' D' E.
  rewrite (recipe_inputs_id _ _ E), L in C'.
  destruct x as [xi xn xc xp xs xt xv xo xa], y as [yi yn yc yp ys yt yv yo ya].
  unfold recipe_inputs in E. simpl in *. injection E as -> -> -> -> -> -> ->.
  assert (yt = xt) as -> by congruence.
  assert (yv = xv) as -> by congruence.
  reflexivity.
Qed.

Lemma filter_assign_other {A : Type} (key : A -> Z) id (f : A -> A) l :
  (forall r, key (f r) = key r) ->
  filter (fun r => negb (key r =? id)) (assign key id f l)
  = filter (fun r => negb (key r =? id)) l.
Proof.
  intro Hk. unfold assign. induction l as [|x l IH]; simpl; [reflexivity|].
  destruct (key x =? id) eqn:E.
  - rewrite Hk, E. simpl. exact IH.
  - rewrite E. simpl. now rewrite IH.
Qed.

Lemma line_operation_inputs c t env env' :
  line_target c env = Some t ->
  execute c env = Ok env' ->
  exists lines,
    (products env' = products env
     /\ map recipe_inputs (recipes env') = map recipe_inputs (recipes env)
     /\ map line_inputs (ingredients env') = map line_inputs lines
     /\ instructions env' = instructions env)
    /\ filter (fun i => negb (restaurant_recipe_ingredient.id i =? t)) lines
       = filter (fun i => negb (restaurant_recipe_ingredient.id i =? t)) (ingredients env).
Proof.
  intros T E. destruct c; try discriminate T; simpl in T, E; injection T as <-.
  - unfold ORM.create_ingredient in E. inv_ok E. apply Ok_inj in E. subst env'.
    match goal with |- context [ORM.modified_product_or_price ?l ?e] =>
      destruct (modified_product_or_price_inputs l e) as [I1 I2 I3 I4] end.
    eexists. split; [exact (conj I1 (conj I2 (conj I3 I4)))|].
    simpl. rewrite filter_app. simpl. rewrite Z.eqb_refl. simpl. apply app_nil_r.
  - apply write_ingredient_effect in E. destruct E as [[I1 I2 I3 I4] _].
    eexists. split; [exact (conj I1 (conj I2 (conj I3 I4)))|].
    simpl. apply filter_assign_other. intro r. apply (line_write_fields vals r).
  - unfold ORM.unlink_ingredient in E. apply Ok_inj in E. subst env'.
    match goal with |- context [ORM.modified_ingredient_ids ?l ?e] =>
      destruct (modified_ingredient_ids_inputs l e) as [I1 I2 I3 I4] end.
    eexists. split; [exact (conj I1 (conj I2 (conj I3 I4)))|].
    simpl. apply filter_idem.
Qed.

(** X14.  An operation on a line (its creation, a write on it, its
    removal) reaches that line and its recipes only: in a state the
    operations lead to, the other lines are the same rows in the same order
    after it, no product and no step is touched, and every recipe that is
    not the recipe of the line, before or after, is as it was. *)
Theorem line_operations_are_local env c t env' :
  reachable env ->
  line_target c env = Some t ->
  execute c env = Ok env' ->
  filter (fun i => negb (restaurant_recipe_ingredient.id i =? t)) (ingredients env')
  = filter (fun i => negb (restaurant_recipe_ingredient.id i =? t)) (ingredients env)
  /\ products env' = products env
  /\ instructions env' = instructions env
  /\ (forall r, In r (recipes env) ->
        (forall i, In i (ingredients env) \/ In i (ingredients env') ->
                   restaurant_recipe_ingredient.id i = t ->
                   restaurant_recipe_ingredient.recipe_id i <> restaurant_recipe.id r) ->
        In r (recipes env')).
Proof.
  intros Hreach T E.
  assert (R' : reachable env').
  { replace env' with (transaction c env);
      [now constructor | unfold transaction; now rewrite E]. }
  destruct (reachable_sound_settled env Hreach) as [_ [A B C D]].
  destruct (reachable_sound_settled env' R') as [_ [A' B' C' D']].
  destruct (line_operation_inputs c t env env' T E) as [lines [[I1 [I2 [I3 I4]]] F]].
  assert (L : filter (fun i => negb (restaurant_recipe_ingredient.id i =? t))
                     (ingredients env')
              = filter (fun i => negb (restaurant_recipe_ingredient.id i =? t))
                       (ingredients env)).
  { apply (map_eq_pointwise line_inputs).
    - rewrite <- F.
      exact (map_filter_keys line_inputs
               (fun k => negb (fst (fst (fst (fst k))) =? t)) (fun k => k) _ _ I3).
    - intros x y Hx Hy Ei.
      apply filter_In in Hx. destruct Hx as [Hx _].
      apply filter_In in Hy. destruct Hy as [Hy _].
      apply (line_determined env env'); auto. }
  split; [exact L|]. split; [exact I1|]. split; [exact I4|].
  intros r Hr Hfree.
  destruct (In_same_inputs recipe_inputs _ _ r I2 Hr) as [y [Hy Ei]].
  replace r with y; [exact Hy|].
  apply (recipe_determined env env'); auto.
  unfold Recipe.ingredient_ids.
  rewrite <- (filter_filter_implied _ (fun i => negb (restaurant_recipe_ingredient.id i =? t))
                             (ingredients env')).
  - rewrite L. apply filter_filter_implied. intros i Hi Hq.
    apply negb_true_iff, Z.eqb_neq. intro Et. apply Z.eqb_eq in Hq.
    now apply (Hfree i (or_introl Hi) Et).
  - intros i Hi Hq.
    apply negb_true_iff, Z.eqb_neq. intro Et. apply Z.eqb_eq in Hq.
    now apply (Hfree i (or_intror Hi) Et).
Qed.

Lemma line_operations_are_local_witness :
  filter (fun i => negb (restaurant_recipe_ingredient.id i =? 1))
         (ingredients (transaction (UnlinkIngredient 1) kitchen))
  = filter (fun i => negb (restaurant_recipe_ingredient.id i =? 1)) (ingredients kitchen)
  /\ products (transaction (UnlinkIngredient 1) kitchen) = products kitchen
  /\ instructions (transaction (UnlinkIngredient 1) kitchen) = instructions kitchen
  /\ (forall r, In r (recipes kitchen) ->
        (forall i, In i (ingredients kitchen)
                   \/ In i (ingredients (transaction (UnlinkIngredient 1) kitchen)) ->
                   restaurant_recipe_ingredient.id i = 1 ->
                   restaurant_recipe_ingredient.recipe_id i <> restaurant_recipe.id r) ->
        In r (recipes (transaction (UnlinkIngredient 1) kitchen))).
Proof.
  apply (line_operations_are_local kitchen (UnlinkIngredient 1) 1).
  - exact kitchen_reachable.
  - reflexivity.
  - vm_compute. reflexivity.
Defined.
